(** * cronjob: a scheduled probe dispatcher

    A shallow embedding of the three script variants of the repository:

    - [Broadcast] : [src/index.js], every configured endpoint is called on
      every tick, literal query parameters;
    - [Minimal]   : [src/unnamed/part_000], one random endpoint, random query
      parameters, no guards;
    - [Server]    : [src/unnamed/part_001], one random endpoint, random query
      parameters, plus an Express control surface.

    Conventions of the embedding.

    - A JavaScript string is held as the bytes of its UTF-8 form (Rocq's
      [string]).  Every string operation the scripts use ([+], template
      literals, [startsWith], [slice], [===]) acts on ASCII delimiters, on
      which bytes and UTF-16 code units agree.  A string with an unpaired
      surrogate, on which [encodeURIComponent] raises [URIError], has no
      UTF-8 form and is outside the model.
    - A JavaScript number is an IEEE 754 binary64 value ([Number]): [NaN],
      an infinity, or a finite value held as the rational it stands for.
      Products and sums are rounded to the nearest double, ties to even
      ([round64]), and [Number_toString] prints the shortest decimal that
      reads back as the same double, in exponent form from [1e21] on.  The
      sign of zero is not kept: no operation the scripts use tells [+0]
      from [-0].  Status codes and array lengths are integers ([Z]) and
      enter arithmetic and printing through [Number_of_Z].
    - Effects (the random source, the HTTP transport, the console) are
      threaded through an explicit [World]; a JavaScript exception is the
      [Thrown] result of the [JS] monad.
    - Of the libraries the model keeps what the scripts depend on.  Of
      Express: [express.json()] runs before every route and refuses a body
      it cannot parse, and the final handler answers an error and an
      unknown route with an error page.  Of node-cron: [cron.schedule]
      throws on an expression it does not accept.  Of Node: [app.listen]
      throws on a port out of range.  [JSON.parse] and these two checks
      are parameters of the start-up. *)

From Stdlib Require Import ZArith QArith Qround Qpower List String Ascii.
From Stdlib Require Import DecimalString Lia Lqa Bool Permutation.
Import ListNotations.

Local Open Scope list_scope.
Local Open Scope Z_scope.
Local Open Scope string_scope.

(** ** JavaScript built-ins used by the scripts *)

(** *** Numbers *)

Inductive Number : Type :=
  | NaN
  | Infinity (negative : bool)
  | Finite (q : Q).

(** [floor (log2 a)] for a positive rational. *)
Definition Qlog2 (a : Q) : Z :=
  let k := (Z.log2 (Qnum a) - Z.log2 (Zpos (Qden a)))%Z in
  if Qle_bool (2 ^ k) a then k else (k - 1)%Z.

(** The nearest integer, the even one of two that are equally near. *)
Definition round_half_even (s : Q) : Z :=
  let f := Qfloor s in
  match (s - inject_Z f ?= 1 # 2)%Q with
  | Lt => f
  | Gt => (f + 1)%Z
  | Eq => if Z.even f then f else (f + 1)%Z
  end.

(** The exponent of the unit in the last place of the doubles around a
    positive rational: 53 significant bits, and [2^-1074] for the
    subnormals. *)
Definition ulp_exponent (a : Q) : Z := Z.max (Qlog2 a - 52) (-1074).

Definition significand (a : Q) : Z := round_half_even (a / 2 ^ ulp_exponent a).

(** The nearest multiple of the unit in the last place. *)
Definition rounded (a : Q) : Q :=
  (inject_Z (significand a) * 2 ^ ulp_exponent a)%Q.

(** Rounding a positive rational to binary64; what rounds to [2^1024] or
    beyond overflows. *)
Definition round_positive (a : Q) : Number :=
  if Qle_bool (2 ^ 1024) (rounded a) then Infinity false
  else Finite (Qred (rounded a)).

Definition Number_opp (x : Number) : Number :=
  match x with
  | NaN => NaN
  | Infinity s => Infinity (negb s)
  | Finite q => Finite (Qred (- q))
  end.

(** Round to nearest, ties to even (IEEE 754, roundTiesToEven). *)
Definition round64 (q : Q) : Number :=
  match (q ?= 0)%Q with
  | Eq => Finite 0
  | Gt => round_positive q
  | Lt => Number_opp (round_positive (- q))
  end.

(** The number an integer literal, a status code or a length stands for. *)
Definition Number_of_Z (z : Z) : Number := round64 (inject_Z z).

(** [x * y] *)
Definition Number_mul (x y : Number) : Number :=
  match x, y with
  | NaN, _ | _, NaN => NaN
  | Finite a, Finite b => round64 (a * b)
  | Infinity s, Infinity t => Infinity (xorb s t)
  | Infinity s, Finite b | Finite b, Infinity s =>
      match (b ?= 0)%Q with
      | Eq => NaN
      | Gt => Infinity s
      | Lt => Infinity (negb s)
      end
  end.

(** [x + y] *)
Definition Number_add (x y : Number) : Number :=
  match x, y with
  | NaN, _ | _, NaN => NaN
  | Finite a, Finite b => round64 (a + b)
  | Infinity s, Infinity t => if Bool.eqb s t then Infinity s else NaN
  | Infinity s, Finite _ | Finite _, Infinity s => Infinity s
  end.

Definition Math_floor (x : Number) : Number :=
  match x with
  | Finite q => Finite (inject_Z (Qfloor q))
  | _ => x
  end.

(** Whether a rational is a double, and whether a number is a double in
    [[0,1)], as every result of [Math.random] is. *)
Definition is_double (q : Q) : bool :=
  match round64 q with
  | Finite q' => Qeq_bool q' q
  | _ => false
  end.

Definition unit_double (x : Number) : bool :=
  match x with
  | Finite q => Qle_bool 0 q && negb (Qle_bool 1 q) && is_double q
  | _ => false
  end.

(** [floor (log10 a)] for a positive rational, found by stepping: upward
    from 0 while the next power of ten is still at most [a], or downward
    from -1 until a power of ten is at most [a].  As many steps as
    [floor (log2 a)] is away from 0 are enough. *)
Fixpoint log10_up (fuel : nat) (c : Z) (a : Q) : Z :=
  match fuel with
  | O => c
  | S fuel' =>
      if Qle_bool (10 ^ (c + 1)) a then log10_up fuel' (c + 1)%Z a else c
  end.

Fixpoint log10_down (fuel : nat) (c : Z) (a : Q) : Z :=
  match fuel with
  | O => c
  | S fuel' =>
      if Qle_bool (10 ^ c) a then c else log10_down fuel' (c - 1)%Z a
  end.

Definition Qlog10 (a : Q) : Z :=
  if Qle_bool 1 a then log10_up (Z.to_nat (Qlog2 a)) 0 a
  else log10_down (Z.to_nat (- Qlog2 a)) (-1) a.

(** Whether the decimal [s * 10^p] reads back as the double [x]. *)
Definition rounds_to (x : Q) (s p : Z) : bool :=
  match round64 (inject_Z s * 10 ^ p) with
  | Finite q => Qeq_bool q x
  | _ => false
  end.

(** The digits [s] and the exponent [n] of Number::toString (ECMAScript
    6.1.6.1.20): [s] has as few digits as can be, [k] or more, with
    [s * 10^(n - k)] reading back as [x], and is the nearer to [x] of two
    such; [c] is [floor (log10 x)]. *)
Fixpoint shortest_decimal (fuel : nat) (k : Z) (x : Q) (c : Z) : Z * Z :=
  let p := (c + 1 - k)%Z in
  let lo := Qfloor (x / 10 ^ p) in
  let hi := (lo + 1)%Z in
  let down := (lo, (c + 1)%Z) in
  let up := if (hi =? 10 ^ k)%Z then (1%Z, (c + 2)%Z) else (hi, (c + 1)%Z) in
  match fuel with
  | O => down
  | S fuel' =>
      match rounds_to x lo p, rounds_to x hi p with
      | true, false => down
      | false, true => up
      | true, true =>
          match (x - inject_Z lo * 10 ^ p ?= inject_Z hi * 10 ^ p - x)%Q with
          | Lt => down
          | Gt => up
          | Eq => if Z.even lo then down else up
          end
      | false, false => shortest_decimal fuel' (k + 1)%Z x c
      end
  end.

(** A non-negative integer in decimal. *)
Definition decimal (z : Z) : string := NilEmpty.string_of_int (Z.to_int z).

Fixpoint zeros (n : nat) : string :=
  match n with
  | O => ""
  | S m => String "0" (zeros m)
  end.

(** The layout of Number::toString for the digits [sd] and the exponent
    [n]: plain up to 21 integer digits and down to six leading zeros of a
    fraction, exponent form otherwise. *)
Definition format_decimal (sd : string) (n : Z) : string :=
  let k := Z.of_nat (String.length sd) in
  if ((k <=? n) && (n <=? 21))%Z then sd ++ zeros (Z.to_nat (n - k))
  else if ((0 <? n) && (n <=? 21))%Z then
    substring 0 (Z.to_nat n) sd ++ "."
      ++ substring (Z.to_nat n) (Z.to_nat (k - n)) sd
  else if ((-6 <? n) && (n <=? 0))%Z then
    "0." ++ zeros (Z.to_nat (- n)) ++ sd
  else
    let e := (n - 1)%Z in
    let exponent := (if (e <? 0)%Z then "-" else "+") ++ decimal (Z.abs e) in
    if (k =? 1)%Z then sd ++ "e" ++ exponent
    else substring 0 1 sd ++ "."
           ++ substring 1 (Z.to_nat (k - 1)) sd ++ "e" ++ exponent.

Definition positive_toString (x : Q) : string :=
  let (s, n) := shortest_decimal 17 1 x (Qlog10 x) in
  format_decimal (decimal s) n.

(** [String(x)], also what a template literal and [encodeURIComponent]
    make of a number. *)
Definition Number_toString (x : Number) : string :=
  match x with
  | NaN => "NaN"
  | Infinity false => "Infinity"
  | Infinity true => "-Infinity"
  | Finite q =>
      match (q ?= 0)%Q with
      | Eq => "0"
      | Gt => positive_toString q
      | Lt => "-" ++ positive_toString (- q)
      end
  end.

(** *** Strings and arrays *)

(** The characters [encodeURIComponent] leaves alone: ASCII letters, digits
    and [- _ . ! ~ * ' ( )] (ECMAScript, uriUnescaped). *)
Definition uriUnescaped (c : ascii) : bool :=
  let n := N_of_ascii c in
  ((65 <=? n) && (n <=? 90))%N
  || ((97 <=? n) && (n <=? 122))%N
  || ((48 <=? n) && (n <=? 57))%N
  || existsb (Ascii.eqb c)
       ["-"; "_"; "."; "!"; "~"; "*"; "'"; "("; ")"]%char.

Definition hexDigit (n : N) : ascii :=
  match n with
  | 0 => "0" | 1 => "1" | 2 => "2" | 3 => "3" | 4 => "4" | 5 => "5"
  | 6 => "6" | 7 => "7" | 8 => "8" | 9 => "9" | 10 => "A" | 11 => "B"
  | 12 => "C" | 13 => "D" | 14 => "E" | _ => "F"
  end%N%char.

(** One UTF-8 byte as [%XX], upper-case hexadecimal. *)
Definition percentEscape (c : ascii) : string :=
  let n := N_of_ascii c in
  String "%" (String (hexDigit (n / 16)) (String (hexDigit (n mod 16)) "")).

Fixpoint encodeURIComponent (s : string) : string :=
  match s with
  | "" => ""
  | String c rest =>
      (if uriUnescaped c then String c "" else percentEscape c)
        ++ encodeURIComponent rest
  end.

(** [Array.prototype.push], as the array it leaves behind. *)
Definition push {A : Type} (arr : list A) (x : A) : list A := (arr ++ [x])%list.

(** [Array.prototype.join]. *)
Definition join (sep : string) (parts : list string) : string :=
  String.concat sep parts.

(** [s.startsWith(p)] and [s.slice(n)]. *)
Definition startsWith (p s : string) : bool := String.prefix p s.

Fixpoint slice (n : nat) (s : string) : string :=
  match n, s with
  | O, _ => s
  | S _, "" => ""
  | S m, String _ rest => slice m rest
  end.

(** Truthiness of a string and of a number. *)
Definition truthy_string (s : string) : bool := negb (s =? "").
Definition truthy_number (x : Number) : bool :=
  match x with
  | NaN => false
  | Infinity _ => true
  | Finite q => negb (Qeq_bool q 0)
  end.

(** A value that is a string or [undefined]: what an array read or an
    absent environment variable yields. *)
Inductive JSValue : Type :=
  | JUndefined
  | JString (s : string).

Definition truthy (v : JSValue) : bool :=
  match v with
  | JUndefined => false
  | JString s => truthy_string s
  end.

(** Conversion inside a template literal. *)
Definition toString (v : JSValue) : string :=
  match v with
  | JUndefined => "undefined"
  | JString s => s
  end.

(** [arr[i]]: the element at an index that is a whole number inside the
    array, [undefined] for any other number. *)
Definition array_get (arr : list string) (i : Number) : JSValue :=
  match i with
  | Finite q =>
      if Qle_bool 0 q && Qeq_bool (inject_Z (Qfloor q)) q
      then match nth_error arr (Z.to_nat (Qfloor q)) with
           | Some s => JString s
           | None => JUndefined
           end
      else JUndefined
  | _ => JUndefined
  end.

(** [Math.floor(r * n)]. *)
Definition floor_mul (r n : Number) : Number := Math_floor (Number_mul r n).

(** ** The world the scripts run in *)

(** An outbound request as handed to [fetch]. *)
Record Request : Type := mkRequest {
  rq_url : string;
  rq_method : string;
  rq_headers : list (string * string)
}.

(** What the transport hands back when a call settles with a response. *)
Record Response : Type := mkResponse {
  response_url : string;
  response_status : Z;
  response_statusText : string
}.

(** [response.ok] (Fetch standard: the status is in 200..299). *)
Definition response_ok (r : Response) : bool :=
  ((200 <=? response_status r) && (response_status r <=? 299))%Z.

(** A settled [fetch]: a response, or a rejection carrying [error.message]. *)
Inductive FetchResult : Type :=
  | Responded (r : Response)
  | Rejected (message : string).

Inductive LogLine : Type :=
  | ConsoleLog (args : list string)
  | ConsoleError (args : list string).

Record World : Type := mkWorld {
  (** the samples [Math.random] hands out, in order, and how many were drawn *)
  random : nat -> Number;
  drawn : nat;
  (** how the [k]-th outbound call settles *)
  network : nat -> Request -> FetchResult;
  (** the outbound calls issued so far, oldest first *)
  calls : list Request;
  console : list LogLine;
  (** [new Date().toISOString()] *)
  clock : string
}.

(** Every sample of [Math.random] is a double in [[0,1)]. *)
Definition uniform_samples (w : World) : Prop :=
  forall i : nat, unit_double (random w i) = true.

(** ** The monad of JavaScript computations *)

Inductive Result (A : Type) : Type :=
  | Returned (a : A)
  | Thrown (message : string).
Arguments Returned {A} a.
Arguments Thrown {A} message.

Definition JS (A : Type) : Type := World -> Result A * World.

Definition ret {A} (a : A) : JS A := fun w => (Returned a, w).

Definition bind {A B} (m : JS A) (k : A -> JS B) : JS B :=
  fun w =>
    match m w with
    | (Returned a, w') => k a w'
    | (Thrown e, w') => (Thrown e, w')
    end.

Definition throw {A} (message : string) : JS A := fun w => (Thrown message, w).

(** [try { body } catch (error) { handler(error.message) }] *)
Definition try_catch {A} (body : JS A) (handler : string -> JS A) : JS A :=
  fun w =>
    match body w with
    | (Returned a, w') => (Returned a, w')
    | (Thrown e, w') => handler e w'
    end.

Notation "x <- m ;; k" := (bind m (fun x => k))
  (at level 61, m at next level, right associativity).
Notation "m ;;; k" := (bind m (fun _ => k))
  (at level 61, right associativity).

Definition Math_random : JS Number :=
  fun w =>
    (Returned (random w (drawn w)),
     mkWorld (random w) (S (drawn w)) (network w) (calls w) (console w)
             (clock w)).

Definition console_log (args : list string) : JS unit :=
  fun w =>
    (Returned tt,
     mkWorld (random w) (drawn w) (network w) (calls w)
             (push (console w) (ConsoleLog args)) (clock w)).

Definition console_error (args : list string) : JS unit :=
  fun w =>
    (Returned tt,
     mkWorld (random w) (drawn w) (network w) (calls w)
             (push (console w) (ConsoleError args)) (clock w)).

(** Issuing a call: the request is on the wire from here on; how it will
    settle is the transport's business. *)
Definition fetch_issue (rq : Request) : JS FetchResult :=
  fun w =>
    (Returned (network w (List.length (calls w)) rq),
     mkWorld (random w) (drawn w) (network w) (push (calls w) rq) (console w)
             (clock w)).

(** Resuming after [await]: a rejection is raised at the [await]. *)
Definition await (r : FetchResult) : JS Response :=
  match r with
  | Responded resp => ret resp
  | Rejected message => throw message
  end.

(** [await fetch(url, options)] with nothing else running in between. *)
Definition fetch (rq : Request) : JS Response :=
  r <- fetch_issue rq ;; await r.

Definition Date_now_ISO : JS string := fun w => (Returned (clock w), w).

(** ** The request builder shared by [src/index.js] and [src/unnamed/part_001] *)

(** [buildURL] (index.js 78-92, part_001 110-122; the two texts agree). *)
Definition buildURL (baseURL : string) (endpoint : JSValue)
    (queryString : string) : string :=
  let url := baseURL in
  let url := if truthy endpoint then url ++ "/" ++ toString endpoint else url in
  let url := if truthy_string queryString then url ++ "?" ++ queryString
             else url in
  url.

(** ** Process start-up, as seen from outside *)

(** [process.env]: every variable is a string or [undefined]. *)
Record Env : Type := mkEnv {
  CRON_TIMER : JSValue;
  BASE_URL : JSValue;
  CRON_SECRET : JSValue;
  SERVER_AUTH_TOKEN : JSValue;
  CLIENT_AUTH_TOKEN : JSValue;
  ENDPOINTS : JSValue;
  QUERY_PARAMS : JSValue;
  ENV_PORT : JSValue
}.

(** What the top level of a script does before it goes idle. *)
Inductive ProcessEvent : Type :=
  | Stderr (args : list string)
  | ProcessExit (code : Z)
  | CronScheduled (expression : string)
  | ServerListening (port : string).


(** [process.env.X ? JSON.parse(process.env.X) : []] *)
Definition parse_or_empty {A} (JSON_parse : string -> Result (list A))
    (v : JSValue) : Result (list A) :=
  if truthy v then JSON_parse (toString v) else Returned [].

(** ** Promises of the tasks of one cycle *)

Inductive PromiseResult : Type :=
  | Fulfilled
  | RejectedWith (reason : string).

Inductive TaskState : Type :=
  | Awaiting (r : FetchResult)
  | Settled (p : PromiseResult).

(** * [src/index.js]: broadcast to every endpoint *)

Module Broadcast.

(** [param.value]: a string or a number, or absent. *)
Inductive ParamValue : Type :=
  | PUndefined
  | PNull
  | PString (s : string)
  | PNumber (n : Number).

Record QueryParam : Type := mkQueryParam {
  key : string;
  value : ParamValue
}.

Record Config : Type := mkConfig {
  cronTimer : string;
  baseURL : string;
  cronSecret : JSValue;
  endpoints : list string;
  queryParams : list QueryParam
}.

(** [param.value !== undefined && param.value !== null] *)
Definition value_present (v : ParamValue) : bool :=
  match v with
  | PUndefined | PNull => false
  | PString _ | PNumber _ => true
  end.

(** The string [encodeURIComponent] makes of its argument first. *)
Definition value_toString (v : ParamValue) : string :=
  match v with
  | PUndefined => "undefined"
  | PNull => "null"
  | PString s => s
  | PNumber n => Number_toString n
  end.

Definition getAllEndpoints (arr : option (list string)) : list string :=
  match arr with
  | None => []
  | Some a => if (Z.of_nat (List.length a) =? 0)%Z then [] else a
  end.

(** The body of the [for] loop of [buildQueryParams], [params] being the
    array pushed to. *)
Fixpoint buildQueryParams_loop (arr : list QueryParam) (params : list string)
    : list string :=
  match arr with
  | [] => params
  | param :: rest =>
      if truthy_string (key param) && value_present (value param)
      then buildQueryParams_loop rest
             (push params
                (encodeURIComponent (key param) ++ "="
                   ++ encodeURIComponent (value_toString (value param))))
      else buildQueryParams_loop rest params
  end.

Definition buildQueryParams (arr : option (list QueryParam)) : string :=
  match arr with
  | None => ""
  | Some a =>
      if (Z.of_nat (List.length a) =? 0)%Z then ""
      else join "&" (buildQueryParams_loop a [])
  end.

Section Dispatch.

Variable cfg : Config.

Definition createRequestHeaders : list (string * string) :=
  let headers := [("Content-Type", "application/json");
                  ("User-Agent", "CronJob/1.0.0")] in
  if truthy (cronSecret cfg)
  then push headers ("X-Cron-Secret", toString (cronSecret cfg))
  else headers.

(** The [catch] block of [makeRequest]. *)
Definition makeRequest_catch (endpoint : string) (message : string)
    : JS unit :=
  console_error ["Error making request to " ++ endpoint ++ ":"; message].

(** [makeRequest] from its entry to the [await]: the call is issued and the
    task suspends ([Some]), or the [catch] block has already run ([None]). *)
Definition makeRequest_enter (endpoint : string) : JS (option FetchResult) :=
  try_catch
    (let queryString := buildQueryParams (Some (queryParams cfg)) in
     let url := buildURL (baseURL cfg) (JString endpoint) queryString in
     console_log ["Making request to: " ++ url] ;;;
     r <- fetch_issue (mkRequest url "GET" createRequestHeaders) ;;
     ret (Some r))
    (fun message => makeRequest_catch endpoint message ;;; ret None).

(** [makeRequest] from the [await] to its end, once the call has settled. *)
Definition makeRequest_resume (endpoint : string) (r : FetchResult)
    : JS unit :=
  try_catch
    (response <- await r ;;
     console_log [response_url response ++ " - "
                    ++ Number_toString (Number_of_Z (response_status response))
                    ++ " "
                    ++ response_statusText response])
    (makeRequest_catch endpoint).

(** One task of a cycle: the promise [makeRequest(endpoint)] returned. *)
Record Task : Type := mkTask {
  task_endpoint : string;
  task_state : TaskState
}.

(** Calling the [async] function: it runs up to its [await] and hands back a
    promise; an exception escaping it would reject that promise. *)
Definition makeRequest_start (endpoint : string) : JS Task :=
  fun w =>
    match makeRequest_enter endpoint w with
    | (Returned (Some r), w') => (Returned (mkTask endpoint (Awaiting r)), w')
    | (Returned None, w') => (Returned (mkTask endpoint (Settled Fulfilled)), w')
    | (Thrown e, w') => (Returned (mkTask endpoint (Settled (RejectedWith e))), w')
    end.

(** [endpointsToCall.map(endpoint => makeRequest(endpoint))] *)
Fixpoint map_makeRequest (endpointsToCall : list string) : JS (list Task) :=
  match endpointsToCall with
  | [] => ret []
  | endpoint :: rest =>
      t <- makeRequest_start endpoint ;;
      ts <- map_makeRequest rest ;;
      ret (t :: ts)
  end.

(** The event loop hands the settled call back to the task that awaits it. *)
Definition settle_task (t : Task) : JS Task :=
  match task_state t with
  | Settled _ => ret t
  | Awaiting r =>
      fun w =>
        match makeRequest_resume (task_endpoint t) r w with
        | (Returned _, w') =>
            (Returned (mkTask (task_endpoint t) (Settled Fulfilled)), w')
        | (Thrown e, w') =>
            (Returned (mkTask (task_endpoint t) (Settled (RejectedWith e))), w')
        end
  end.

(** The call of task number [i] settles; nothing happens for a number that
    names no task. *)
Fixpoint settle (i : nat) (tasks : list Task) : JS (list Task) :=
  match tasks, i with
  | [], _ => ret []
  | t :: rest, O => t' <- settle_task t ;; ret (t' :: rest)
  | t :: rest, S j => rest' <- settle j rest ;; ret (t :: rest')
  end.

(** The calls settle in the order [arrivals] the network decides. *)
Fixpoint settle_all (arrivals : list nat) (tasks : list Task)
    : JS (list Task) :=
  match arrivals with
  | [] => ret tasks
  | i :: later => tasks' <- settle i tasks ;; settle_all later tasks'
  end.

(** [Promise.allSettled(requests)] resolves once no promise is pending. *)
Fixpoint allSettled (tasks : list Task) : option (list PromiseResult) :=
  match tasks with
  | [] => Some []
  | t :: rest =>
      match task_state t, allSettled rest with
      | Settled p, Some ps => Some (p :: ps)
      | _, _ => None
      end
  end.

Inductive TickResult : Type :=
  | Skipped
  | Completed (batch : list PromiseResult)
  | Waiting (tasks : list Task).

(** The callback given to [cron.schedule], run on one tick. *)
Definition cron_callback (arrivals : list nat) : JS TickResult :=
  let endpointsToCall := getAllEndpoints (Some (endpoints cfg)) in
  if (Z.of_nat (List.length endpointsToCall) =? 0)%Z
  then console_log ["No endpoints configured - skipping cron run"] ;;;
       ret Skipped
  else
    console_log ["Starting cron job - calling "
                   ++ Number_toString
                        (Number_of_Z (Z.of_nat (List.length endpointsToCall)))
                   ++ " endpoint(s)"] ;;;
    (if (Z.of_nat (List.length (queryParams cfg)) >? 0)%Z
     then console_log ["Using "
                         ++ Number_toString
                              (Number_of_Z
                                 (Z.of_nat (List.length (queryParams cfg))))
                         ++ " query parameter(s)"]
     else ret tt) ;;;
    requests <- map_makeRequest endpointsToCall ;;
    settled <- settle_all arrivals requests ;;
    match allSettled settled with
    | None => ret (Waiting settled)
    | Some batch =>
        console_log ["Cron job completed - called "
                       ++ Number_toString
                            (Number_of_Z
                               (Z.of_nat (List.length endpointsToCall)))
                       ++ " endpoint(s)"] ;;;
        ret (Completed batch)
    end.

End Dispatch.

Section Startup.

(** [JSON.parse] at the two types the script reads its result at; a
    [SyntaxError] is [Thrown] with its message. *)
Variable JSON_parse_endpoints : string -> Result (list string).
Variable JSON_parse_queryParams : string -> Result (list QueryParam).

(** The check [cron.schedule] makes of its expression before it registers
    the task: node-cron throws on an expression it does not accept. *)
Variable cron_validate : string -> Result unit.

(** The [try] block at lines 29-31. *)
Definition parse_env (env : Env)
    : Result (list string * list QueryParam) :=
  match parse_or_empty JSON_parse_endpoints (ENDPOINTS env) with
  | Thrown message => Thrown message
  | Returned endpoints =>
      match parse_or_empty JSON_parse_queryParams (QUERY_PARAMS env) with
      | Thrown message => Thrown message
      | Returned queryParams => Returned (endpoints, queryParams)
      end
  end.

(** The top level of the script: what the process does, and the
    configuration the callback then closes over.  An exception of
    [cron.schedule] (line 140) is caught by nothing: Node reports it on the
    error stream and ends the process with status 1. *)
Definition main (env : Env) : list ProcessEvent * option Config :=
  let cronTimer := CRON_TIMER env in
  let baseURL := BASE_URL env in
  let cronSecret := CRON_SECRET env in
  if negb (truthy cronTimer) || negb (truthy baseURL)
  then ([Stderr ["Missing required environment variables: CRON_TIMER and BASE_URL"];
         ProcessExit 1], None)
  else
    match parse_env env with
    | Thrown message =>
        ([Stderr ["Error parsing JSON from environment variables:"; message];
          ProcessExit 1], None)
    | Returned (endpoints, queryParams) =>
        match cron_validate (toString cronTimer) with
        | Thrown message => ([Stderr [message]; ProcessExit 1], None)
        | Returned _ =>
            ([CronScheduled (toString cronTimer)],
             Some (mkConfig (toString cronTimer) (toString baseURL) cronSecret
                            endpoints queryParams))
        end
    end.

End Startup.

End Broadcast.

(** * [src/unnamed/part_000]: one random endpoint, no guards *)

Module Minimal.

Record QueryParam : Type := mkQueryParam {
  key : string;
  range : Number
}.

Record Config : Type := mkConfig {
  cronTimer : JSValue;
  baseURL : JSValue;
  endpoints : option (list string);
  queryParams : list QueryParam
}.

(** [arr[Math.floor(Math.random() * arr.length)]]; reading [length] of a
    missing array raises a [TypeError], after the sample has been drawn. *)
Definition getRandomEndpoint (arr : option (list string)) : JS JSValue :=
  r <- Math_random ;;
  match arr with
  | None => throw "Cannot read properties of undefined (reading 'length')"
  | Some a =>
      ret (array_get a (floor_mul r (Number_of_Z (Z.of_nat (List.length a)))))
  end.

(** The [for] loop of [getRandomQueryParams], [query] being the string
    built so far. *)
Fixpoint getRandomQueryParams_loop (arr : list QueryParam) (query : string)
    : JS string :=
  match arr with
  | [] => ret query
  | param :: rest =>
      r <- Math_random ;;
      getRandomQueryParams_loop rest
        (query ++ key param ++ "="
           ++ Number_toString
                (Number_add (floor_mul r (range param)) (Number_of_Z 1))
           ++ "&")
  end.

Definition getRandomQueryParams (arr : list QueryParam) : JS string :=
  getRandomQueryParams_loop arr "".

(** The callback given to [cron.schedule]. *)
Definition cron_callback (cfg : Config) : JS unit :=
  endpoint <- getRandomEndpoint (endpoints cfg) ;;
  query <- getRandomQueryParams (queryParams cfg) ;;
  let url := toString (baseURL cfg) ++ "/" ++ toString endpoint ++ "?" ++ query in
  response <- fetch (mkRequest url "GET" []) ;;
  console_log [response_url response ++ " - "
                 ++ Number_toString (Number_of_Z (response_status response))].

End Minimal.

(** * [src/unnamed/part_001]: one random endpoint behind a control surface *)

Module Server.

Record QueryParam : Type := mkQueryParam {
  key : string;
  range : Number
}.

Record Config : Type := mkConfig {
  PORT : string;
  cronTimer : string;
  baseURL : string;
  serverAuthToken : string;
  clientAuthToken : JSValue;
  endpoints : list string;
  queryParams : list QueryParam
}.

(** The object [executeCronJob] resolves to; [error] is left out on success. *)
Record DispatchOutcome : Type := mkDispatchOutcome {
  success : bool;
  url : string;
  status : Z;
  error : JSValue
}.

(** The JSON documents the server answers with. *)
#[local] Unset Elimination Schemes.
Inductive Json : Type :=
  | JsonString (s : string)
  | JsonNumber (n : Z)
  | JsonBool (b : bool)
  | JsonObject (fields : list (string * Json)).
#[local] Set Elimination Schemes.

Fixpoint json_field (name : string) (fields : list (string * Json))
    : option Json :=
  match fields with
  | [] => None
  | (k, v) :: rest => if (k =? name) then Some v else json_field name rest
  end.

Definition json_of_outcome (o : DispatchOutcome) : Json :=
  JsonObject
    ([("success", JsonBool (success o));
      ("url", JsonString (url o));
      ("status", JsonNumber (status o))]
     ++ match error o with
        | JUndefined => []
        | JString message => [("error", JsonString message)]
        end)%list.

Record HttpResponse : Type := mkHttpResponse {
  statusCode : Z;
  body : Json
}.

(** The route Express matched the method and path of a request to;
    [Unrouted] when no route matches and the request falls through to the
    final handler.  (A [HEAD] request is matched by the [GET] routes.) *)
Inductive Route : Type :=
  | GET_health
  | POST_trigger
  | GET_status
  | Unrouted.

(** What [express.json()] makes of the body of a request before any route
    sees it: it hands the request on (there is no body, the content type
    is not JSON, or the body is a JSON document that parses), or it raises
    an error that carries a status (400 for a document that does not parse,
    413 for one that is too large, 415 for an encoding it does not know)
    and a stack trace. *)
Inductive BodyParse : Type :=
  | BodyAccepted
  | BodyRefused (status : Z) (stack : string).

Record IncomingRequest : Type := mkIncomingRequest {
  route : Route;
  (** [req.headers.authorization] *)
  authorization : JSValue;
  json_body : BodyParse
}.

(** What the caller gets back: the JSON document of [res.json], or the HTML
    page Express's final handler sends for an error or an unknown route. *)
Inductive ServerAnswer : Type :=
  | JsonAnswer (response : HttpResponse)
  | ErrorPage (status : Z).

Definition getRandomEndpoint (arr : option (list string)) : JS JSValue :=
  match arr with
  | None => ret (JString "")
  | Some a =>
      if (Z.of_nat (List.length a) =? 0)%Z then ret (JString "")
      else
        r <- Math_random ;;
        ret (array_get a
               (floor_mul r (Number_of_Z (Z.of_nat (List.length a)))))
  end.

(** The [for] loop of [getRandomQueryParams], [params] being the array
    pushed to. *)
Fixpoint getRandomQueryParams_loop (arr : list QueryParam)
    (params : list string) : JS (list string) :=
  match arr with
  | [] => ret params
  | param :: rest =>
      if truthy_string (key param) && truthy_number (range param)
      then
        r <- Math_random ;;
        let value := Number_add (floor_mul r (range param)) (Number_of_Z 1) in
        getRandomQueryParams_loop rest
          (push params
             (encodeURIComponent (key param) ++ "="
                ++ encodeURIComponent (Number_toString value)))
      else getRandomQueryParams_loop rest params
  end.

Definition getRandomQueryParams (arr : option (list QueryParam)) : JS string :=
  match arr with
  | None => ret ""
  | Some a =>
      if (Z.of_nat (List.length a) =? 0)%Z then ret ""
      else
        params <- getRandomQueryParams_loop a [] ;;
        ret (join "&" params)
  end.

Section Serve.

Variable cfg : Config.

(** The [env] setting of the Express application: [process.env.NODE_ENV],
    or ["development"] when that is not set. *)
Variable env_setting : string.

Definition authenticateRequest (req : IncomingRequest)
    (next : JS HttpResponse) : JS HttpResponse :=
  let authHeader := authorization req in
  if negb (truthy authHeader)
  then ret (mkHttpResponse 401
              (JsonObject [("error", JsonString "Authorization header required")]))
  else
    let token := if startsWith "Bearer " (toString authHeader)
                 then slice 7 (toString authHeader)
                 else toString authHeader in
    if negb (token =? serverAuthToken cfg)
    then ret (mkHttpResponse 403
                (JsonObject [("error", JsonString "Invalid token")]))
    else next.

Definition createRequestHeaders : list (string * string) :=
  let headers := [("Content-Type", "application/json");
                  ("User-Agent", "CronJob/1.0.0")] in
  if truthy (clientAuthToken cfg)
  then push headers
         ("Authorization",
          if startsWith "Bearer " (toString (clientAuthToken cfg))
          then toString (clientAuthToken cfg)
          else "Bearer " ++ toString (clientAuthToken cfg))
  else headers.

Definition executeCronJob : JS DispatchOutcome :=
  try_catch
    (endpoint <- getRandomEndpoint (Some (endpoints cfg)) ;;
     queryString <- getRandomQueryParams (Some (queryParams cfg)) ;;
     let url := buildURL (baseURL cfg) endpoint queryString in
     console_log ["Making request to: " ++ url] ;;;
     response <- fetch (mkRequest url "GET" createRequestHeaders) ;;
     console_log [response_url response ++ " - "
                    ++ Number_toString (Number_of_Z (response_status response))
                    ++ " "
                    ++ response_statusText response] ;;;
     ret (mkDispatchOutcome (response_ok response) (response_url response)
            (response_status response) JUndefined))
    (fun message =>
       console_error ["Error making request:"; message] ;;;
       ret (mkDispatchOutcome false "" 0 (JString message))).

Definition health_handler : JS HttpResponse :=
  timestamp <- Date_now_ISO ;;
  ret (mkHttpResponse 200
         (JsonObject [("status", JsonString "healthy");
                      ("timestamp", JsonString timestamp)])).

Definition trigger_handler : JS HttpResponse :=
  result <- executeCronJob ;;
  timestamp <- Date_now_ISO ;;
  ret (mkHttpResponse 200
         (JsonObject [("message", JsonString "Cron job triggered manually");
                      ("result", json_of_outcome result);
                      ("timestamp", JsonString timestamp)])).

Definition status_handler : JS HttpResponse :=
  timestamp <- Date_now_ISO ;;
  ret (mkHttpResponse 200
         (JsonObject
            [("cronTimer", JsonString (cronTimer cfg));
             ("baseURL", JsonString (baseURL cfg));
             ("endpointsCount",
              JsonNumber (Z.of_nat (List.length (endpoints cfg))));
             ("queryParamsCount",
              JsonNumber (Z.of_nat (List.length (queryParams cfg))));
             ("hasClientAuth", JsonBool (truthy (clientAuthToken cfg)));
             ("timestamp", JsonString timestamp)])).

(** [res.json(...)] ends the request with a JSON document. *)
Definition send (handler : JS HttpResponse) : JS ServerAnswer :=
  response <- handler ;; ret (JsonAnswer response).

(** The routes registered on [app] (lines 183-207); a request no route
    matches falls through to Express's final handler, which answers 404. *)
Definition routes (req : IncomingRequest) : JS ServerAnswer :=
  match route req with
  | GET_health => send health_handler
  | POST_trigger => send (authenticateRequest req trigger_handler)
  | GET_status => send (authenticateRequest req status_handler)
  | Unrouted => ret (ErrorPage 404)
  end.

(** The status Express's final handler answers an error with: the status
    of the error if that is a client or server error status, 500 if not. *)
Definition error_status (status : Z) : Z :=
  if ((400 <=? status) && (status <? 600))%Z then status else 500.

(** [app.use(express.json())] (line 180), registered before the routes.  A
    body the parser refuses never reaches a route: the error goes to
    Express's final handler, which writes its stack with [console.error]
    unless the [env] setting is ["test"], and answers with an error page. *)
Definition express_json (req : IncomingRequest) (next : JS ServerAnswer)
    : JS ServerAnswer :=
  match json_body req with
  | BodyAccepted => next
  | BodyRefused status stack =>
      (if env_setting =? "test" then ret tt else console_error [stack]) ;;;
      ret (ErrorPage (error_status status))
  end.

(** The application: the middleware, then the routes. *)
Definition app (req : IncomingRequest) : JS ServerAnswer :=
  express_json req (routes req).

(** What the scheduler runs on a tick: [cron.schedule(cronTimer, executeCronJob)]. *)
Definition cron_tick : JS DispatchOutcome := executeCronJob.

End Serve.

Section Startup.

Variable JSON_parse_endpoints : string -> Result (list string).
Variable JSON_parse_queryParams : string -> Result (list QueryParam).

(** The check [cron.schedule] makes of its expression before it registers
    the task: node-cron throws on an expression it does not accept. *)
Variable cron_validate : string -> Result unit.

(** The check [app.listen] makes of its argument before it binds: Node
    throws on a port number that is not a whole number from 0 to 65535. *)
Variable listen_check : string -> Result unit.

(** The [try] block at lines 36-38. *)
Definition parse_env (env : Env)
    : Result (list string * list QueryParam) :=
  match parse_or_empty JSON_parse_endpoints (ENDPOINTS env) with
  | Thrown message => Thrown message
  | Returned endpoints =>
      match parse_or_empty JSON_parse_queryParams (QUERY_PARAMS env) with
      | Thrown message => Thrown message
      | Returned queryParams => Returned (endpoints, queryParams)
      end
  end.

(** The top level of the script.  [cron.schedule] (line 210) comes before
    [app.listen] (line 213); an exception of either is caught by nothing:
    Node reports it on the error stream and ends the process with status 1.
    When [cron.schedule] throws, the server never listens; when
    [app.listen] throws, the task was registered but the process ends at
    once. *)
Definition main (env : Env) : list ProcessEvent * option Config :=
  let PORT := if truthy (ENV_PORT env) then toString (ENV_PORT env)
              else "3000" in
  let cronTimer := CRON_TIMER env in
  let baseURL := BASE_URL env in
  let serverAuthToken := SERVER_AUTH_TOKEN env in
  let clientAuthToken := CLIENT_AUTH_TOKEN env in
  if negb (truthy cronTimer) || negb (truthy baseURL)
     || negb (truthy serverAuthToken)
  then ([Stderr ["Missing required environment variables"]; ProcessExit 1],
        None)
  else
    match parse_env env with
    | Thrown message =>
        ([Stderr ["Error parsing JSON from environment variables:"; message];
          ProcessExit 1], None)
    | Returned (endpoints, queryParams) =>
        match cron_validate (toString cronTimer) with
        | Thrown message => ([Stderr [message]; ProcessExit 1], None)
        | Returned _ =>
            match listen_check PORT with
            | Thrown message =>
                ([CronScheduled (toString cronTimer); Stderr [message];
                  ProcessExit 1], None)
            | Returned _ =>
                ([CronScheduled (toString cronTimer); ServerListening PORT],
                 Some (mkConfig PORT (toString cronTimer) (toString baseURL)
                                (toString serverAuthToken) clientAuthToken
                                endpoints queryParams))
            end
        end
    end.

End Startup.

End Server.

(** * Vocabulary of the statements *)

(** How often a character occurs in a string. *)
Fixpoint occurrences (c : ascii) (s : string) : nat :=
  match s with
  | "" => 0
  | String d rest =>
      ((if Ascii.eqb c d then 1 else 0) + occurrences c rest)%nat
  end.

(** Whether every character of a string passes a test. *)
Fixpoint all_chars (test : ascii -> bool) (s : string) : bool :=
  match s with
  | "" => true
  | String c rest => test c && all_chars test rest
  end.

(** The characters a query string may hold: those [encodeURIComponent]
    leaves alone, the escape sign, and the two delimiters. *)
Definition query_char (c : ascii) : bool :=
  uriUnescaped c || existsb (Ascii.eqb c) ["%"; "="; "&"]%char.

(** The value of a header in a header object, if it is set. *)
Fixpoint header_lookup (name : string) (headers : list (string * string))
    : option string :=
  match headers with
  | [] => None
  | (k, v) :: rest => if (k =? name) then Some v else header_lookup name rest
  end.

(** The world after [n] more samples have been drawn. *)
Definition advance (n : nat) (w : World) : World :=
  mkWorld (random w) (drawn w + n) (network w) (calls w) (console w) (clock w).

(** The world after some more outbound calls have been issued. *)
Definition with_calls (cs : list Request) (w : World) : World :=
  mkWorld (random w) (drawn w) (network w) (calls w ++ cs)%list (console w)
          (clock w).

(** The world after some more lines have been written to the console. *)
Definition with_lines (ls : list LogLine) (w : World) : World :=
  mkWorld (random w) (drawn w) (network w) (calls w) (console w ++ ls)%list
          (clock w).




(** [key=value], both percent-encoded. *)
Definition encoded_pair (k v : string) : string :=
  encodeURIComponent k ++ "=" ++ encodeURIComponent v.

Module BroadcastSpec.
Import Broadcast.

(** The parameters [buildQueryParams] lets through. *)
Definition included (param : QueryParam) : bool :=
  truthy_string (key param) && value_present (value param).

Definition pair_of (param : QueryParam) : string :=
  encoded_pair (key param) (value_toString (value param)).

(** The request [makeRequest] sends for an endpoint. *)
Definition request_for (cfg : Config) (endpoint : string) : Request :=
  mkRequest
    (buildURL (baseURL cfg) (JString endpoint)
       (buildQueryParams (Some (queryParams cfg))))
    "GET" (createRequestHeaders cfg).

(** The line [makeRequest] writes before it sends. *)
Definition announcement (cfg : Config) (endpoint : string) : LogLine :=
  ConsoleLog ["Making request to: " ++ rq_url (request_for cfg endpoint)].

(** The line [makeRequest] records the outcome of a call with. *)
Definition outcome_line (endpoint : string) (r : FetchResult) : LogLine :=
  match r with
  | Responded response =>
      ConsoleLog [response_url response ++ " - "
                    ++ Number_toString (Number_of_Z (response_status response))
                    ++ " "
                    ++ response_statusText response]
  | Rejected message =>
      ConsoleError ["Error making request to " ++ endpoint ++ ":"; message]
  end.

(** The tasks of a cycle right after [map]: task [k] awaits the call the
    transport numbers [first + k]. *)
Fixpoint issued (cfg : Config) (net : nat -> Request -> FetchResult)
    (first : nat) (endpointsToCall : list string) : list Task :=
  match endpointsToCall with
  | [] => []
  | endpoint :: rest =>
      mkTask endpoint (Awaiting (net first (request_for cfg endpoint)))
        :: issued cfg net (S first) rest
  end.

(** The outcome lines still to be written by the tasks that are waiting. *)
Definition pending_line (t : Task) : list LogLine :=
  match task_state t with
  | Awaiting r => [outcome_line (task_endpoint t) r]
  | Settled _ => []
  end.

Definition pending_lines (tasks : list Task) : list LogLine :=
  flat_map pending_line tasks.

(** The outcome line of every call of a cycle, in the order of the
    endpoints. *)
Definition outcomes (cfg : Config) (net : nat -> Request -> FetchResult)
    (first : nat) (endpointsToCall : list string) : list LogLine :=
  pending_lines (issued cfg net first endpointsToCall).

(** The lines a cycle writes before it calls the endpoints. *)
Definition opening_lines (cfg : Config) : list LogLine :=
  ConsoleLog ["Starting cron job - calling "
                ++ Number_toString
                     (Number_of_Z (Z.of_nat (List.length (endpoints cfg))))
                ++ " endpoint(s)"]
  :: (if (Z.of_nat (List.length (queryParams cfg)) >? 0)%Z
      then [ConsoleLog ["Using "
                          ++ Number_toString
                               (Number_of_Z
                                  (Z.of_nat (List.length (queryParams cfg))))
                          ++ " query parameter(s)"]]
      else []).

(** The line a cycle writes last. *)
Definition closing_line (cfg : Config) : LogLine :=
  ConsoleLog ["Cron job completed - called "
                ++ Number_toString
                     (Number_of_Z (Z.of_nat (List.length (endpoints cfg))))
                ++ " endpoint(s)"].

(** Task [i] after its call has settled, and the line written then. *)
Definition settled_task (t : Task) : Task :=
  match task_state t with
  | Awaiting _ => mkTask (task_endpoint t) (Settled Fulfilled)
  | Settled p => mkTask (task_endpoint t) (Settled p)
  end.

Fixpoint mark (i : nat) (tasks : list Task) : list Task :=
  match tasks, i with
  | [], _ => []
  | t :: rest, O => settled_task t :: rest
  | t :: rest, S j => t :: mark j rest
  end.

Definition line_at (i : nat) (tasks : list Task) : list LogLine :=
  match nth_error tasks i with
  | Some t => pending_line t
  | None => []
  end.

Fixpoint mark_all (arrivals : list nat) (tasks : list Task) : list Task :=
  match arrivals with
  | [] => tasks
  | i :: later => mark_all later (mark i tasks)
  end.

Fixpoint lines_all (arrivals : list nat) (tasks : list Task) : list LogLine :=
  match arrivals with
  | [] => []
  | i :: later => (line_at i tasks ++ lines_all later (mark i tasks))%list
  end.

Definition is_settled (t : Task) : bool :=
  match task_state t with
  | Settled _ => true
  | Awaiting _ => false
  end.

(** The promise of the task was not rejected. *)
Definition unrejected (t : Task) : Prop :=
  forall reason, task_state t <> Settled (RejectedWith reason).

End BroadcastSpec.

Module RandomSpec.

(** The value [Math.floor(Math.random() * range) + 1] for sample [r]. *)
Definition value_for (r range : Number) : Number :=
  Number_add (floor_mul r range) (Number_of_Z 1).

(** A range that is a finite double from one up. *)
Definition proper_range (range : Number) : Prop :=
  exists n : Q, range = Finite n /\ is_double n = true /\ (1 <= n)%Q.

(** A range from one up to [2^53], the bound below which every whole
    number is a double. *)
Definition safe_range (range : Number) : Prop :=
  exists n : Q,
    range = Finite n /\ is_double n = true /\ (1 <= n)%Q /\ (n <= 2 ^ 53)%Q.

(** A range below one. *)
Definition small_range (range : Number) : Prop :=
  exists n : Q,
    range = Finite n /\ is_double n = true /\ (0 <= n)%Q /\ (n < 1)%Q.

(** A value that is a whole number from one up to the range rounded up to
    the next whole number. *)
Definition value_in_range (range v : Number) : Prop :=
  exists (k : Z) (n : Q),
    v = Finite (inject_Z k) /\ range = Finite n /\ (1 <= k <= Qceiling n)%Z.

End RandomSpec.

Module ServerSpec.
Import Server.

(** The parameters [getRandomQueryParams] lets through. *)
Definition included (param : QueryParam) : bool :=
  truthy_string (key param) && truthy_number (range param).

(** The parameters let through, each with the value drawn for it when the
    samples are taken from number [k] on. *)
Fixpoint sampled (arr : list QueryParam) (rand : nat -> Number) (k : nat)
    : list (QueryParam * Number) :=
  match arr with
  | [] => []
  | param :: rest =>
      if included param
      then (param, RandomSpec.value_for (rand k) (range param))
             :: sampled rest rand (S k)
      else sampled rest rand k
  end.

Definition pair_of (pv : QueryParam * Number) : string :=
  encoded_pair (key (fst pv)) (Number_toString (snd pv)).

(** The request [executeCronJob] sends for an endpoint and a query string. *)
Definition request_for (cfg : Config) (endpoint : JSValue)
    (queryString : string) : Request :=
  mkRequest (buildURL (baseURL cfg) endpoint queryString) "GET"
            (createRequestHeaders cfg).

(** The outcome [executeCronJob] makes of a settled call. *)
Definition outcome_of (r : FetchResult) : DispatchOutcome :=
  match r with
  | Responded response =>
      mkDispatchOutcome (response_ok response) (response_url response)
                        (response_status response) JUndefined
  | Rejected message => mkDispatchOutcome false "" 0 (JString message)
  end.

(** The console lines of one run of [executeCronJob]. *)
Definition run_lines (rq : Request) (r : FetchResult) : list LogLine :=
  [ConsoleLog ["Making request to: " ++ rq_url rq];
   match r with
   | Responded response =>
       ConsoleLog [response_url response ++ " - "
                     ++ Number_toString (Number_of_Z (response_status response))
                    ++ " "
                     ++ response_statusText response]
   | Rejected message => ConsoleError ["Error making request:"; message]
   end].

(** The token a non-empty [Authorization] header presents. *)
Definition presented_token (authHeader : string) : string :=
  if startsWith "Bearer " authHeader then slice 7 authHeader else authHeader.

(** Whether [authenticateRequest] lets a request through. *)
Definition authorised (cfg : Config) (req : IncomingRequest) : bool :=
  truthy (authorization req)
  && (presented_token (toString (authorization req)) =? serverAuthToken cfg).

Definition is_trigger (r : Route) : bool :=
  match r with
  | POST_trigger => true
  | _ => false
  end.

End ServerSpec.

Module MinimalSpec.
Import Minimal.

(** Every parameter with the value drawn for it, samples taken from
    number [k] on. *)
Fixpoint sampled (arr : list QueryParam) (rand : nat -> Number) (k : nat)
    : list (QueryParam * Number) :=
  match arr with
  | [] => []
  | param :: rest =>
      (param, RandomSpec.value_for (rand k) (range param))
        :: sampled rest rand (S k)
  end.

(** [key=value&] with the key as it stands. *)
Definition raw_pair (pv : QueryParam * Number) : string :=
  key (fst pv) ++ "=" ++ Number_toString (snd pv) ++ "&".

(** A parameter of the minimal script, as the server script reads it. *)
Definition as_server (param : QueryParam) : Server.QueryParam :=
  Server.mkQueryParam (key param) (range param).

(** The request the callback sends for the endpoint read and the query
    string built. *)
Definition request_for (cfg : Config) (endpoint : JSValue) (query : string)
    : Request :=
  mkRequest
    (toString (baseURL cfg) ++ "/" ++ toString endpoint ++ "?" ++ query)
    "GET" [].

End MinimalSpec.

(** * Sample inputs *)

Module Sample.

(** The doubles [0.5], [0.9], [0], [0.75], then [0.7] for ever. *)
Definition samples (i : nat) : Number :=
  nth i [round64 (1 # 2); round64 (9 # 10); round64 0; round64 (3 # 4)]
    (round64 (7 # 10)).

(** The second call of a run fails in transit, the fourth is answered with
    a server error, every other call is answered with 200. *)
Definition transport (k : nat) (rq : Request) : FetchResult :=
  match k with
  | 1%nat => Rejected "fetch failed"
  | 3%nat => Responded (mkResponse (rq_url rq) 503 "Service Unavailable")
  | _ => Responded (mkResponse (rq_url rq) 200 "OK")
  end.

Definition world : World :=
  mkWorld samples 0 transport [] [] "2024-01-01T00:00:00.000Z".

(** A transport on which every call fails. *)
Definition offline : World :=
  mkWorld samples 0 (fun _ _ => Rejected "fetch failed") [] []
          "2024-01-01T00:00:00.000Z".

Definition env : Env :=
  mkEnv (JString "*/5 * * * *") (JString "https://h") JUndefined JUndefined
        JUndefined JUndefined JUndefined JUndefined.

(** A stand-in for node-cron's check that knows one expression only. *)
Definition cron_validate (expression : string) : Result unit :=
  if expression =? "*/5 * * * *" then Returned tt
  else Thrown (expression ++ " is not a valid cron expression").

(** A stand-in for the check of [app.listen]. *)
Definition listen_check (port : string) : Result unit :=
  if port =? "99999"
  then Thrown "options.port should be >= 0 and < 65536. Received '99999'."
  else Returned tt.

(** A stand-in for [JSON.parse] that knows the empty array only. *)
Definition parse_empty {A : Type} (text : string) : Result (list A) :=
  if text =? "[]" then Returned [] else Thrown "Unexpected token".

Definition broadcast_config : Broadcast.Config :=
  Broadcast.mkConfig "*/5 * * * *" "https://h" (JString "s3cret")
    ["a"; "b"; "c"]
    [Broadcast.mkQueryParam "x" (Broadcast.PString "5");
     Broadcast.mkQueryParam "q r" (Broadcast.PString "a&b");
     Broadcast.mkQueryParam "" (Broadcast.PNumber (Number_of_Z 1));
     Broadcast.mkQueryParam "n" Broadcast.PNull].

Definition server_config : Server.Config :=
  Server.mkConfig "3000" "*/5 * * * *" "https://h" "letmein" JUndefined
    ["a"; "b"; "c"]
    [Server.mkQueryParam "x" (Number_of_Z 10);
     Server.mkQueryParam "" (Number_of_Z 3);
     Server.mkQueryParam "page size" (Number_of_Z 4)].

(** The same server with nothing to call. *)
Definition idle_server_config : Server.Config :=
  Server.mkConfig "3000" "*/5 * * * *" "https://h" "letmein" JUndefined [] [].

End Sample.

(** * Facts about the built-ins *)

(** ** Rounding to binary64 *)

Section Binary64Facts.

Lemma two_pos (k : Z) : (0 < 2 ^ k)%Q.
Proof. apply Qpower_0_lt. reflexivity. Qed.

Lemma two_plus (a b : Z) : (2 ^ (a + b) == 2 ^ a * 2 ^ b)%Q.
Proof. apply Qpower_plus. discriminate. Qed.

Lemma two_succ (a : Z) : (2 ^ (a + 1) == 2 * 2 ^ a)%Q.
Proof. rewrite two_plus. change (2 ^ 1)%Q with 2%Q. ring. Qed.

Lemma two_le (a b : Z) : a <= b -> (2 ^ a <= 2 ^ b)%Q.
Proof. intros. apply Qpower_le_compat_l; [assumption | discriminate]. Qed.

Lemma two_lt (a b : Z) : a < b -> (2 ^ a < 2 ^ b)%Q.
Proof. intros. apply Qpower_lt_compat_l; [assumption | reflexivity]. Qed.

Lemma two_inject (n : Z) : 0 <= n -> (inject_Z (2 ^ n) == 2 ^ n)%Q.
Proof. intros. apply (Zpower_Qpower 2 n). assumption. Qed.

Lemma Qlog2_spec (a : Q) :
  (0 < a)%Q -> (2 ^ Qlog2 a <= a)%Q /\ (a < 2 ^ (Qlog2 a + 1))%Q.
Proof.
  intros Ha. unfold Qlog2.
  destruct a as [n d]. cbn [Qnum Qden].
  assert (Hn : 0 < n) by (unfold Qlt in Ha; cbn in Ha; lia).
  destruct (Z.log2_spec n Hn) as [Hn1 Hn2].
  destruct (Z.log2_spec (Zpos d) (Pos2Z.is_pos d)) as [Hd1 Hd2].
  pose proof (Z.log2_nonneg n) as Ln. pose proof (Z.log2_nonneg (Zpos d)) as Ld.
  set (ln := Z.log2 n) in *. set (ld := Z.log2 (Zpos d)) in *.
  assert (E : (n # d == inject_Z n / inject_Z (Zpos d))%Q) by apply Qmake_Qdiv.
  assert (Q1 : (2 ^ ln <= inject_Z n)%Q).
  { rewrite <- two_inject by lia. rewrite <- Zle_Qle. exact Hn1. }
  assert (Q2 : (inject_Z n < 2 ^ (ln + 1))%Q).
  { rewrite <- two_inject by lia. rewrite <- Zlt_Qlt.
    replace (ln + 1) with (Z.succ ln) by lia. exact Hn2. }
  assert (Q3 : (2 ^ ld <= inject_Z (Zpos d))%Q).
  { rewrite <- two_inject by lia. rewrite <- Zle_Qle. exact Hd1. }
  assert (Q4 : (inject_Z (Zpos d) < 2 ^ (ld + 1))%Q).
  { rewrite <- two_inject by lia. rewrite <- Zlt_Qlt.
    replace (ld + 1) with (Z.succ ld) by lia. exact Hd2. }
  assert (Dp : (0 < inject_Z (Zpos d))%Q)
    by (rewrite Zlt_Qlt in *; reflexivity).
  assert (M : ((n # d) * inject_Z (Zpos d) == inject_Z n)%Q).
  { rewrite E. field. intro Z0. rewrite Z0 in Dp. discriminate. }
  pose proof (two_pos ld) as Pld. pose proof (two_pos ln) as Pln.
  pose proof (two_pos (ln - ld)) as Pk.
  assert (K : (2 ^ ln == 2 ^ (ln - ld) * 2 ^ ld)%Q).
  { rewrite <- two_plus. replace (ln - ld + ld) with ln by lia. reflexivity. }
  rewrite two_succ in Q2, Q4.
  set (A := (n # d)%Q) in *. set (D := inject_Z (Zpos d)) in *.
  set (N := inject_Z n) in *.
  set (PK := (2 ^ (ln - ld))%Q) in *. set (PD := (2 ^ ld)%Q) in *.
  set (PN := (2 ^ ln)%Q) in *.
  assert (Up : (A < 2 * PK)%Q) by nra.
  assert (Lo : (PK < 2 * A)%Q) by nra.
  destruct (Qle_bool PK A) eqn:B.
  - apply Qle_bool_iff in B. split; [exact B|]. rewrite two_succ. exact Up.
  - assert (B' : (A < PK)%Q).
    { apply Qnot_le_lt. intro C. apply Qle_bool_iff in C. congruence. }
    replace (ln - ld - 1 + 1) with (ln - ld) by lia. split; [|exact B'].
    assert (E2 : (PK == 2 * 2 ^ (ln - ld - 1))%Q).
    { unfold PK. rewrite <- two_succ.
      replace (ln - ld - 1 + 1) with (ln - ld) by lia. reflexivity. }
    lra.
Qed.

Lemma Qlog2_le (a b : Q) : (0 < a)%Q -> (a <= b)%Q -> Qlog2 a <= Qlog2 b.
Proof.
  intros Ha Hab.
  destruct (Qlog2_spec a Ha) as [A1 _].
  destruct (Qlog2_spec b) as [_ B2]; [lra|].
  assert (L : (2 ^ Qlog2 a < 2 ^ (Qlog2 b + 1))%Q) by lra.
  apply Qpower_lt_compat_l_inv in L; [lia | reflexivity].
Qed.

Lemma ulp_exponent_le (a b : Q) :
  (0 < a)%Q -> (a <= b)%Q -> ulp_exponent a <= ulp_exponent b.
Proof.
  intros Ha Hab. unfold ulp_exponent.
  pose proof (Qlog2_le a b Ha Hab). lia.
Qed.

Lemma Qred_inject_Z (k : Z) : Qred (inject_Z k) = inject_Z k.
Proof.
  unfold Qred, inject_Z.
  pose proof (Z.ggcd_gcd k 1) as G.
  pose proof (Z.ggcd_correct_divisors k 1) as D.
  destruct (Z.ggcd k 1) as [g [a b]]. cbn [fst snd] in *.
  rewrite Z.gcd_1_r in G. subst g. destruct D as [D1 D2].
  assert (Ha : a = k) by lia. assert (Hb : b = 1) by lia.
  clear D1 D2. subst a b. reflexivity.
Qed.

Lemma round_half_even_range (s : Q) :
  (inject_Z (round_half_even s) - (1 # 2) <= s)%Q
  /\ (s <= inject_Z (round_half_even s) + (1 # 2))%Q.
Proof.
  unfold round_half_even.
  pose proof (Qfloor_le s) as F1. pose proof (Qlt_floor s) as F2.
  rewrite inject_Z_plus in F2. change (inject_Z 1) with 1%Q in F2.
  destruct (Qcompare_spec (s - inject_Z (Qfloor s)) (1 # 2)) as [E | L | G].
  - destruct (Z.even (Qfloor s));
      [|rewrite inject_Z_plus; change (inject_Z 1) with 1%Q]; split; lra.
  - split; lra.
  - rewrite inject_Z_plus. change (inject_Z 1) with 1%Q. split; lra.
Qed.

Lemma round_half_even_le (s : Q) (k : Z) :
  (s <= inject_Z k)%Q -> round_half_even s <= k.
Proof.
  intros H. unfold round_half_even.
  pose proof (Qfloor_le s) as F1.
  assert (Qfloor s <= k).
  { rewrite Zle_Qle. lra. }
  assert (C : (inject_Z (Qfloor s) < s)%Q -> Qfloor s + 1 <= k).
  { intros L. assert (Qfloor s < k); [|lia]. rewrite Zlt_Qlt. lra. }
  destruct (Qcompare_spec (s - inject_Z (Qfloor s)) (1 # 2)) as [E | L | G].
  - destruct (Z.even (Qfloor s)); [assumption | apply C; lra].
  - assumption.
  - apply C; lra.
Qed.

Lemma round_half_even_ge (s : Q) (k : Z) :
  (inject_Z k <= s)%Q -> k <= round_half_even s.
Proof.
  intros H. unfold round_half_even.
  pose proof (Qlt_floor s) as F2.
  assert (k <= Qfloor s).
  { assert (k < Qfloor s + 1); [|lia]. rewrite Zlt_Qlt. lra. }
  destruct (Qcompare_spec (s - inject_Z (Qfloor s)) (1 # 2)) as [E | L | G];
    [destruct (Z.even (Qfloor s))| |]; lia.
Qed.

Lemma round_half_even_Z (k : Z) : round_half_even (inject_Z k) = k.
Proof.
  apply Z.le_antisymm.
  - apply round_half_even_le. apply Qle_refl.
  - apply round_half_even_ge. apply Qle_refl.
Qed.

Lemma round_half_even_comp (s t : Q) :
  (s == t)%Q -> round_half_even s = round_half_even t.
Proof.
  intros E. unfold round_half_even. rewrite (Qfloor_comp s t E).
  assert (C : ((s - inject_Z (Qfloor t) ?= 1 # 2)
               = (t - inject_Z (Qfloor t) ?= 1 # 2))%Q).
  { rewrite E. reflexivity. }
  rewrite C. reflexivity.
Qed.

(** Scaling by a power of two and back. *)
Lemma scale_back (a : Q) (e : Z) : (a / 2 ^ e * 2 ^ e == a)%Q.
Proof.
  field. pose proof (two_pos e) as P. intro Z0. rewrite Z0 in P.
  discriminate.
Qed.

Lemma scale_le (a b : Q) (e : Z) : (a <= b * 2 ^ e)%Q -> (a / 2 ^ e <= b)%Q.
Proof.
  intros H. pose proof (two_pos e) as P. pose proof (scale_back a e) as S.
  set (x := (a / 2 ^ e)%Q) in *. set (p := (2 ^ e)%Q) in *. 
  apply Qnot_lt_le. intro C. nra.
Qed.

Lemma scale_ge (a b : Q) (e : Z) : (b * 2 ^ e <= a)%Q -> (b <= a / 2 ^ e)%Q.
Proof.
  intros H. pose proof (two_pos e) as P. pose proof (scale_back a e) as S.
  set (x := (a / 2 ^ e)%Q) in *. set (p := (2 ^ e)%Q) in *. 
  apply Qnot_lt_le. intro C. nra.
Qed.

Lemma round_positive_finite (a : Q) :
  (rounded a < 2 ^ 1024)%Q -> round_positive a = Finite (Qred (rounded a)).
Proof.
  intros H. unfold round_positive.
  destruct (Qle_bool (2 ^ 1024) (rounded a)) eqn:B; [|reflexivity].
  apply Qle_bool_iff in B. lra.
Qed.

Lemma round_positive_cases (a : Q) :
  round_positive a = Infinity false /\ (2 ^ 1024 <= rounded a)%Q
  \/ round_positive a = Finite (Qred (rounded a)) /\ (rounded a < 2 ^ 1024)%Q.
Proof.
  unfold round_positive.
  destruct (Qle_bool (2 ^ 1024) (rounded a)) eqn:B.
  - left. split; [reflexivity|]. apply Qle_bool_iff. exact B.
  - right. split; [reflexivity|]. apply Qnot_le_lt. intro C.
    apply Qle_bool_iff in C. congruence.
Qed.

Lemma rounded_near (a : Q) :
  (rounded a - 2 ^ (ulp_exponent a - 1) <= a)%Q
  /\ (a <= rounded a + 2 ^ (ulp_exponent a - 1))%Q.
Proof.
  unfold rounded, significand.
  pose proof (round_half_even_range (a / 2 ^ ulp_exponent a)) as [R1 R2].
  pose proof (scale_back a (ulp_exponent a)) as S.
  pose proof (two_pos (ulp_exponent a)) as P.
  assert (H : (2 ^ ulp_exponent a == 2 * 2 ^ (ulp_exponent a - 1))%Q).
  { rewrite <- two_succ.
    replace (ulp_exponent a - 1 + 1) with (ulp_exponent a) by lia.
    reflexivity. }
  set (m := inject_Z (round_half_even (a / 2 ^ ulp_exponent a))) in *.
  set (x := (a / 2 ^ ulp_exponent a)%Q) in *.
  set (p := (2 ^ ulp_exponent a)%Q) in *.
  set (h := (2 ^ (ulp_exponent a - 1))%Q) in *.
  split; nra.
Qed.

Lemma rounded_nonneg (a : Q) : (0 <= a)%Q -> (0 <= rounded a)%Q.
Proof.
  intros H. unfold rounded, significand.
  pose proof (two_pos (ulp_exponent a)) as P.
  assert (0 <= round_half_even (a / 2 ^ ulp_exponent a)).
  { apply round_half_even_ge. apply scale_ge.
    change (inject_Z 0) with 0%Q. lra. }
  rewrite Zle_Qle in H0. change (inject_Z 0) with 0%Q in H0.
  set (m := inject_Z (round_half_even (a / 2 ^ ulp_exponent a))) in *.
  set (p := (2 ^ ulp_exponent a)%Q) in *. nra.
Qed.

(** Rounding never steps over a multiple of the unit in the last place. *)
Lemma rounded_le_multiple (a : Q) (k : Z) :
  (a <= inject_Z k * 2 ^ ulp_exponent a)%Q ->
  (rounded a <= inject_Z k * 2 ^ ulp_exponent a)%Q.
Proof.
  intros H. unfold rounded, significand.
  pose proof (round_half_even_le _ _ (scale_le _ _ _ H)) as L.
  rewrite Zle_Qle in L. pose proof (two_pos (ulp_exponent a)) as P.
  apply Qmult_le_compat_r; [exact L | lra].
Qed.

Lemma rounded_ge_multiple (a : Q) (k : Z) :
  (inject_Z k * 2 ^ ulp_exponent a <= a)%Q ->
  (inject_Z k * 2 ^ ulp_exponent a <= rounded a)%Q.
Proof.
  intros H. unfold rounded, significand.
  pose proof (round_half_even_ge _ _ (scale_ge _ _ _ H)) as L.
  rewrite Zle_Qle in L. pose proof (two_pos (ulp_exponent a)) as P.
  apply Qmult_le_compat_r; [exact L | lra].
Qed.

Lemma rounded_exact (a : Q) (k : Z) :
  (a == inject_Z k * 2 ^ ulp_exponent a)%Q -> (rounded a == a)%Q.
Proof.
  intros H. apply Qle_antisym.
  - rewrite H at 2. apply rounded_le_multiple. rewrite <- H. apply Qle_refl.
  - rewrite H at 1. apply rounded_ge_multiple. rewrite <- H. apply Qle_refl.
Qed.

Lemma round64_positive (a : Q) : (0 < a)%Q -> round64 a = round_positive a.
Proof.
  intros H. unfold round64. apply Qgt_alt in H. rewrite H. reflexivity.
Qed.

Lemma is_double_rounded (d : Q) :
  (0 < d)%Q -> is_double d = true -> (rounded d == d)%Q /\ (d < 2 ^ 1024)%Q.
Proof.
  intros P H. unfold is_double in H. rewrite round64_positive in H by exact P.
  destruct (round_positive_cases d) as [[E _] | [E L]]; rewrite E in H.
  - discriminate.
  - apply Qeq_bool_eq in H. rewrite Qred_correct in H. split; [exact H|].
    rewrite <- H. exact L.
Qed.

Lemma rounded_is_double (d : Q) :
  (0 < d)%Q -> (rounded d == d)%Q -> (d < 2 ^ 1024)%Q -> is_double d = true.
Proof.
  intros P E L. unfold is_double. rewrite round64_positive by exact P.
  rewrite round_positive_finite by (rewrite E; exact L).
  apply Qeq_eq_bool. rewrite Qred_correct. exact E.
Qed.

Lemma two_split (a b : Z) : (2 ^ a == 2 ^ (a - b) * 2 ^ b)%Q.
Proof. rewrite <- two_plus. replace (a - b + b) with a by lia. reflexivity. Qed.

(** Rounding does not step over a double: upwards ... *)
Lemma rounded_le_double (a d : Q) :
  (0 < a)%Q -> (a <= d)%Q -> is_double d = true -> (rounded a <= d)%Q.
Proof.
  intros Pa Le D.
  destruct (is_double_rounded d) as [E _]; [lra | exact D |].
  pose proof (ulp_exponent_le a d Pa Le) as Ee.
  assert (M : (d == inject_Z (significand d * 2 ^ (ulp_exponent d - ulp_exponent a))
                 * 2 ^ ulp_exponent a)%Q).
  { rewrite <- E at 1. unfold rounded. rewrite inject_Z_mult.
    rewrite two_inject by lia.
    rewrite (two_split (ulp_exponent d) (ulp_exponent a)). ring. }
  rewrite M. apply rounded_le_multiple. rewrite <- M. exact Le.
Qed.

Lemma ulp_exponent_normal (a : Q) :
  (0 < a)%Q -> -1074 < ulp_exponent a -> (2 ^ (ulp_exponent a + 52) <= a)%Q.
Proof.
  intros P H. unfold ulp_exponent in *.
  destruct (Qlog2_spec a P) as [L _].
  replace (Z.max (Qlog2 a - 52) (-1074) + 52) with (Qlog2 a) by lia. exact L.
Qed.

Lemma ulp_exponent_above (a : Q) :
  (0 < a)%Q -> (a < 2 ^ (ulp_exponent a + 53))%Q.
Proof.
  intros P. destruct (Qlog2_spec a P) as [_ U].
  apply Qlt_le_trans with (1 := U). apply two_le. unfold ulp_exponent. lia.
Qed.

(** ... and downwards. *)
Lemma rounded_ge_double (a d : Q) :
  (0 < d)%Q -> (d <= a)%Q -> is_double d = true -> (d <= rounded a)%Q.
Proof.
  intros Pd Le D.
  destruct (is_double_rounded d Pd D) as [E _].
  assert (Pa : (0 < a)%Q) by lra.
  pose proof (ulp_exponent_le d a Pd Le) as Ee.
  destruct (Z.eq_dec (ulp_exponent d) (ulp_exponent a)) as [Eq | Ne].
  - rewrite <- E at 1. unfold rounded at 1. rewrite Eq.
    apply rounded_ge_multiple. rewrite <- Eq. fold (rounded d). rewrite E.
    exact Le.
  - assert (N : -1074 < ulp_exponent a) by (unfold ulp_exponent in *; lia).
    pose proof (ulp_exponent_normal a Pa N) as Lo.
    pose proof (ulp_exponent_above d Pd) as Up.
    assert (S : (2 ^ (ulp_exponent d + 53) <= 2 ^ (ulp_exponent a + 52))%Q)
      by (apply two_le; lia).
    assert (M : (2 ^ (ulp_exponent a + 52)
                 == inject_Z (2 ^ 52) * 2 ^ ulp_exponent a)%Q).
    { rewrite two_inject by lia. rewrite two_plus. ring. }
    assert (R : (inject_Z (2 ^ 52) * 2 ^ ulp_exponent a <= rounded a)%Q).
    { apply rounded_ge_multiple. rewrite <- M. exact Lo. }
    lra.
Qed.

(** A double below one is at most [1 - 2^-53]. *)
Lemma double_below_one (r : Q) :
  (0 < r)%Q -> (r < 1)%Q -> is_double r = true -> (r <= 1 - 2 ^ (-53))%Q.
Proof.
  intros P L D. destruct (is_double_rounded r P D) as [E _].
  destruct (Qlog2_spec r P) as [Lo Up].
  assert (Lg : Qlog2 r < 0).
  { assert (C : (2 ^ Qlog2 r < 2 ^ 0)%Q) by (change (2 ^ 0)%Q with 1%Q; lra).
    apply Qpower_lt_compat_l_inv in C; [exact C | reflexivity]. }
  assert (Ee : ulp_exponent r <= -53) by (unfold ulp_exponent; lia).
  destruct (Z.eq_dec (ulp_exponent r) (-53)) as [Eq | Ne].
  - unfold rounded in E. rewrite Eq in E.
    assert (Hm : significand r < 2 ^ 53).
    { rewrite Zlt_Qlt. rewrite (two_inject 53) by lia.
      assert (T : (2 ^ 53 * 2 ^ (-53) == 1)%Q) by reflexivity.
      set (m := inject_Z (significand r)) in *. 
      assert (X : (0 < 2 ^ (-53))%Q) by apply two_pos. nra. }
    assert (Hm' : significand r <= 2 ^ 53 - 1) by lia.
    rewrite Zle_Qle in Hm'.
    assert (T : (inject_Z (2 ^ 53 - 1) * 2 ^ (-53) == 1 - 2 ^ (-53))%Q)
      by reflexivity.
    rewrite <- T, <- E. apply Qmult_le_compat_r; [exact Hm' | discriminate].
  - pose proof (ulp_exponent_above r P) as A.
    assert (S : (2 ^ (ulp_exponent r + 53) <= 2 ^ (-1))%Q)
      by (apply two_le; lia).
    assert (T : (2 ^ (-1) <= 1 - 2 ^ (-53))%Q) by discriminate.
    lra.
Qed.

(** The product of a double below one and a number from one up rounds
    below that number. *)
Lemma rounded_product_below (r n : Q) :
  (0 < r)%Q -> (r <= 1 - 2 ^ (-53))%Q -> (1 <= n)%Q ->
  (rounded (r * n) < n)%Q.
Proof.
  intros Pr Lr Ln.
  set (y := (r * n)%Q).
  assert (Py : (0 < y)%Q) by (unfold y; nra).
  assert (Yn : (y <= n - n * 2 ^ (-53))%Q).
  { unfold y. assert (X : (0 < 2 ^ (-53))%Q) by reflexivity.
    set (u := (2 ^ (-53))%Q) in *. nra. }
  destruct (rounded_near y) as [_ Near'].
  destruct (rounded_near y) as [Near _].
  assert (H : (2 ^ (ulp_exponent y + 52) < n)%Q).
  { assert (X : (0 < n * 2 ^ (-53))%Q).
    { assert (X : (0 < 2 ^ (-53))%Q) by reflexivity.
      set (u := (2 ^ (-53))%Q) in *. nra. }
    destruct (Z.eq_dec (ulp_exponent y) (-1074)) as [Eq | Ne].
    - rewrite Eq. apply Qlt_le_trans with (2 := Ln). reflexivity.
    - apply Qle_lt_trans with y; [|lra].
      apply ulp_exponent_normal; [exact Py|]. unfold ulp_exponent in *. lia. }
  assert (K : (2 ^ (ulp_exponent y - 1)
               == 2 ^ (ulp_exponent y + 52) * 2 ^ (-53))%Q).
  { rewrite <- two_plus.
    replace (ulp_exponent y + 52 + -53) with (ulp_exponent y - 1) by lia.
    reflexivity. }
  assert (X : (0 < 2 ^ (-53))%Q) by reflexivity.
  set (u := (2 ^ (-53))%Q) in *. set (h := (2 ^ (ulp_exponent y - 1))%Q) in *.
  set (p := (2 ^ (ulp_exponent y + 52))%Q) in *. set (v := rounded y) in *.
  nra.
Qed.

Lemma inject_pos (z : Z) : 0 < z -> (0 < inject_Z z)%Q.
Proof.
  intros H. change (inject_Z 0 < inject_Z z)%Q. rewrite <- Zlt_Qlt. exact H.
Qed.

Lemma inject_nonneg (z : Z) : 0 <= z -> (0 <= inject_Z z)%Q.
Proof.
  intros H. change (inject_Z 0 <= inject_Z z)%Q. rewrite <- Zle_Qle. exact H.
Qed.

(** Rounding depends on the value only, not on the fraction that holds it. *)
Lemma Qlog2_comp (a b : Q) : (0 < a)%Q -> (a == b)%Q -> Qlog2 a = Qlog2 b.
Proof.
  intros P E. apply Z.le_antisymm; apply Qlog2_le; lra.
Qed.

Lemma rounded_comp (a b : Q) :
  (0 < a)%Q -> (a == b)%Q -> (rounded a == rounded b)%Q.
Proof.
  intros P E. unfold rounded, significand, ulp_exponent.
  rewrite (Qlog2_comp a b P E).
  rewrite (round_half_even_comp (a / 2 ^ Z.max (Qlog2 b - 52) (-1074))
             (b / 2 ^ Z.max (Qlog2 b - 52) (-1074))); [reflexivity|].
  rewrite E. reflexivity.
Qed.

Lemma round_positive_comp (a b : Q) :
  (0 < a)%Q -> (a == b)%Q -> round_positive a = round_positive b.
Proof.
  intros P E. pose proof (rounded_comp a b P E) as R.
  destruct (round_positive_cases a) as [[Ea La] | [Ea La]];
    destruct (round_positive_cases b) as [[Eb Lb] | [Eb Lb]]; rewrite Ea, Eb.
  - reflexivity.
  - lra.
  - lra.
  - rewrite (Qred_complete _ _ R). reflexivity.
Qed.

Lemma round64_comp (a b : Q) : (a == b)%Q -> round64 a = round64 b.
Proof.
  intros E. unfold round64.
  assert (C : ((a ?= 0) = (b ?= 0))%Q) by (rewrite E; reflexivity).
  rewrite <- C. destruct (Qcompare_spec a 0) as [Z0 | Neg | Pos].
  - reflexivity.
  - rewrite (round_positive_comp (- a) (- b));
      [reflexivity | lra | rewrite E; reflexivity].
  - apply round_positive_comp; assumption.
Qed.

(** Integers up to [2^53] are doubles; beyond, a rounded integer is still an
    integer. *)
Lemma rounded_small_integer (z : Z) :
  0 < z <= 2 ^ 53 -> (rounded (inject_Z z) == inject_Z z)%Q.
Proof.
  intros [P U].
  assert (Pq : (0 < inject_Z z)%Q) by (apply inject_pos; exact P).
  destruct (Qlog2_spec (inject_Z z) Pq) as [Lo _].
  assert (Lg : Qlog2 (inject_Z z) <= 53).
  { assert (C : (2 ^ Qlog2 (inject_Z z) <= 2 ^ 53)%Q).
    { apply Qle_trans with (1 := Lo). rewrite <- (two_inject 53) by lia.
      rewrite <- Zle_Qle. exact U. }
    apply Qpower_le_compat_l_inv in C; [exact C | reflexivity]. }
  destruct (Z_le_gt_dec (ulp_exponent (inject_Z z)) 0) as [Le | Gt].
  - apply rounded_exact with (k := z * 2 ^ (- ulp_exponent (inject_Z z))).
    rewrite inject_Z_mult, two_inject by lia.
    rewrite <- Qmult_assoc, <- two_plus.
    replace (- ulp_exponent (inject_Z z) + ulp_exponent (inject_Z z)) with 0
      by lia.
    change (2 ^ 0)%Q with 1%Q. ring.
  - assert (E1 : ulp_exponent (inject_Z z) = 1)
      by (unfold ulp_exponent in *; lia).
    assert (L53 : Qlog2 (inject_Z z) = 53) by (unfold ulp_exponent in *; lia).
    rewrite L53 in Lo. rewrite <- (two_inject 53) in Lo by lia.
    rewrite <- Zle_Qle in Lo. assert (Ez : z = 2 ^ 53) by lia.
    apply rounded_exact with (k := 2 ^ 52). rewrite E1, Ez. reflexivity.
Qed.

Lemma rounded_integer (z : Z) :
  0 < z -> exists k : Z, (rounded (inject_Z z) == inject_Z k)%Q.
Proof.
  intros P.
  destruct (Z_le_gt_dec (ulp_exponent (inject_Z z)) 0) as [Le | Gt].
  - exists z.
    apply rounded_exact with (k := z * 2 ^ (- ulp_exponent (inject_Z z))).
    rewrite inject_Z_mult, two_inject by lia.
    rewrite <- Qmult_assoc, <- two_plus.
    replace (- ulp_exponent (inject_Z z) + ulp_exponent (inject_Z z)) with 0
      by lia.
    change (2 ^ 0)%Q with 1%Q. ring.
  - exists (significand (inject_Z z) * 2 ^ ulp_exponent (inject_Z z)).
    unfold rounded. rewrite inject_Z_mult, two_inject by lia. reflexivity.
Qed.

Lemma Number_of_Z_exact (z : Z) :
  0 <= z <= 2 ^ 53 -> Number_of_Z z = Finite (inject_Z z).
Proof.
  intros [P U]. unfold Number_of_Z.
  destruct (Z.eq_dec z 0) as [-> | Nz]; [reflexivity|].
  assert (Pq : (0 < inject_Z z)%Q) by (apply inject_pos; lia).
  rewrite round64_positive by exact Pq.
  pose proof (rounded_small_integer z ltac:(lia)) as E.
  rewrite round_positive_finite.
  - rewrite (Qred_complete _ _ E). rewrite Qred_inject_Z. reflexivity.
  - rewrite E. apply Qle_lt_trans with (inject_Z (2 ^ 53)).
    + rewrite <- Zle_Qle. exact U.
    + reflexivity.
Qed.

(** A double from [2^53] up is an integer. *)
Lemma large_double_integer (d : Q) :
  (2 ^ 53 <= d)%Q -> is_double d = true -> exists n : Z, (d == inject_Z n)%Q.
Proof.
  intros L D.
  assert (P : (0 < d)%Q) by (apply Qlt_le_trans with (2 := L); reflexivity).
  destruct (is_double_rounded d P D) as [E _].
  assert (Lg : 53 <= Qlog2 d).
  { destruct (Qlog2_spec d P) as [_ Up].
    assert (C : (2 ^ 53 < 2 ^ (Qlog2 d + 1))%Q) by lra.
    apply Qpower_lt_compat_l_inv in C; [lia | reflexivity]. }
  exists (significand d * 2 ^ ulp_exponent d).
  rewrite <- E at 1. unfold rounded.
  rewrite inject_Z_mult, two_inject; [reflexivity|].
  unfold ulp_exponent. lia.
Qed.

Lemma one_is_double : is_double 1 = true.
Proof. reflexivity. Qed.

(** [Math.floor(r * n)] for a sample [r] and a finite [n] from one up. *)
Lemma floor_mul_in_range (r n : Q) :
  unit_double (Finite r) = true -> (1 <= n)%Q -> (n < 2 ^ 1024)%Q ->
  exists i : Z,
    floor_mul (Finite r) (Finite n) = Finite (inject_Z i)
    /\ 0 <= i /\ (inject_Z i < n)%Q.
Proof.
  intros U Ln Fin. cbn [unit_double] in U.
  apply andb_true_iff in U. destruct U as [U D].
  apply andb_true_iff in U. destruct U as [U0 U1].
  apply Qle_bool_iff in U0. apply negb_true_iff in U1.
  assert (R1 : (r < 1)%Q).
  { apply Qnot_le_lt. intro C. apply Qle_bool_iff in C. congruence. }
  unfold floor_mul, Number_mul, Math_floor.
  destruct (Qcompare_spec r 0) as [Z0 | Neg | Pos].
  - exists 0. unfold round64.
    assert (E : (r * n == 0)%Q) by (rewrite Z0; ring).
    apply Qeq_alt in E. rewrite E. split; [reflexivity|]. split; [lia|].
    change (inject_Z 0) with 0%Q. lra.
  - lra.
  - pose proof (double_below_one r Pos R1 D) as Lr.
    pose proof (rounded_product_below r n Pos Lr Ln) as B.
    assert (Py : (0 < r * n)%Q) by nra.
    rewrite round64_positive by exact Py.
    rewrite round_positive_finite by lra.
    exists (Qfloor (Qred (rounded (r * n)))). split; [reflexivity|].
    pose proof (rounded_nonneg (r * n) ltac:(lra)) as Nn.
    split.
    + change 0 with (Qfloor 0). apply Qfloor_resp_le. rewrite Qred_correct.
      exact Nn.
    + apply Qle_lt_trans with (2 := B).
      rewrite <- (Qred_correct (rounded (r * n))) at 2.
      apply Qfloor_le.
Qed.

(** Adding one to an integer below a double. *)
Lemma add_one_in_range (x : Z) (n : Q) :
  0 <= x -> (inject_Z x < n)%Q -> is_double n = true ->
  exists k : Z,
    Number_add (Finite (inject_Z x)) (Finite 1) = Finite (inject_Z k)
    /\ 1 <= k <= Qceiling n.
Proof.
  intros Px Lt D. cbn [Number_add].
  assert (Ey : (inject_Z x + 1 == inject_Z (x + 1))%Q)
    by (rewrite inject_Z_plus; reflexivity).
  assert (Py : (0 < inject_Z (x + 1))%Q) by (apply inject_pos; lia).
  assert (Pn : (0 < n)%Q).
  { apply Qle_lt_trans with (2 := Lt). apply inject_nonneg. exact Px. }
  destruct (is_double_rounded n Pn D) as [_ Fin].
  rewrite (round64_comp _ _ Ey). rewrite round64_positive by exact Py.
  assert (Lo : (1 <= rounded (inject_Z (x + 1)))%Q).
  { apply rounded_ge_double; [reflexivity | | exact one_is_double].
    change 1%Q with (inject_Z 1). rewrite <- Zle_Qle. lia. }
  destruct (rounded_integer (x + 1) ltac:(lia)) as [k Ek].
  assert (K1 : 1 <= k).
  { rewrite Zle_Qle. rewrite <- Ek. exact Lo. }
  assert (Xc : x + 1 <= Qceiling n).
  { assert (x < Qceiling n); [|lia]. rewrite Zlt_Qlt.
    apply Qlt_le_trans with (1 := Lt). apply Qle_ceiling. }
  destruct (Z_le_gt_dec (x + 1) (2 ^ 53)) as [Small | Large].
  - pose proof (rounded_small_integer (x + 1) ltac:(lia)) as E.
    exists (x + 1). split; [|lia].
    rewrite round_positive_finite.
    + rewrite (Qred_complete _ _ E), Qred_inject_Z. reflexivity.
    + rewrite E. apply Qle_lt_trans with (inject_Z (2 ^ 53)); [|reflexivity].
      rewrite <- Zle_Qle. exact Small.
  - assert (Ln : (2 ^ 53 <= n)%Q).
    { apply Qlt_le_weak. apply Qle_lt_trans with (2 := Lt).
      rewrite <- (two_inject 53) by lia. rewrite <- Zle_Qle. lia. }
    destruct (large_double_integer n Ln D) as [m Em].
    assert (Xm : x + 1 <= m).
    { assert (x < m); [|lia]. rewrite Zlt_Qlt, <- Em. exact Lt. }
    assert (Up : (rounded (inject_Z (x + 1)) <= n)%Q).
    { apply rounded_le_double; [exact Py | | exact D].
      rewrite Em, <- Zle_Qle. exact Xm. }
    exists k. split.
    + rewrite round_positive_finite by lra.
      rewrite (Qred_complete _ _ Ek), Qred_inject_Z. reflexivity.
    + split; [exact K1|]. rewrite (Qceiling_comp _ _ Em), Qceiling_Z.
      rewrite Zle_Qle, <- Ek, <- Em. exact Up.
Qed.

(** The double nearest to seven tenths lies below seven tenths, yet its
    product with ten rounds to seven. *)
Example seven_tenths_of_ten :
  round64 (7 # 10) = Finite (3152519739159347 # 4503599627370496)
  /\ ((3152519739159347 # 4503599627370496) * 10 < 7)%Q
  /\ Number_mul (round64 (7 # 10)) (Number_of_Z 10) = Finite 7
  /\ floor_mul (round64 (7 # 10)) (Number_of_Z 10) = Finite 7.
Proof. repeat split; vm_compute; reflexivity. Qed.

(** Overflow, underflow and the ties of rounding. *)
Example round64_edges :
  round64 (2 ^ 1024) = Infinity false
  /\ round64 (2 ^ 1024 - 2 ^ 970) = Infinity false
  /\ round64 (2 ^ 1024 - 2 ^ 970 - 1) = Finite (Qred (2 ^ 1024 - 2 ^ 971))
  /\ round64 (2 ^ (-1075)) = Finite 0
  /\ round64 (3 * 2 ^ (-1075)) = Finite (Qred (2 ^ (-1073)))
  /\ Number_of_Z (2 ^ 53 + 1) = Finite (inject_Z (2 ^ 53))
  /\ Number_of_Z (2 ^ 53 + 3) = Finite (inject_Z (2 ^ 53 + 4))
  /\ Number_mul (Infinity false) (Finite 0) = NaN.
Proof. repeat split; vm_compute; reflexivity. Qed.

(** What [String] makes of some numbers. *)
Example Number_toString_examples :
  map Number_toString
    [Number_of_Z 0; Number_of_Z 1; Number_of_Z 1000; Number_of_Z (-42);
     round64 (1 # 2); round64 (1 # 10); round64 (1 # 3); round64 (5 # 2);
     round64 (123456 # 1000); round64 (1 # 1000000); round64 (1 # 10000000);
     Number_of_Z (2 ^ 53 + 1); Number_of_Z (2 ^ 64);
     Number_of_Z (10 ^ 21 - 1); Number_of_Z (5 * 10 ^ 21);
     round64 (2 ^ (-1074)); round64 (2 ^ 1024 - 2 ^ 971);
     NaN; Infinity false; Infinity true]
  = ["0"; "1"; "1000"; "-42";
     "0.5"; "0.1"; "0.3333333333333333"; "2.5";
     "123.456"; "0.000001"; "1e-7";
     "9007199254740992"; "18446744073709552000";
     "1e+21"; "5e+21";
     "5e-324"; "1.7976931348623157e+308";
     "NaN"; "Infinity"; "-Infinity"].
Proof. vm_compute. reflexivity. Qed.

End Binary64Facts.

(** ** Strings *)

Section StringFacts.

Lemma append_nil_r (s : string) : s ++ "" = s.
Proof. induction s as [|c s IH]; simpl; [reflexivity | now rewrite IH]. Qed.

Lemma append_assoc (s t u : string) : (s ++ t) ++ u = s ++ t ++ u.
Proof. induction s as [|c s IH]; simpl; [reflexivity | now rewrite IH]. Qed.

Lemma length_append (s t : string) :
  String.length (s ++ t) = (String.length s + String.length t)%nat.
Proof. induction s as [|c s IH]; simpl; [reflexivity | now rewrite IH]. Qed.

Lemma truthy_string_false (s : string) : truthy_string s = false <-> s = "".
Proof.
  unfold truthy_string. rewrite negb_false_iff. apply String.eqb_eq.
Qed.

Lemma truthy_string_true (s : string) : truthy_string s = true <-> s <> "".
Proof.
  unfold truthy_string. rewrite negb_true_iff. apply String.eqb_neq.
Qed.

Lemma occurrences_append (c : ascii) (s t : string) :
  occurrences c (s ++ t) = (occurrences c s + occurrences c t)%nat.
Proof.
  induction s as [|d s IH]; simpl; [reflexivity | rewrite IH; lia].
Qed.

(** A character that is neither left alone by [encodeURIComponent] nor part
    of an escape never shows up in its output. *)
Lemma occurrences_encoded_byte (c d : ascii) :
  uriUnescaped c = false -> c <> "%"%char ->
  (forall n, hexDigit n <> c) ->
  occurrences c (if uriUnescaped d then String d "" else percentEscape d) = 0%nat.
Proof.
  intros Hc Hpct Hhex.
  destruct (uriUnescaped d) eqn:Hd.
  - simpl. destruct (Ascii.eqb_spec c d) as [->|_]; [congruence | reflexivity].
  - unfold percentEscape. simpl.
    destruct (Ascii.eqb_spec c "%"%char) as [?|_]; [contradiction|].
    destruct (Ascii.eqb_spec c (hexDigit (N_of_ascii d / 16))) as [E|_];
      [symmetry in E; now apply Hhex in E|].
    destruct (Ascii.eqb_spec c (hexDigit (N_of_ascii d mod 16))) as [E|_];
      [symmetry in E; now apply Hhex in E|].
    reflexivity.
Qed.

Lemma occurrences_encodeURIComponent (c : ascii) (s : string) :
  uriUnescaped c = false -> c <> "%"%char ->
  (forall n, hexDigit n <> c) ->
  occurrences c (encodeURIComponent s) = 0%nat.
Proof.
  intros Hc Hpct Hhex.
  induction s as [|d s IH]; simpl; [reflexivity|].
  rewrite occurrences_append, IH, occurrences_encoded_byte by assumption.
  reflexivity.
Qed.

Lemma hexDigit_not_amp (n : N) : hexDigit n <> "&"%char.
Proof.
  destruct n as [|p]; [discriminate|].
  do 4 (destruct p as [p|p|]; try discriminate).
Qed.

Lemma no_amp_encodeURIComponent (s : string) :
  occurrences "&" (encodeURIComponent s) = 0%nat.
Proof.
  apply occurrences_encodeURIComponent;
    [reflexivity | discriminate | apply hexDigit_not_amp].
Qed.

(** Joining [n] strings free of the separator puts [n - 1] separators. *)
Lemma occurrences_join (c : ascii) (parts : list string) :
  Forall (fun p => occurrences c p = 0%nat) parts ->
  occurrences c (join (String c "") parts) = Nat.pred (List.length parts).
Proof.
  induction 1 as [|p rest Hp Hrest IH]; [reflexivity|].
  destruct rest as [|q rest]; [simpl; exact Hp|].
  change (join (String c "") (p :: q :: rest))
    with (p ++ String c "" ++ join (String c "") (q :: rest)).
  rewrite !occurrences_append, IH, Hp. simpl.
  rewrite Ascii.eqb_refl. reflexivity.
Qed.

End StringFacts.

(** * The request builder *)

Section RequestBuilder.

Lemma length_zero_cons {A} (x : A) (l : list A) :
  (Z.of_nat (List.length (x :: l)) =? 0)%Z = false.
Proof. apply Z.eqb_neq. simpl. lia. Qed.

Example buildURL_spec_example :
  buildURL "https://h" (JString "e") "x=5" = "https://h/e?x=5".
Proof. reflexivity. Qed.

(** C2: [buildURL] returns the base URL as it is when endpoint and query
    string are both empty; a non-empty endpoint follows the base URL after
    exactly one ["/"]; ["?"] and the query string follow exactly when the query
    string is non-empty. *)
Theorem buildURL_joins (baseURL endpoint queryString : string) :
  buildURL baseURL (JString "") "" = baseURL
  /\ buildURL baseURL (JString endpoint) queryString
     = baseURL
         ++ (if endpoint =? "" then "" else "/" ++ endpoint)
         ++ (if queryString =? "" then "" else "?" ++ queryString)
  /\ String.length (buildURL baseURL (JString endpoint) queryString)
     = (String.length baseURL
        + (if (endpoint =? "")%string then 0
           else 1 + String.length endpoint)
        + (if (queryString =? "")%string then 0
           else 1 + String.length queryString))%nat.
Proof.
  assert (E : buildURL baseURL (JString endpoint) queryString
              = baseURL
                  ++ (if endpoint =? "" then "" else "/" ++ endpoint)
                  ++ (if queryString =? "" then "" else "?" ++ queryString)).
  { unfold buildURL, truthy, truthy_string.
    destruct (endpoint =? ""), (queryString =? ""); simpl;
      rewrite ?append_nil_r, ?append_assoc; reflexivity. }
  split; [reflexivity|]. split; [exact E|].
  rewrite E, !length_append.
  destruct (endpoint =? ""), (queryString =? ""); simpl; lia.
Qed.

Lemma buildQueryParams_loop_spec (arr : list Broadcast.QueryParam)
    (params : list string) :
  Broadcast.buildQueryParams_loop arr params
  = (params ++ map BroadcastSpec.pair_of (filter BroadcastSpec.included arr))%list.
Proof.
  revert params.
  induction arr as [|param rest IH]; intros params; simpl.
  - now rewrite app_nil_r.
  - unfold BroadcastSpec.included at 1.
    destruct (truthy_string (Broadcast.key param)
              && Broadcast.value_present (Broadcast.value param)).
    + rewrite IH. unfold push. now rewrite <- List.app_assoc.
    + apply IH.
Qed.

Lemma buildQueryParams_spec (arr : list Broadcast.QueryParam) :
  Broadcast.buildQueryParams (Some arr)
  = join "&" (map BroadcastSpec.pair_of (filter BroadcastSpec.included arr)).
Proof.
  unfold Broadcast.buildQueryParams.
  destruct arr as [|param rest]; [reflexivity|].
  rewrite length_zero_cons. now rewrite buildQueryParams_loop_spec.
Qed.

Lemma no_amp_encoded_pair (k v : string) :
  occurrences "&" (encoded_pair k v) = 0%nat.
Proof.
  unfold encoded_pair.
  rewrite !occurrences_append, !no_amp_encodeURIComponent. reflexivity.
Qed.

End RequestBuilder.

(** * The selection policy *)

Section Selection.

Lemma unit_double_finite (x : Number) :
  unit_double x = true -> exists r : Q, x = Finite r.
Proof. destruct x as [| |r]; try discriminate. intros _. now exists r. Qed.

Lemma Number_of_Z_one : Number_of_Z 1 = Finite 1.
Proof. apply (Number_of_Z_exact 1). split; [lia | discriminate]. Qed.

(** The index [Math.floor(r * n)] for a sample and a length. *)
Lemma floor_mul_bounds (r : Number) (n : Z) :
  unit_double r = true -> (1 <= n <= 2 ^ 53)%Z ->
  exists i : Z,
    floor_mul r (Number_of_Z n) = Finite (inject_Z i) /\ (0 <= i < n)%Z.
Proof.
  intros Hr [H1 H2]. destruct (unit_double_finite r Hr) as [q ->].
  rewrite Number_of_Z_exact by lia.
  destruct (floor_mul_in_range q (inject_Z n) Hr) as (i & Hi & H0 & Hlt).
  - change 1%Q with (inject_Z 1). rewrite <- Zle_Qle. exact H1.
  - apply Qle_lt_trans with (inject_Z (2 ^ 53)); [|reflexivity].
    rewrite <- Zle_Qle. exact H2.
  - exists i. split; [exact Hi|]. split; [exact H0|].
    rewrite Zlt_Qlt. exact Hlt.
Qed.

(** The value [Math.floor(r * N) + 1] for a sample and a range from one up. *)
Lemma value_for_bounds (r range : Number) :
  unit_double r = true -> RandomSpec.proper_range range ->
  RandomSpec.value_in_range range (RandomSpec.value_for r range).
Proof.
  intros Hr (n & -> & Hd & Hn). destruct (unit_double_finite r Hr) as [q ->].
  assert (Pn : (0 < n)%Q) by lra.
  destruct (is_double_rounded n Pn Hd) as [_ Fin].
  destruct (floor_mul_in_range q n Hr Hn Fin) as (i & Hi & H0 & Hlt).
  destruct (add_one_in_range i n H0 Hlt Hd) as (k & Hk & Hb).
  exists k, n. unfold RandomSpec.value_for.
  rewrite Hi, Number_of_Z_one, Hk. repeat split; lia.
Qed.


Lemma proper_range_of_Z (n : Z) :
  (1 <= n <= 2 ^ 53)%Z -> RandomSpec.proper_range (Number_of_Z n).
Proof.
  intros [H1 H2]. exists (inject_Z n). rewrite Number_of_Z_exact by lia.
  split; [reflexivity|]. split.
  - apply rounded_is_double.
    + apply inject_pos. lia.
    + apply rounded_small_integer. lia.
    + apply Qle_lt_trans with (inject_Z (2 ^ 53)); [|reflexivity].
      rewrite <- Zle_Qle. exact H2.
  - change 1%Q with (inject_Z 1). rewrite <- Zle_Qle. exact H1.
Qed.

Lemma advance_0 (w : World) : advance 0 w = w.
Proof. destruct w; unfold advance; simpl. now rewrite Nat.add_0_r. Qed.

Lemma advance_S (n : nat) (w : World) :
  advance n (advance 1 w) = advance (S n) w.
Proof. unfold advance; simpl. f_equal. lia. Qed.

Lemma Math_random_spec (w : World) :
  Math_random w = (Returned (random w (drawn w)), advance 1 w).
Proof. unfold Math_random, advance. now rewrite Nat.add_1_r. Qed.

(** A read inside the array yields one of its elements. *)
Lemma array_get_inside (arr : list string) (i : Z) :
  (0 <= i < Z.of_nat (List.length arr))%Z ->
  exists e, array_get arr (Finite (inject_Z i)) = JString e /\ In e arr
            /\ nth_error arr (Z.to_nat i) = Some e.
Proof.
  intros Hi. unfold array_get. rewrite Qfloor_Z.
  assert (H0 : Qle_bool 0 (inject_Z i) = true).
  { apply Qle_bool_iff. apply inject_nonneg. lia. }
  rewrite H0, Qeq_bool_refl. cbn [andb].
  destruct (nth_error arr (Z.to_nat i)) as [e|] eqn:E.
  - exists e. repeat split; eauto using nth_error_In.
  - apply nth_error_None in E. lia.
Qed.

(** A read of the empty array yields [undefined], whatever the index. *)
Lemma array_get_nil (i : Number) : array_get [] i = JUndefined.
Proof.
  destruct i as [| |q]; try reflexivity. unfold array_get.
  destruct (_ && _); [|reflexivity].
  now destruct (Z.to_nat (Qfloor q)).
Qed.

(** ** The loop of [getRandomQueryParams] in the server *)

Lemma Server_loop_spec (arr : list Server.QueryParam) :
  forall (params : list string) (w : World),
    Server.getRandomQueryParams_loop arr params w
    = (Returned (params
                   ++ map ServerSpec.pair_of
                        (ServerSpec.sampled arr (random w) (drawn w)))%list,
       advance (List.length (ServerSpec.sampled arr (random w) (drawn w))) w).
Proof.
  induction arr as [|param rest IH]; intros params w; simpl.
  - rewrite app_nil_r, advance_0. reflexivity.
  - unfold ServerSpec.included.
    destruct (truthy_string (Server.key param)
              && truthy_number (Server.range param)).
    + unfold bind. rewrite Math_random_spec, IH. simpl.
      rewrite Nat.add_1_r, advance_S. unfold push.
      rewrite <- List.app_assoc. reflexivity.
    + apply IH.
Qed.

Lemma Server_getRandomQueryParams_spec (arr : list Server.QueryParam)
    (w : World) :
  Server.getRandomQueryParams (Some arr) w
  = (Returned (join "&" (map ServerSpec.pair_of
                           (ServerSpec.sampled arr (random w) (drawn w)))),
     advance (List.length (ServerSpec.sampled arr (random w) (drawn w))) w).
Proof.
  unfold Server.getRandomQueryParams.
  destruct arr as [|param rest].
  - simpl. now rewrite advance_0.
  - rewrite length_zero_cons. unfold bind. rewrite Server_loop_spec.
    reflexivity.
Qed.

Lemma Server_sampled_params (arr : list Server.QueryParam) (rand : nat -> Number) :
  forall k, map fst (ServerSpec.sampled arr rand k)
            = filter ServerSpec.included arr.
Proof.
  induction arr as [|param rest IH]; intros k; simpl; [reflexivity|].
  destruct (ServerSpec.included param); simpl; now rewrite IH.
Qed.



(** ** The loop of [getRandomQueryParams] in the minimal script *)

Lemma concat_empty_cons (x : string) (l : list string) :
  String.concat "" (x :: l) = x ++ String.concat "" l.
Proof. destruct l; simpl; [now rewrite append_nil_r | reflexivity]. Qed.

Lemma Minimal_loop_spec (arr : list Minimal.QueryParam) :
  forall (query : string) (w : World),
    Minimal.getRandomQueryParams_loop arr query w
    = (Returned (query
                   ++ String.concat ""
                        (map MinimalSpec.raw_pair
                           (MinimalSpec.sampled arr (random w) (drawn w)))),
       advance (List.length arr) w).
Proof.
  induction arr as [|param rest IH]; intros query w.
  - simpl. rewrite append_nil_r, advance_0. reflexivity.
  - cbn [Minimal.getRandomQueryParams_loop MinimalSpec.sampled map List.length].
    unfold bind. rewrite Math_random_spec, IH, concat_empty_cons.
    simpl (random (advance 1 w)). simpl (drawn (advance 1 w)).
    rewrite advance_S, Nat.add_1_r. f_equal. f_equal.
    unfold MinimalSpec.raw_pair, RandomSpec.value_for. simpl fst. simpl snd.
    rewrite !append_assoc. reflexivity.
Qed.

Lemma Minimal_sampled_params (arr : list Minimal.QueryParam)
    (rand : nat -> Number) :
  forall k, map fst (MinimalSpec.sampled arr rand k) = arr.
Proof.
  induction arr as [|param rest IH]; intros k; simpl; [reflexivity|].
  now rewrite IH.
Qed.



End Selection.

(** * Randomized selection: the claims *)

Section SelectionClaims.

Lemma sample_world_uniform : uniform_samples Sample.world.
Proof.
  intros i. unfold Sample.world, Sample.samples. cbn [random].
  do 4 (destruct i as [|i]; [vm_compute; reflexivity|]).
  destruct i; vm_compute; reflexivity.
Qed.

(** C7, as the code has it: in [src/index.js] and in the server script the
    query string is the pairs let through, each as
    [encodeURIComponent(key)=encodeURIComponent(value)], joined by ["&"], so
    that it holds one ["&"] less than it has pairs; the minimal script puts
    the key as it stands and ends every pair, the last one too, with ["&"]. *)
Theorem query_pairs_encoded_and_joined :
  (forall arr : list Broadcast.QueryParam,
     let pairs := filter BroadcastSpec.included arr in
     Broadcast.buildQueryParams (Some arr)
     = join "&" (map (fun param =>
                        encodeURIComponent (Broadcast.key param) ++ "="
                          ++ encodeURIComponent
                               (Broadcast.value_toString (Broadcast.value param)))
                     pairs)
     /\ occurrences "&" (Broadcast.buildQueryParams (Some arr))
        = Nat.pred (List.length pairs))
  /\ (forall (arr : list Server.QueryParam) (w : World),
        let pairs := ServerSpec.sampled arr (random w) (drawn w) in
        exists query,
          fst (Server.getRandomQueryParams (Some arr) w) = Returned query
          /\ query
             = join "&" (map (fun pv =>
                                encodeURIComponent (Server.key (fst pv)) ++ "="
                                  ++ encodeURIComponent (Number_toString (snd pv)))
                             pairs)
          /\ map fst pairs = filter ServerSpec.included arr
          /\ occurrences "&" query = Nat.pred (List.length pairs))
  /\ (forall (arr : list Minimal.QueryParam) (w : World),
        let pairs := MinimalSpec.sampled arr (random w) (drawn w) in
        fst (Minimal.getRandomQueryParams arr w)
        = Returned (String.concat ""
                      (map (fun pv =>
                              Minimal.key (fst pv) ++ "="
                                ++ Number_toString (snd pv) ++ "&")
                           pairs))
        /\ map fst pairs = arr).
Proof.
  split; [|split].
  - intros arr pairs. rewrite buildQueryParams_spec. split; [reflexivity|].
    rewrite occurrences_join, length_map; [reflexivity|].
    apply Forall_map, Forall_forall. intros param _.
    apply no_amp_encoded_pair.
  - intros arr w pairs. eexists.
    rewrite Server_getRandomQueryParams_spec. simpl fst.
    split; [reflexivity|]. split; [reflexivity|].
    split; [apply Server_sampled_params|].
    rewrite occurrences_join, length_map; [reflexivity|].
    apply Forall_map, Forall_forall. intros pv _.
    apply no_amp_encoded_pair.
  - intros arr w pairs. unfold Minimal.getRandomQueryParams.
    rewrite Minimal_loop_spec. simpl. split; [reflexivity|].
    apply Minimal_sampled_params.
Qed.

(** C7 fails on the minimal script: the key ["a b"] reaches the URL with its
    space, and the string ends in ["&"]. *)
Lemma minimal_query_raw_and_trailing :
  fst (Minimal.getRandomQueryParams
         [Minimal.mkQueryParam "a b" (Number_of_Z 1)] Sample.world)
  = Returned "a b=1&"
  /\ "a b=1&" <> join "&" [encodeURIComponent "a b" ++ "=" ++ encodeURIComponent "1"].
Proof. split; [vm_compute; reflexivity | discriminate]. Qed.

(** C9, as the code has it: for a non-empty array and a sample that is a
    double in [[0,1)] the index [Math.floor(r * n)], the product rounded as
    the machine rounds it, is a whole number inside the array, and both
    scripts return the element at it; for an empty or a missing array the
    server script returns the empty string, while the minimal script returns
    [undefined] for an empty array and raises a [TypeError] for a missing
    one.  (A JavaScript array has fewer than [2^32] elements.) *)
Theorem random_endpoint_in_array (arr : list string) (w : World) :
  (uniform_samples w -> arr <> [] ->
   (Z.of_nat (List.length arr) < 2 ^ 32)%Z ->
   exists i : Z,
     floor_mul (random w (drawn w)) (Number_of_Z (Z.of_nat (List.length arr)))
     = Finite (inject_Z i)
     /\ (0 <= i < Z.of_nat (List.length arr))%Z
     /\ exists e,
          nth_error arr (Z.to_nat i) = Some e /\ In e arr
          /\ Server.getRandomEndpoint (Some arr) w
             = (Returned (JString e), advance 1 w)
          /\ Minimal.getRandomEndpoint (Some arr) w
             = (Returned (JString e), advance 1 w))
  /\ Server.getRandomEndpoint (Some []) w = (Returned (JString ""), w)
  /\ Server.getRandomEndpoint None w = (Returned (JString ""), w)
  /\ Minimal.getRandomEndpoint (Some []) w = (Returned JUndefined, advance 1 w)
  /\ exists message,
       Minimal.getRandomEndpoint None w = (Thrown message, advance 1 w).
Proof.
  split; [|repeat split].
  - intros Hw Hne Hlen.
    destruct (floor_mul_bounds (random w (drawn w))
                (Z.of_nat (List.length arr)) (Hw (drawn w)))
      as (i & Hfloor & Hi).
    { assert (E : (2 ^ 32 < 2 ^ 53)%Z) by reflexivity.
      destruct arr as [|a arr']; [congruence|].
      cbn [List.length] in *. lia. }
    exists i. split; [exact Hfloor|]. split; [exact Hi|].
    destruct (array_get_inside arr i Hi) as (e & Hget & Hin & Hnth).
    exists e. repeat split; try assumption.
    + unfold Server.getRandomEndpoint.
      destruct arr as [|a arr']; [congruence|].
      rewrite length_zero_cons. unfold bind.
      rewrite Math_random_spec. unfold ret. now rewrite Hfloor, Hget.
    + unfold Minimal.getRandomEndpoint, bind.
      rewrite Math_random_spec. unfold ret. now rewrite Hfloor, Hget.
  - unfold Minimal.getRandomEndpoint, bind. rewrite Math_random_spec.
    unfold ret. now rewrite array_get_nil.
  - eexists. unfold Minimal.getRandomEndpoint, bind.
    rewrite Math_random_spec. reflexivity.
Qed.

Lemma random_endpoint_in_array_witness :
  Server.getRandomEndpoint (Some ["a"; "b"; "c"]) Sample.world
  = (Returned (JString "b"), advance 1 Sample.world).
Proof.
  destruct (random_endpoint_in_array ["a"; "b"; "c"] Sample.world) as [H _].
  destruct (H sample_world_uniform ltac:(discriminate) ltac:(reflexivity))
    as (i & Hfloor & _ & e & Hnth & _ & HS & _).
  vm_compute in Hfloor. injection Hfloor as <-.
  vm_compute in Hnth. injection Hnth as <-. exact HS.
Defined.

(** C9 fails on the minimal script: on an empty array it reads [arr[0]],
    which is [undefined], not the empty string. *)
Lemma minimal_endpoint_undefined :
  fst (Minimal.getRandomEndpoint (Some []) Sample.world) = Returned JUndefined
  /\ fst (Minimal.getRandomEndpoint (Some []) Sample.world)
     <> Returned (JString "").
Proof. split; [vm_compute; reflexivity | vm_compute; discriminate]. Qed.

End SelectionClaims.

(** * The dispatcher of [src/index.js] *)

Section WorldFacts.

Lemma with_lines_nil (w : World) : with_lines [] w = w.
Proof. destruct w; unfold with_lines; simpl. now rewrite app_nil_r. Qed.

Lemma with_calls_nil (w : World) : with_calls [] w = w.
Proof. destruct w; unfold with_calls; simpl. now rewrite app_nil_r. Qed.

Lemma with_lines_app (l1 l2 : list LogLine) (w : World) :
  with_lines l2 (with_lines l1 w) = with_lines (l1 ++ l2) w.
Proof. unfold with_lines; simpl. now rewrite List.app_assoc. Qed.

Lemma with_lines_calls (ls : list LogLine) (cs : list Request) (w : World) :
  with_lines ls (with_calls cs w) = with_calls cs (with_lines ls w).
Proof. reflexivity. Qed.

Lemma console_log_spec (args : list string) (w : World) :
  console_log args w = (Returned tt, with_lines [ConsoleLog args] w).
Proof. reflexivity. Qed.

Lemma console_error_spec (args : list string) (w : World) :
  console_error args w = (Returned tt, with_lines [ConsoleError args] w).
Proof. reflexivity. Qed.

Lemma fetch_issue_spec (rq : Request) (w : World) :
  fetch_issue rq w
  = (Returned (network w (List.length (calls w)) rq), with_calls [rq] w).
Proof. reflexivity. Qed.

End WorldFacts.

Section BroadcastDispatch.

Import Broadcast BroadcastSpec.

Variable cfg : Config.

Lemma makeRequest_enter_spec (endpoint : string) (w : World) :
  makeRequest_enter cfg endpoint w
  = (Returned (Some (network w (List.length (calls w))
                       (request_for cfg endpoint))),
     with_calls [request_for cfg endpoint]
       (with_lines [announcement cfg endpoint] w)).
Proof. reflexivity. Qed.

Lemma makeRequest_start_spec (endpoint : string) (w : World) :
  makeRequest_start cfg endpoint w
  = (Returned (mkTask endpoint
                 (Awaiting (network w (List.length (calls w))
                              (request_for cfg endpoint)))),
     with_calls [request_for cfg endpoint]
       (with_lines [announcement cfg endpoint] w)).
Proof. reflexivity. Qed.

(** Whatever the transport answers, the part of [makeRequest] after the
    [await] returns, having written the outcome. *)
Lemma makeRequest_resume_spec (endpoint : string) (r : FetchResult)
    (w : World) :
  makeRequest_resume endpoint r w
  = (Returned tt, with_lines [outcome_line endpoint r] w).
Proof. destruct r; reflexivity. Qed.

Lemma map_makeRequest_spec (endpointsToCall : list string) :
  forall w : World,
    map_makeRequest cfg endpointsToCall w
    = (Returned (issued cfg (network w) (List.length (calls w)) endpointsToCall),
       with_calls (map (request_for cfg) endpointsToCall)
         (with_lines (map (announcement cfg) endpointsToCall) w)).
Proof.
  induction endpointsToCall as [|endpoint rest IH]; intros w.
  - simpl. now rewrite with_lines_nil, with_calls_nil.
  - cbn [map_makeRequest issued map]. unfold bind.
    rewrite makeRequest_start_spec, IH. unfold ret. f_equal.
    + do 2 f_equal. simpl. rewrite length_app. simpl.
      now rewrite Nat.add_1_r.
    + unfold with_calls, with_lines. simpl.
      now rewrite <- !List.app_assoc.
Qed.

Lemma settle_task_spec (t : Task) (w : World) :
  settle_task t w = (Returned (settled_task t), with_lines (pending_line t) w).
Proof.
  destruct t as [endpoint [r|p]];
    unfold settle_task, settled_task, pending_line; simpl.
  - now rewrite makeRequest_resume_spec.
  - unfold ret. now rewrite with_lines_nil.
Qed.

Lemma settle_spec (tasks : list Task) :
  forall (i : nat) (w : World),
    settle i tasks w
    = (Returned (mark i tasks), with_lines (line_at i tasks) w).
Proof.
  induction tasks as [|t rest IH]; intros i w.
  - destruct i; simpl; unfold ret, line_at; simpl;
      now rewrite with_lines_nil.
  - destruct i as [|j]; simpl; unfold bind.
    + now rewrite settle_task_spec.
    + now rewrite IH.
Qed.

Lemma settle_all_spec (arrivals : list nat) :
  forall (tasks : list Task) (w : World),
    settle_all arrivals tasks w
    = (Returned (mark_all arrivals tasks),
       with_lines (lines_all arrivals tasks) w).
Proof.
  induction arrivals as [|i later IH]; intros tasks w; simpl.
  - unfold ret. now rewrite with_lines_nil.
  - unfold bind. rewrite settle_spec, IH, with_lines_app. reflexivity.
Qed.

End BroadcastDispatch.

Section TaskFacts.

Import Broadcast BroadcastSpec.

Lemma settled_task_settled (t : Task) : is_settled (settled_task t) = true.
Proof. destruct t as [e [r|p]]; reflexivity. Qed.

Lemma settled_task_keeps (t : Task) :
  is_settled t = true -> settled_task t = t.
Proof. destruct t as [e [r|p]]; [discriminate | reflexivity]. Qed.

Lemma settled_task_unrejected (t : Task) :
  unrejected t -> unrejected (settled_task t).
Proof.
  destruct t as [e [r|p]]; unfold unrejected, settled_task; simpl; intros H ?;
    [discriminate | apply H].
Qed.

Lemma pending_line_settled (t : Task) :
  is_settled t = true -> pending_line t = [].
Proof. destruct t as [e [r|p]]; [discriminate | reflexivity]. Qed.

Lemma length_mark (tasks : list Task) :
  forall i, List.length (mark i tasks) = List.length tasks.
Proof.
  induction tasks as [|t rest IH]; intros [|j]; simpl; auto.
Qed.

Lemma length_mark_all (arrivals : list nat) :
  forall tasks, List.length (mark_all arrivals tasks) = List.length tasks.
Proof.
  induction arrivals as [|i later IH]; intros tasks; simpl; [reflexivity|].
  now rewrite IH, length_mark.
Qed.

Lemma nth_error_mark_same (tasks : list Task) :
  forall i, nth_error (mark i tasks) i
            = option_map settled_task (nth_error tasks i).
Proof.
  induction tasks as [|t rest IH]; intros [|j]; simpl; auto.
Qed.

Lemma nth_error_mark_other (tasks : list Task) :
  forall i j, i <> j -> nth_error (mark i tasks) j = nth_error tasks j.
Proof.
  induction tasks as [|t rest IH]; intros [|i] [|j] H; simpl; auto;
    try congruence.
Qed.

(** Once settled, a task stays as it is. *)
Lemma mark_keeps_settled (tasks : list Task) (i j : nat) (t : Task) :
  nth_error tasks j = Some t -> is_settled t = true ->
  nth_error (mark i tasks) j = Some t.
Proof.
  intros Hj Ht. destruct (Nat.eq_dec i j) as [->|Hne].
  - rewrite nth_error_mark_same, Hj. simpl. now rewrite settled_task_keeps.
  - now rewrite nth_error_mark_other.
Qed.

Lemma mark_all_keeps_settled (arrivals : list nat) :
  forall (tasks : list Task) (j : nat) (t : Task),
    nth_error tasks j = Some t -> is_settled t = true ->
    nth_error (mark_all arrivals tasks) j = Some t.
Proof.
  induction arrivals as [|i later IH]; intros tasks j t Hj Ht; simpl;
    [assumption|].
  apply IH; [now apply mark_keeps_settled | assumption].
Qed.

(** A task whose call has arrived is settled at the end. *)
Lemma mark_all_settles (arrivals : list nat) :
  forall (tasks : list Task) (j : nat) (t : Task),
    In j arrivals ->
    nth_error (mark_all arrivals tasks) j = Some t -> is_settled t = true.
Proof.
  induction arrivals as [|i later IH]; intros tasks j t Hin Hj; [easy|].
  simpl in Hj. destruct (Nat.eq_dec i j) as [->|Hne].
  - destruct (nth_error tasks j) as [t0|] eqn:E.
    + assert (H : nth_error (mark j tasks) j = Some (settled_task t0))
        by now rewrite nth_error_mark_same, E.
      apply mark_all_keeps_settled with (arrivals := later) in H;
        [|apply settled_task_settled].
      rewrite H in Hj. injection Hj as <-. apply settled_task_settled.
    + assert (Hlen : (List.length (mark_all later (mark j tasks)) <= j)%nat).
      { rewrite length_mark_all, length_mark. now apply nth_error_None. }
      apply nth_error_None in Hlen. congruence.
  - destruct Hin as [->|Hin]; [congruence|]. eapply IH; eassumption.
Qed.

(** A task whose call has not arrived is as it was. *)
Lemma mark_all_untouched (arrivals : list nat) :
  forall (tasks : list Task) (j : nat),
    ~ In j arrivals ->
    nth_error (mark_all arrivals tasks) j = nth_error tasks j.
Proof.
  induction arrivals as [|i later IH]; intros tasks j Hnin; simpl;
    [reflexivity|].
  rewrite IH by (intros H; apply Hnin; now right).
  apply nth_error_mark_other. intros ->. apply Hnin. now left.
Qed.

Lemma mark_unrejected (tasks : list Task) :
  forall i, Forall unrejected tasks -> Forall unrejected (mark i tasks).
Proof.
  induction tasks as [|t rest IH]; intros [|j] H; simpl; auto;
    inversion H; subst; constructor; auto using settled_task_unrejected.
Qed.

Lemma mark_all_unrejected (arrivals : list nat) :
  forall tasks, Forall unrejected tasks ->
                Forall unrejected (mark_all arrivals tasks).
Proof.
  induction arrivals as [|i later IH]; intros tasks H; simpl;
    auto using mark_unrejected.
Qed.

(** [allSettled] resolves exactly when every task is settled, with one entry
    per task. *)
Lemma allSettled_all (tasks : list Task) :
  Forall (fun t => is_settled t = true) tasks ->
  Forall unrejected tasks ->
  allSettled tasks = Some (repeat Fulfilled (List.length tasks)).
Proof.
  induction tasks as [|t rest IH]; intros Hs Hu; [reflexivity|].
  inversion Hs as [|? ? Ht Hrest]; inversion Hu as [|? ? Hut Hurest]; subst.
  simpl. rewrite (IH Hrest Hurest).
  destruct t as [e [r|[|reason]]]; simpl in *;
    [discriminate | reflexivity | now destruct (Hut reason)].
Qed.

Lemma allSettled_some (tasks : list Task) (batch : list PromiseResult) :
  allSettled tasks = Some batch ->
  List.length batch = List.length tasks
  /\ Forall (fun t => is_settled t = true) tasks.
Proof.
  revert batch.
  induction tasks as [|t rest IH]; intros batch; simpl.
  - intros [= <-]. split; [reflexivity | constructor].
  - destruct t as [e [r|p]]; simpl; [discriminate|].
    destruct (allSettled rest) as [ps|]; [|discriminate].
    intros [= <-]. destruct (IH ps eq_refl) as [Hlen Hall].
    split; [simpl; now rewrite Hlen | now constructor].
Qed.

Lemma pending_lines_settled (tasks : list Task) :
  Forall (fun t => is_settled t = true) tasks -> pending_lines tasks = [].
Proof.
  induction 1 as [|t rest Ht _ IH]; [reflexivity|].
  unfold pending_lines in *. simpl.
  now rewrite IH, pending_line_settled.
Qed.

(** Settling a task moves its outcome line from the lines still to come to
    the lines written. *)
Lemma mark_lines (tasks : list Task) :
  forall i, Permutation (line_at i tasks ++ pending_lines (mark i tasks))
                        (pending_lines tasks).
Proof.
  induction tasks as [|t rest IH]; intros [|j]; unfold line_at; simpl;
    try apply Permutation_refl.
  - unfold pending_lines. simpl.
    rewrite (pending_line_settled (settled_task t))
      by apply settled_task_settled.
    apply Permutation_refl.
  - unfold pending_lines. simpl. fold (pending_lines (mark j rest)).
    fold (pending_lines rest). fold (line_at j rest).
    rewrite Permutation_app_swap_app.
    apply Permutation_app_head, IH.
Qed.

Lemma mark_all_lines (arrivals : list nat) :
  forall tasks,
    Permutation (lines_all arrivals tasks
                   ++ pending_lines (mark_all arrivals tasks))
                (pending_lines tasks).
Proof.
  induction arrivals as [|i later IH]; intros tasks; simpl;
    [apply Permutation_refl|].
  rewrite <- List.app_assoc.
  rewrite (IH (mark i tasks)). apply mark_lines.
Qed.

Lemma issued_length (cfg : Config) (net : nat -> Request -> FetchResult)
    (endpointsToCall : list string) :
  forall first,
    List.length (issued cfg net first endpointsToCall)
    = List.length endpointsToCall.
Proof.
  induction endpointsToCall as [|e rest IH]; intros first; simpl; auto.
Qed.

Lemma issued_awaiting (cfg : Config) (net : nat -> Request -> FetchResult)
    (endpointsToCall : list string) :
  forall first,
    Forall (fun t => is_settled t = false)
           (issued cfg net first endpointsToCall).
Proof.
  induction endpointsToCall as [|e rest IH]; intros first; simpl;
    constructor; auto.
Qed.

Lemma issued_unrejected (cfg : Config) (net : nat -> Request -> FetchResult)
    (endpointsToCall : list string) :
  forall first, Forall unrejected (issued cfg net first endpointsToCall).
Proof.
  induction endpointsToCall as [|e rest IH]; intros first; simpl;
    constructor; auto.
  intros reason. discriminate.
Qed.

Lemma Forall_nth_error_iff {A} (P : A -> Prop) (l : list A) :
  Forall P l <-> (forall i x, nth_error l i = Some x -> P x).
Proof.
  rewrite Forall_forall. split.
  - intros H i x Hi. eapply H, nth_error_In, Hi.
  - intros H x Hin. apply In_nth_error in Hin as [i Hi]. eapply H, Hi.
Qed.

End TaskFacts.

Section BroadcastCycle.

Import Broadcast BroadcastSpec.

Lemma getAllEndpoints_Some (arr : list string) :
  getAllEndpoints (Some arr) = arr.
Proof. destruct arr; reflexivity. Qed.

(** What a tick does once its endpoint list is non-empty: the calls go out
    in the order of the endpoints, the outcomes are written as the calls
    arrive, and the cycle closes only when [allSettled] resolves. *)
Lemma cron_callback_spec (cfg : Config) (arrivals : list nat) (w : World) :
  endpoints cfg <> [] ->
  let tasks := issued cfg (network w) (List.length (calls w)) (endpoints cfg) in
  let w' := with_calls (map (request_for cfg) (endpoints cfg))
              (with_lines (opening_lines cfg
                             ++ map (announcement cfg) (endpoints cfg)
                             ++ lines_all arrivals tasks) w) in
  cron_callback cfg arrivals w
  = match allSettled (mark_all arrivals tasks) with
    | None => (Returned (Waiting (mark_all arrivals tasks)), w')
    | Some batch =>
        (Returned (Completed batch), with_lines [closing_line cfg] w')
    end.
Proof.
  intros Hne tasks w'. subst tasks w'.
  unfold cron_callback, opening_lines, closing_line.
  rewrite getAllEndpoints_Some.
  destruct (endpoints cfg) as [|e rest] eqn:E; [congruence|].
  rewrite length_zero_cons. unfold bind at 1. rewrite console_log_spec.
  unfold bind at 1.
  destruct (Z.of_nat (List.length (queryParams cfg)) >? 0)%Z;
    [rewrite console_log_spec | unfold ret at 1];
    unfold bind at 1; rewrite map_makeRequest_spec;
    unfold bind at 1; rewrite settle_all_spec;
    cbn [network calls with_lines with_calls];
    match goal with
    | |- context [allSettled ?ts] => destruct (allSettled ts)
    end;
    unfold bind, ret; rewrite ?console_log_spec;
    unfold with_lines, with_calls; cbn [random drawn network calls console clock];
    (apply f_equal2; [reflexivity|]); f_equal;
    rewrite <- ?List.app_assoc; reflexivity.
Qed.

Lemma outcomes_length (cfg : Config) (net : nat -> Request -> FetchResult)
    (endpointsToCall : list string) :
  forall first,
    List.length (outcomes cfg net first endpointsToCall)
    = List.length endpointsToCall.
Proof.
  unfold outcomes, pending_lines.
  induction endpointsToCall as [|e rest IH]; intros first; simpl;
    [reflexivity | now rewrite IH].
Qed.

(** C4: in a cycle over [n] endpoints every call is issued, the promise of
    every call is fulfilled whatever the transport answers (none is
    rejected), the outcome of every call is written to the console, and the
    cycle closes with a batch of exactly [n] entries once all [n] calls have
    arrived; while a call is outstanding the cycle stays open. *)
Theorem broadcast_cycle_settles (cfg : Config) (arrivals : list nat)
    (w : World) :
  let n := List.length (endpoints cfg) in
  endpoints cfg <> [] ->
  ((forall i, (i < n)%nat -> In i arrivals) ->
   exists lines,
     cron_callback cfg arrivals w
     = (Returned (Completed (repeat Fulfilled n)),
        with_calls (map (request_for cfg) (endpoints cfg))
          (with_lines (opening_lines cfg
                         ++ map (announcement cfg) (endpoints cfg)
                         ++ lines ++ [closing_line cfg]) w))
     /\ Permutation lines
          (outcomes cfg (network w) (List.length (calls w)) (endpoints cfg))
     /\ List.length lines = n)
  /\
  ((exists i, (i < n)%nat /\ ~ In i arrivals) ->
   exists tasks lines,
     cron_callback cfg arrivals w
     = (Returned (Waiting tasks),
        with_calls (map (request_for cfg) (endpoints cfg))
          (with_lines (opening_lines cfg
                         ++ map (announcement cfg) (endpoints cfg)
                         ++ lines) w))
     /\ List.length tasks = n
     /\ (List.length lines < n)%nat).
Proof.
  intros n Hne.
  pose (tasks := issued cfg (network w) (List.length (calls w)) (endpoints cfg)).
  assert (Hlen : List.length tasks = n) by apply issued_length.
  assert (Hsum : Permutation
                   (lines_all arrivals tasks
                      ++ pending_lines (mark_all arrivals tasks))
                   (pending_lines tasks)) by apply mark_all_lines.
  assert (Hout : List.length (pending_lines tasks) = n)
    by apply outcomes_length.
  pose proof (cron_callback_spec cfg arrivals w Hne) as Hrun.
  cbv zeta in Hrun. fold tasks in Hrun.
  split.
  - intros Hcover.
    assert (Hall : Forall (fun t => is_settled t = true)
                          (mark_all arrivals tasks)).
    { apply Forall_nth_error_iff. intros j t Hj.
      apply mark_all_settles with (arrivals := arrivals) (tasks := tasks)
                                  (j := j); [|assumption].
      apply Hcover. rewrite <- Hlen, <- (length_mark_all arrivals).
      apply nth_error_Some. congruence. }
    rewrite (allSettled_all _ Hall) in Hrun
      by (apply mark_all_unrejected, issued_unrejected).
    rewrite length_mark_all, Hlen in Hrun.
    rewrite (pending_lines_settled _ Hall), app_nil_r in Hsum.
    exists (lines_all arrivals tasks). split; [|split].
    + rewrite Hrun, with_lines_calls, with_lines_app.
      now rewrite <- !List.app_assoc.
    + exact Hsum.
    + now rewrite (Permutation_length Hsum).
  - intros (i & Hi & Hnin).
    destruct (nth_error tasks i) as [t|] eqn:Ht;
      [|apply nth_error_None in Ht; lia].
    assert (Hwait : is_settled t = false).
    { pose proof (issued_awaiting cfg (network w) (endpoints cfg)
                    (List.length (calls w))) as H.
      rewrite Forall_nth_error_iff in H. eapply H, Ht. }
    assert (Hstill : nth_error (mark_all arrivals tasks) i = Some t)
      by now rewrite mark_all_untouched.
    destruct (allSettled (mark_all arrivals tasks)) as [batch|] eqn:Hb.
    + apply allSettled_some in Hb as [_ Hb].
      rewrite Forall_nth_error_iff in Hb. apply Hb in Hstill. congruence.
    + exists (mark_all arrivals tasks), (lines_all arrivals tasks).
      split; [exact Hrun|]. split; [now rewrite length_mark_all|].
      apply Permutation_length in Hsum. rewrite length_app, Hout in Hsum.
      assert (Hpend : (1 <= List.length
                              (pending_lines (mark_all arrivals tasks)))%nat).
      { apply nth_error_split in Hstill as (l1 & l2 & -> & _).
        unfold pending_lines. rewrite flat_map_app, length_app. simpl.
        rewrite length_app.
        destruct t as [e [r|p]]; [simpl; lia | discriminate]. }
      lia.
Qed.

End BroadcastCycle.

(** * The dispatcher of the server script *)

Section ServerDispatch.

Import Server ServerSpec.

Variable cfg : Config.

(** [getRandomEndpoint] always returns, having drawn at most one sample. *)
Lemma getRandomEndpoint_returns (arr : option (list string)) (w : World) :
  exists endpoint k,
    getRandomEndpoint arr w = (Returned endpoint, advance k w)
    /\ (k <= 1)%nat
    /\ (arr = None \/ arr = Some [] -> endpoint = JString "" /\ k = 0%nat).
Proof.
  destruct arr as [[|e rest]|].
  - exists (JString ""), 0%nat. rewrite advance_0. repeat split. lia.
  - eexists _, 1%nat. unfold getRandomEndpoint.
    rewrite length_zero_cons. unfold bind. rewrite Math_random_spec.
    split; [reflexivity|]. split; [lia|]. intros [?|?]; discriminate.
  - exists (JString ""), 0%nat. rewrite advance_0. repeat split. lia.
Qed.

(** A [try] whose [catch] block always returns never throws, whatever its
    body does. *)
Lemma try_catch_returns {A} (body : JS A) (handler : string -> JS A) :
  (forall message w, exists a w', handler message w = (Returned a, w')) ->
  forall w, exists a w', try_catch body handler w = (Returned a, w').
Proof.
  intros Hhandler w. unfold try_catch.
  destruct (body w) as [[a|message] w']; [now exists a, w' | apply Hhandler].
Qed.

(** [executeCronJob] is one [try] whose [catch] block returns. *)
Lemma executeCronJob_never_throws (w : World) :
  exists outcome w', executeCronJob cfg w = (Returned outcome, w').
Proof.
  unfold executeCronJob. apply try_catch_returns.
  intros message w0. eexists _, _. reflexivity.
Qed.

(** One run of [executeCronJob]: exactly one call goes out, to the URL built
    from the endpoint drawn and the parameters sampled, and the run returns
    the outcome of that call, whether the call was answered or not. *)
Lemma executeCronJob_spec (w : World) :
  exists endpoint k,
    let vs := sampled (queryParams cfg) (random w) (drawn w + k) in
    let rq := request_for cfg endpoint (join "&" (map pair_of vs)) in
    let r := network w (List.length (calls w)) rq in
    executeCronJob cfg w
    = (Returned (outcome_of r),
       with_calls [rq]
         (with_lines (run_lines rq r) (advance (k + List.length vs) w)))
    /\ (k <= 1)%nat
    /\ (endpoints cfg = [] -> endpoint = JString "" /\ k = 0%nat).
Proof.
  destruct (getRandomEndpoint_returns (Some (endpoints cfg)) w)
    as (endpoint & k & He & Hk & Hempty).
  exists endpoint, k. intros vs rq r. split; [|split; [exact Hk|]].
  - unfold executeCronJob, try_catch.
    unfold bind at 1. rewrite He.
    unfold bind at 1. rewrite Server_getRandomQueryParams_spec.
    change (random (advance k w)) with (random w).
    change (drawn (advance k w)) with (drawn w + k)%nat.
    fold vs.
    unfold bind at 1. rewrite console_log_spec.
    unfold bind at 1. unfold fetch, bind at 1. rewrite fetch_issue_spec.
    cbn [network calls with_lines advance].
    fold (request_for cfg endpoint (join "&" (map pair_of vs))). fold rq.
    fold r.
    destruct r as [response|message]; unfold await, ret, throw, bind;
      rewrite ?console_log_spec, ?console_error_spec;
      (apply f_equal2; [reflexivity|]);
      unfold with_lines, with_calls, advance, run_lines;
      cbn [random drawn network calls console clock];
      f_equal; rewrite <- ?List.app_assoc, ?Nat.add_assoc; reflexivity.
  - intros E. apply Hempty. right. now rewrite E.
Qed.

End ServerDispatch.

Section ControlSurfaceFacts.

Import Server ServerSpec.

Lemma authenticateRequest_cases (cfg : Config) (req : IncomingRequest)
    (next : JS HttpResponse) (w : World) :
  authenticateRequest cfg req next w
  = if negb (truthy (authorization req))
    then (Returned (mkHttpResponse 401
                      (JsonObject [("error",
                                    JsonString "Authorization header required")])),
          w)
    else if negb (presented_token (toString (authorization req))
                  =? serverAuthToken cfg)
         then (Returned (mkHttpResponse 403
                           (JsonObject [("error", JsonString "Invalid token")])),
               w)
         else next w.
Proof.
  unfold authenticateRequest, presented_token.
  destruct (negb (truthy (authorization req))); [reflexivity|].
  destruct (negb _); reflexivity.
Qed.

Lemma authenticateRequest_passes (cfg : Config) (req : IncomingRequest)
    (next : JS HttpResponse) (h : string) (w : World) :
  authorization req = JString h -> h <> "" ->
  presented_token h = serverAuthToken cfg ->
  authenticateRequest cfg req next w = next w.
Proof.
  intros Hauth Hne Htoken. rewrite authenticateRequest_cases, Hauth.
  simpl. apply truthy_string_true in Hne. rewrite Hne, Htoken.
  now rewrite String.eqb_refl.
Qed.

End ControlSurfaceFacts.

Section ServerClaims.

Import Server ServerSpec.




(** C10: [executeCronJob] returns an outcome in every world and never
    throws: one call goes out; if the transport rejects it the outcome is
    [{success: false, url: '', status: 0, error: message}]; if a response
    arrives the outcome carries its URL and status, and [success] is true
    exactly when the status is in 200..299. *)
Theorem executeCronJob_always_returns (cfg : Config) (w : World) :
  exists rq outcome w',
    executeCronJob cfg w = (Returned outcome, w')
    /\ calls w' = (calls w ++ [rq])%list
    /\ match network w (List.length (calls w)) rq with
       | Rejected message =>
           outcome = mkDispatchOutcome false "" 0 (JString message)
       | Responded response =>
           url outcome = response_url response
           /\ status outcome = response_status response
           /\ error outcome = JUndefined
           /\ (success outcome = true
               <-> (200 <= response_status response <= 299)%Z)
       end.
Proof.
  destruct (executeCronJob_spec cfg w) as (endpoint & k & Hrun & _).
  cbv zeta in Hrun.
  eexists _, _, _. split; [exact Hrun|]. split; [reflexivity|].
  destruct (network w (List.length (calls w)) (request_for cfg endpoint _))
    as [response|message]; [|reflexivity].
  simpl. do 3 (split; [reflexivity|]).
  unfold response_ok. rewrite andb_true_iff, !Z.leb_le. reflexivity.
Qed.

(** C1, as the code has it: with no endpoint configured a tick of
    [src/index.js] issues no call and only notes that it skipped the run;
    the server script, on a scheduler tick as on an authorised
    [POST /trigger] whose body the JSON parser lets through, issues exactly
    one call, to the base URL itself, followed by ["?"] and the query
    string sampled from the configured parameters if that is not empty, and
    reports the outcome of that call. *)
Theorem empty_endpoint_set_cycle :
  (forall (cfg : Broadcast.Config) (arrivals : list nat) (w : World),
     Broadcast.endpoints cfg = [] ->
     Broadcast.cron_callback cfg arrivals w
     = (Returned Broadcast.Skipped,
        with_lines
          [ConsoleLog ["No endpoints configured - skipping cron run"]] w))
  /\ (forall (cfg : Config) (w : World),
        endpoints cfg = [] ->
        let vs := sampled (queryParams cfg) (random w) (drawn w) in
        let queryString := join "&" (map pair_of vs) in
        let rq := mkRequest
                    (baseURL cfg
                       ++ (if queryString =? "" then ""
                           else "?" ++ queryString))
                    "GET" (createRequestHeaders cfg) in
        let r := network w (List.length (calls w)) rq in
        let w' := with_calls [rq]
                    (with_lines (run_lines rq r) (advance (List.length vs) w)) in
        cron_tick cfg w = (Returned (outcome_of r), w')
        /\ forall env_setting req h,
             json_body req = BodyAccepted ->
             route req = POST_trigger ->
             authorization req = JString h -> h <> "" ->
             presented_token h = serverAuthToken cfg ->
             app cfg env_setting req w
             = (Returned
                  (JsonAnswer
                     (mkHttpResponse 200
                        (JsonObject
                           [("message",
                             JsonString "Cron job triggered manually");
                            ("result", json_of_outcome (outcome_of r));
                            ("timestamp", JsonString (clock w))]))),
                w')).
Proof.
  split.
  - intros cfg arrivals w E. unfold Broadcast.cron_callback.
    rewrite E. reflexivity.
  - intros cfg w E.
    destruct (executeCronJob_spec cfg w) as (endpoint & k0 & Hrun & _ & He).
    destruct (He E) as [-> ->]. cbv zeta in Hrun.
    rewrite Nat.add_0_r in Hrun. simpl Nat.add in Hrun.
    set (vs := sampled (queryParams cfg) (random w) (drawn w)) in *.
    set (q := join "&" (map pair_of vs)) in *.
    assert (Hurl : request_for cfg (JString "") q
                   = mkRequest
                       (baseURL cfg ++ (if q =? "" then "" else "?" ++ q))
                       "GET" (createRequestHeaders cfg)).
    { unfold request_for, buildURL, truthy, truthy_string. simpl.
      destruct (q =? ""); simpl; now rewrite ?append_nil_r. }
    rewrite Hurl in Hrun. cbv zeta in Hrun. cbv zeta.
    split; [exact Hrun|].
    intros env_setting req h Hbody Hroute Hauth Hne Htoken.
    unfold app, express_json, routes. rewrite Hbody, Hroute.
    unfold send, bind at 1.
    rewrite (authenticateRequest_passes cfg req _ h) by assumption.
    unfold trigger_handler, bind. rewrite Hrun. reflexivity.
Qed.

Lemma empty_endpoint_set_cycle_witness :
  Broadcast.cron_callback
    (Broadcast.mkConfig "*/5 * * * *" "https://h" JUndefined [] [])
    [] Sample.world
  = (Returned Broadcast.Skipped,
     with_lines [ConsoleLog ["No endpoints configured - skipping cron run"]]
                Sample.world)
  /\ exists outcome w',
       cron_tick Sample.idle_server_config Sample.world
       = (Returned outcome, w')
       /\ app Sample.idle_server_config "development"
            (mkIncomingRequest POST_trigger (JString "Bearer letmein")
               BodyAccepted)
            Sample.world
          = (Returned
               (JsonAnswer
                  (mkHttpResponse 200
                     (JsonObject
                        [("message", JsonString "Cron job triggered manually");
                         ("result", json_of_outcome outcome);
                         ("timestamp", JsonString (clock Sample.world))]))),
             w').
Proof.
  destruct empty_endpoint_set_cycle as [HB HS]. split.
  - apply HB. reflexivity.
  - destruct (HS Sample.idle_server_config Sample.world eq_refl)
      as (Htick & Htrigger).
    eexists _, _. split; [exact Htick|].
    apply (Htrigger "development" _ "Bearer letmein");
      [reflexivity | reflexivity | reflexivity | discriminate | reflexivity].
Defined.

(** C1 fails on the server script: with no endpoint configured a tick sends
    one request, to the base URL. *)
Lemma idle_server_still_calls :
  endpoints Sample.idle_server_config = []
  /\ calls (snd (cron_tick Sample.idle_server_config Sample.world))
     = [mkRequest "https://h" "GET"
          [("Content-Type", "application/json");
           ("User-Agent", "CronJob/1.0.0")]]
  /\ List.length (calls (snd (cron_tick Sample.idle_server_config Sample.world)))
     <> 0%nat.
Proof.
  split; [reflexivity|]. split; [reflexivity|].
  vm_compute. discriminate.
Qed.

End ServerClaims.

(** * The control surface *)

Section ControlSurfaceClaims.

Import Server ServerSpec.

Lemma app_accepted (cfg : Config) (env_setting : string)
    (req : IncomingRequest) :
  json_body req = BodyAccepted ->
  app cfg env_setting req = routes cfg req.
Proof. intros H. unfold app, express_json. now rewrite H. Qed.

Lemma app_refused (cfg : Config) (env_setting : string)
    (req : IncomingRequest) (status : Z) (stack : string) (w : World) :
  json_body req = BodyRefused status stack ->
  app cfg env_setting req w
  = (Returned (ErrorPage (error_status status)),
     if env_setting =? "test" then w
     else with_lines [ConsoleError [stack]] w).
Proof.
  intros H. unfold app, express_json. rewrite H.
  destruct (env_setting =? "test"); reflexivity.
Qed.

Lemma send_returned (handler : JS HttpResponse) (response : HttpResponse)
    (w w' : World) :
  handler w = (Returned response, w') ->
  send handler w = (Returned (JsonAnswer response), w').
Proof. intros H. unfold send, bind. now rewrite H. Qed.

(** C3, as the code has it: on [POST /trigger] and [GET /status] a request
    whose [Authorization] header is absent or empty is answered 401 with an
    [error] field; one whose token, after an optional ["Bearer "] prefix is
    taken off, differs from the inbound secret is answered 403 with an
    [error] field; in both cases the handler is not run and the world is
    as before; a request whose token equals the secret goes on to the
    handler.  All this for a request whose body the JSON parser lets
    through: the two routes are [authenticateRequest] followed by their
    handler.  A request whose body the parser refuses reaches neither: it is
    answered with the error page of the parser's status, and at most the
    console changes. *)
Theorem protected_routes_authenticate (cfg : Config) (env_setting : string)
    (req : IncomingRequest) (next : JS HttpResponse) (w : World) :
  (truthy (authorization req) = false ->
   authenticateRequest cfg req next w
   = (Returned (mkHttpResponse 401
                  (JsonObject [("error",
                                JsonString "Authorization header required")])),
      w))
  /\ (forall h, authorization req = JString h -> h <> "" ->
        presented_token h <> serverAuthToken cfg ->
        authenticateRequest cfg req next w
        = (Returned (mkHttpResponse 403
                       (JsonObject [("error", JsonString "Invalid token")])),
           w))
  /\ (forall h, authorization req = JString h -> h <> "" ->
        presented_token h = serverAuthToken cfg ->
        authenticateRequest cfg req next w = next w)
  /\ (json_body req = BodyAccepted -> route req = POST_trigger ->
      app cfg env_setting req
      = send (authenticateRequest cfg req (trigger_handler cfg)))
  /\ (json_body req = BodyAccepted -> route req = GET_status ->
      app cfg env_setting req
      = send (authenticateRequest cfg req (status_handler cfg)))
  /\ (forall response w',
        authenticateRequest cfg req next w = (Returned response, w') ->
        send (authenticateRequest cfg req next) w
        = (Returned (JsonAnswer response), w'))
  /\ (forall status stack,
        json_body req = BodyRefused status stack ->
        app cfg env_setting req w
        = (Returned (ErrorPage (error_status status)),
           if env_setting =? "test" then w
           else with_lines [ConsoleError [stack]] w)).
Proof.
  split; [|split; [|split; [|split; [|split; [|split]]]]].
  - intros H. rewrite authenticateRequest_cases, H. reflexivity.
  - intros h Hauth Hne Htoken. rewrite authenticateRequest_cases, Hauth.
    simpl. apply truthy_string_true in Hne. rewrite Hne.
    apply String.eqb_neq in Htoken. now rewrite Htoken.
  - intros h. apply authenticateRequest_passes.
  - intros Hb H. rewrite app_accepted by assumption. unfold routes.
    now rewrite H.
  - intros Hb H. rewrite app_accepted by assumption. unfold routes.
    now rewrite H.
  - intros response w'. apply send_returned.
  - intros status stack. apply app_refused.
Qed.

Lemma protected_routes_authenticate_witness :
  app Sample.server_config "development"
      (mkIncomingRequest POST_trigger JUndefined BodyAccepted) Sample.world
  = (Returned
       (JsonAnswer
          (mkHttpResponse 401
             (JsonObject [("error",
                           JsonString "Authorization header required")]))),
     Sample.world)
  /\ app Sample.server_config "development"
         (mkIncomingRequest GET_status (JString "Bearer guess") BodyAccepted)
         Sample.world
     = (Returned
          (JsonAnswer
             (mkHttpResponse 403
                (JsonObject [("error", JsonString "Invalid token")]))),
        Sample.world)
  /\ app Sample.server_config "development"
         (mkIncomingRequest GET_status (JString "Bearer letmein") BodyAccepted)
         Sample.world
     = send (status_handler Sample.server_config) Sample.world
  /\ app Sample.server_config "development"
         (mkIncomingRequest GET_status (JString "Bearer letmein")
            (BodyRefused 400 "SyntaxError: Unexpected end of JSON input"))
         Sample.world
     = (Returned (ErrorPage 400),
        with_lines
          [ConsoleError ["SyntaxError: Unexpected end of JSON input"]]
          Sample.world).
Proof.
  split; [|split; [|split]].
  - destruct (protected_routes_authenticate Sample.server_config "development"
                (mkIncomingRequest POST_trigger JUndefined BodyAccepted)
                (trigger_handler Sample.server_config) Sample.world)
      as (H401 & _ & _ & Happ & _ & Hsend & _).
    rewrite (Happ eq_refl eq_refl). apply Hsend. apply H401. reflexivity.
  - destruct (protected_routes_authenticate Sample.server_config "development"
                (mkIncomingRequest GET_status (JString "Bearer guess")
                   BodyAccepted)
                (status_handler Sample.server_config) Sample.world)
      as (_ & H403 & _ & _ & Happ & Hsend & _).
    rewrite (Happ eq_refl eq_refl). apply Hsend.
    apply (H403 "Bearer guess"); [reflexivity | discriminate | discriminate].
  - destruct (protected_routes_authenticate Sample.server_config "development"
                (mkIncomingRequest GET_status (JString "Bearer letmein")
                   BodyAccepted)
                (status_handler Sample.server_config) Sample.world)
      as (_ & _ & Hpass & _ & Happ & _).
    rewrite (Happ eq_refl eq_refl). unfold send, bind.
    rewrite (Hpass "Bearer letmein");
      [reflexivity | reflexivity | discriminate | reflexivity].
  - destruct (protected_routes_authenticate Sample.server_config "development"
                (mkIncomingRequest GET_status (JString "Bearer letmein")
                   (BodyRefused 400
                      "SyntaxError: Unexpected end of JSON input"))
                (status_handler Sample.server_config) Sample.world)
      as (_ & _ & _ & _ & _ & _ & Hrefused).
    apply (Hrefused 400 "SyntaxError: Unexpected end of JSON input").
    reflexivity.
Defined.

(** C3 fails on a header that is present and empty: its token, the empty
    string, differs from the secret, yet the answer is 401, not 403. *)
Lemma empty_header_answered_401 :
  let req := mkIncomingRequest POST_trigger (JString "") BodyAccepted in
  authorization req <> JUndefined
  /\ presented_token (toString (authorization req))
     <> serverAuthToken Sample.server_config
  /\ fst (app Sample.server_config "development" req Sample.world)
     = Returned
         (JsonAnswer
            (mkHttpResponse 401
               (JsonObject [("error",
                             JsonString "Authorization header required")])))
  /\ fst (app Sample.server_config "development" req Sample.world)
     <> Returned
          (JsonAnswer
             (mkHttpResponse 403
                (JsonObject [("error", JsonString "Invalid token")]))).
Proof.
  cbv zeta. split; [discriminate|]. split; [discriminate|].
  split; [reflexivity | discriminate].
Qed.




End ControlSurfaceClaims.

(** * Start-up *)

Section StartupClaims.





Section Parsers.

Variable JSON_parse_endpoints : string -> Result (list string).
Variable JSON_parse_literal : string -> Result (list Broadcast.QueryParam).
Variable JSON_parse_ranged : string -> Result (list Server.QueryParam).
Variable cron_validate : string -> Result unit.
Variable listen_check : string -> Result unit.




End Parsers.



(** A port [app.listen] refuses: the task is registered, then the process
    ends. *)
Example server_refused_port :
  Server.main Sample.parse_empty Sample.parse_empty Sample.cron_validate
    Sample.listen_check
    (mkEnv (JString "*/5 * * * *") (JString "https://h") JUndefined
           (JString "letmein") JUndefined JUndefined JUndefined
           (JString "99999"))
  = ([CronScheduled "*/5 * * * *";
      Stderr ["options.port should be >= 0 and < 65536. Received '99999'."];
      ProcessExit 1], None).
Proof. reflexivity. Qed.

End StartupClaims.

(** * A cycle of [src/index.js], run *)

Section BroadcastRun.

Import Broadcast BroadcastSpec.

Lemma broadcast_cycle_settles_witness :
  (exists lines,
     cron_callback Sample.broadcast_config [2; 0; 1]%nat Sample.world
     = (Returned (Completed [Fulfilled; Fulfilled; Fulfilled]),
        with_calls (map (request_for Sample.broadcast_config) ["a"; "b"; "c"])
          (with_lines
             (opening_lines Sample.broadcast_config
                ++ map (announcement Sample.broadcast_config) ["a"; "b"; "c"]
                ++ lines ++ [closing_line Sample.broadcast_config])
             Sample.world))
     /\ Permutation lines
          (outcomes Sample.broadcast_config Sample.transport 0 ["a"; "b"; "c"])
     /\ List.length lines = 3%nat)
  /\ (exists tasks lines,
        cron_callback Sample.broadcast_config [2; 0]%nat Sample.world
        = (Returned (Waiting tasks),
           with_calls (map (request_for Sample.broadcast_config) ["a"; "b"; "c"])
             (with_lines
                (opening_lines Sample.broadcast_config
                   ++ map (announcement Sample.broadcast_config) ["a"; "b"; "c"]
                   ++ lines)
                Sample.world))
        /\ List.length tasks = 3%nat
        /\ (List.length lines < 3)%nat).
Proof.
  split.
  - destruct (broadcast_cycle_settles Sample.broadcast_config [2; 0; 1]%nat
                Sample.world) as [H _]; [discriminate|].
    apply H. simpl. intros i Hi.
    destruct i as [|[|[|i]]]; [auto | auto | auto | lia].
  - destruct (broadcast_cycle_settles Sample.broadcast_config [2; 0]%nat
                Sample.world) as [_ H]; [discriminate|].
    apply H. exists 1%nat. simpl. split; [lia|].
    intros [H1|[H1|[]]]; discriminate.
Defined.

(** The console after the cycle above: the second call fails in transit,
    the calls arrive in the order third, first, second. *)
Example broadcast_cycle_console :
  console (snd (cron_callback Sample.broadcast_config [2; 0; 1]%nat Sample.world))
  = [ConsoleLog ["Starting cron job - calling 3 endpoint(s)"];
     ConsoleLog ["Using 4 query parameter(s)"];
     ConsoleLog ["Making request to: https://h/a?x=5&q%20r=a%26b"];
     ConsoleLog ["Making request to: https://h/b?x=5&q%20r=a%26b"];
     ConsoleLog ["Making request to: https://h/c?x=5&q%20r=a%26b"];
     ConsoleLog ["https://h/c?x=5&q%20r=a%26b - 200 OK"];
     ConsoleLog ["https://h/a?x=5&q%20r=a%26b - 200 OK"];
     ConsoleError ["Error making request to b:"; "fetch failed"];
     ConsoleLog ["Cron job completed - called 3 endpoint(s)"]].
Proof. reflexivity. Qed.

End BroadcastRun.

(** * Runs of the server script *)

Section ServerRun.

Import Server ServerSpec.

(** A tick on the sample configuration: endpoint ["b"] is drawn, then the
    two parameters that have a key. *)
Example server_tick_answered :
  cron_tick Sample.server_config Sample.world
  = (Returned (mkDispatchOutcome true "https://h/b?x=10&page%20size=1" 200
                 JUndefined),
     with_calls
       [mkRequest "https://h/b?x=10&page%20size=1" "GET"
          [("Content-Type", "application/json");
           ("User-Agent", "CronJob/1.0.0")]]
       (with_lines
          [ConsoleLog ["Making request to: https://h/b?x=10&page%20size=1"];
           ConsoleLog ["https://h/b?x=10&page%20size=1 - 200 OK"]]
          (advance 3 Sample.world))).
Proof. reflexivity. Qed.

(** The same tick with the network down. *)
Example server_tick_rejected :
  fst (cron_tick Sample.server_config Sample.offline)
  = Returned (mkDispatchOutcome false "" 0 (JString "fetch failed"))
  /\ console (snd (cron_tick Sample.server_config Sample.offline))
     = [ConsoleLog ["Making request to: https://h/b?x=10&page%20size=1"];
        ConsoleError ["Error making request:"; "fetch failed"]].
Proof. split; reflexivity. Qed.

(** A manual trigger answers with the outcome as JSON. *)
Example trigger_answer :
  fst (app Sample.server_config "development"
           (mkIncomingRequest POST_trigger (JString "Bearer letmein")
              BodyAccepted)
           Sample.offline)
  = Returned
      (JsonAnswer
         (mkHttpResponse 200
            (JsonObject
               [("message", JsonString "Cron job triggered manually");
                ("result",
                 JsonObject [("success", JsonBool false);
                             ("url", JsonString "");
                             ("status", JsonNumber 0);
                             ("error", JsonString "fetch failed")]);
                ("timestamp", JsonString "2024-01-01T00:00:00.000Z")]))).
Proof. reflexivity. Qed.

(** The same trigger with a body that is not JSON: the parser's error is
    answered and logged, the dispatcher is not run. *)
Example trigger_refused :
  app Sample.server_config "development"
      (mkIncomingRequest POST_trigger (JString "Bearer letmein")
         (BodyRefused 400 "SyntaxError: Unexpected token"))
      Sample.offline
  = (Returned (ErrorPage 400),
     with_lines [ConsoleError ["SyntaxError: Unexpected token"]]
                Sample.offline).
Proof. reflexivity. Qed.

(** A path no route is registered for. *)
Example unknown_route_answer :
  app Sample.server_config "development"
      (mkIncomingRequest Unrouted JUndefined BodyAccepted) Sample.world
  = (Returned (ErrorPage 404), Sample.world).
Proof. reflexivity. Qed.

End ServerRun.

(** * Further facts: the query string and the URL *)

Section QueryStringFacts.

Lemma hexDigit_unescaped (n : N) : uriUnescaped (hexDigit n) = true.
Proof.
  destruct n as [|p]; [reflexivity|].
  do 4 (destruct p as [p|p|]; try reflexivity).
Qed.

Lemma occurrences_escaped (c : ascii) (s : string) :
  uriUnescaped c = false -> c <> "%"%char ->
  occurrences c (encodeURIComponent s) = 0%nat.
Proof.
  intros Hc Hpct. apply occurrences_encodeURIComponent; try assumption.
  intros n E. rewrite <- E, hexDigit_unescaped in Hc. discriminate.
Qed.

Lemma all_chars_append (test : ascii -> bool) (s t : string) :
  all_chars test (s ++ t) = all_chars test s && all_chars test t.
Proof.
  induction s as [|c s IH]; simpl; [reflexivity|].
  now rewrite IH, andb_assoc.
Qed.

Lemma all_chars_weaken (test test' : ascii -> bool) (s : string) :
  (forall c, test c = true -> test' c = true) ->
  all_chars test s = true -> all_chars test' s = true.
Proof.
  intros Himp. induction s as [|c s IH]; simpl; [reflexivity|].
  rewrite !andb_true_iff. intros [Hc Hs]. split; auto.
Qed.

Lemma all_chars_occurrences (test : ascii -> bool) (c : ascii) (s : string) :
  all_chars test s = true -> test c = false -> occurrences c s = 0%nat.
Proof.
  intros Hs Hc. induction s as [|d s IH]; simpl in *; [reflexivity|].
  apply andb_true_iff in Hs as [Hd Hs]. rewrite (IH Hs).
  destruct (Ascii.eqb_spec c d) as [->|_]; [congruence | reflexivity].
Qed.

(** The output of [encodeURIComponent] is made of unreserved characters and
    escapes. *)
Lemma all_chars_encodeURIComponent (s : string) :
  all_chars (fun c => uriUnescaped c || Ascii.eqb c "%") (encodeURIComponent s)
  = true.
Proof.
  induction s as [|c s IH]; simpl; [reflexivity|].
  rewrite all_chars_append, IH, andb_true_r.
  destruct (uriUnescaped c) eqn:Hc; simpl.
  - now rewrite Hc.
  - now rewrite !hexDigit_unescaped.
Qed.

Lemma all_chars_encoded_pair (k v : string) :
  all_chars query_char (encoded_pair k v) = true.
Proof.
  assert (H : forall s, all_chars query_char (encodeURIComponent s) = true).
  { intros s. eapply all_chars_weaken; [|apply all_chars_encodeURIComponent].
    intros c Hc. unfold query_char. simpl.
    apply orb_true_iff in Hc as [-> | ->]; [reflexivity | apply orb_true_r]. }
  unfold encoded_pair. rewrite !all_chars_append, !H. reflexivity.
Qed.

Lemma join_cons2 (sep x y : string) (rest : list string) :
  join sep (x :: y :: rest) = x ++ sep ++ join sep (y :: rest).
Proof. reflexivity. Qed.

Lemma all_chars_join (test : ascii -> bool) (sep : string)
    (parts : list string) :
  all_chars test sep = true ->
  Forall (fun p => all_chars test p = true) parts ->
  all_chars test (join sep parts) = true.
Proof.
  intros Hsep. induction 1 as [|p rest Hp Hrest IH]; [reflexivity|].
  destruct rest as [|q rest]; [exact Hp|].
  rewrite join_cons2, !all_chars_append, Hp, Hsep, IH. reflexivity.
Qed.

(** A character other than the separator occurs in a joined string as often
    as in its parts together. *)
Lemma occurrences_join_other (c d : ascii) (parts : list string) :
  c <> d ->
  occurrences c (join (String d "") parts)
  = list_sum (map (occurrences c) parts).
Proof.
  intros Hcd. induction parts as [|p rest IH]; [reflexivity|].
  destruct rest as [|q rest]; [simpl; lia|].
  rewrite join_cons2, !occurrences_append, IH.
  simpl. destruct (Ascii.eqb_spec c d); [contradiction | lia].
Qed.

Lemma one_eq_encoded_pair (k v : string) :
  occurrences "=" (encoded_pair k v) = 1%nat.
Proof.
  unfold encoded_pair.
  rewrite !occurrences_append, !occurrences_escaped;
    [reflexivity | reflexivity | discriminate | reflexivity | discriminate].
Qed.

Lemma list_sum_ones {A} (f : A -> nat) (l : list A) :
  (forall x, f x = 1%nat) -> list_sum (map f l) = List.length l.
Proof.
  intros H. induction l as [|x l IH]; simpl; [reflexivity|].
  now rewrite H, IH.
Qed.

Lemma eq_count_joined_pairs {A} (pair : A -> string) (l : list A) :
  (forall x, occurrences "=" (pair x) = 1%nat) ->
  occurrences "=" (join "&" (map pair l)) = List.length l.
Proof.
  intros H. rewrite occurrences_join_other by discriminate.
  rewrite map_map. now apply list_sum_ones.
Qed.

Lemma buildURL_JString (baseURL endpoint queryString : string) :
  buildURL baseURL (JString endpoint) queryString
  = baseURL
      ++ (if endpoint =? "" then "" else "/" ++ endpoint)
      ++ (if queryString =? "" then "" else "?" ++ queryString).
Proof.
  unfold buildURL, truthy, truthy_string.
  destruct (endpoint =? ""), (queryString =? ""); simpl;
    rewrite ?append_nil_r, ?append_assoc; reflexivity.
Qed.

Lemma prefix_append (s t : string) : String.prefix s (s ++ t) = true.
Proof.
  induction s as [|c s IH]; simpl; [now destruct t|].
  destruct (ascii_dec c c); [exact IH | congruence].
Qed.

End QueryStringFacts.

Section QueryStringProperties.

Lemma literal_query_string_facts (arr : list Broadcast.QueryParam) :
  all_chars query_char (Broadcast.buildQueryParams (Some arr)) = true
  /\ occurrences "=" (Broadcast.buildQueryParams (Some arr))
     = List.length (filter BroadcastSpec.included arr).
Proof.
  rewrite buildQueryParams_spec. split.
  - apply all_chars_join; [reflexivity|].
    apply Forall_map, Forall_forall. intros param _.
    apply all_chars_encoded_pair.
  - apply eq_count_joined_pairs. intros param. apply one_eq_encoded_pair.
Qed.

(** X1: the query string [buildQueryParams] and the server's
    [getRandomQueryParams] build holds only characters that
    [encodeURIComponent] leaves alone, ["%"], ["="] and ["&"]; in particular
    no ["?"], ["#"], ["/"] or blank. *)
Theorem query_string_is_url_safe :
  (forall arr : list Broadcast.QueryParam,
     all_chars query_char (Broadcast.buildQueryParams (Some arr)) = true)
  /\ (forall (arr : list Server.QueryParam) (w : World),
        exists query,
          fst (Server.getRandomQueryParams (Some arr) w) = Returned query
          /\ all_chars query_char query = true)
  /\ forallb (fun c => negb (query_char c)) ["?"; "#"; "/"; " "; "+"]%char
     = true.
Proof.
  split; [|split; [|reflexivity]].
  - intros arr. rewrite buildQueryParams_spec.
    apply all_chars_join; [reflexivity|].
    apply Forall_map, Forall_forall. intros param _.
    apply all_chars_encoded_pair.
  - intros arr w. eexists. rewrite Server_getRandomQueryParams_spec.
    split; [reflexivity|].
    apply all_chars_join; [reflexivity|].
    apply Forall_map, Forall_forall. intros pv _.
    apply all_chars_encoded_pair.
Qed.

(** X2: the query string holds exactly one ["="] for each parameter let
    through, in [src/index.js] and in the server script: a key or value
    containing ["="] cannot forge a pair. *)
Theorem query_string_one_eq_per_pair :
  (forall arr : list Broadcast.QueryParam,
     occurrences "=" (Broadcast.buildQueryParams (Some arr))
     = List.length (filter BroadcastSpec.included arr))
  /\ (forall (arr : list Server.QueryParam) (w : World),
        exists query,
          fst (Server.getRandomQueryParams (Some arr) w) = Returned query
          /\ occurrences "=" query
             = List.length (filter ServerSpec.included arr)).
Proof.
  split.
  - intros arr. rewrite buildQueryParams_spec.
    apply eq_count_joined_pairs. intros param. apply one_eq_encoded_pair.
  - intros arr w. eexists. rewrite Server_getRandomQueryParams_spec.
    split; [reflexivity|].
    rewrite eq_count_joined_pairs by (intros pv; apply one_eq_encoded_pair).
    now rewrite <- (Server_sampled_params arr (random w) (drawn w)), length_map.
Qed.

(** X3: the URL [makeRequest] builds for an endpoint gains exactly one
    ["?"] when at least one parameter has a key and a value, and none
    otherwise; the query string never brings a ["?"] or a ["#"] of its own. *)
Theorem request_url_question_marks (baseURL endpoint : string)
    (arr : list Broadcast.QueryParam) :
  let url := buildURL baseURL (JString endpoint)
               (Broadcast.buildQueryParams (Some arr)) in
  occurrences "?" url
  = (occurrences "?" baseURL + occurrences "?" endpoint
     + (if existsb BroadcastSpec.included arr then 1 else 0))%nat
  /\ occurrences "#" url
     = (occurrences "#" baseURL + occurrences "#" endpoint)%nat
  /\ (existsb BroadcastSpec.included arr = false ->
      url = buildURL baseURL (JString endpoint) "").
Proof.
  intros url. subst url.
  destruct (literal_query_string_facts arr) as [Hsafe Hcount].
  set (q := Broadcast.buildQueryParams (Some arr)) in *.
  assert (Hq : (q =? "") = negb (existsb BroadcastSpec.included arr)).
  { destruct (existsb BroadcastSpec.included arr) eqn:Hex; simpl.
    - apply String.eqb_neq. intros E. rewrite E in Hcount. simpl in Hcount.
      apply existsb_exists in Hex as (param & Hin & Hinc).
      assert (In param (filter BroadcastSpec.included arr))
        by (apply filter_In; now split).
      destruct (filter BroadcastSpec.included arr); [easy | discriminate].
    - apply String.eqb_eq. subst q. rewrite buildQueryParams_spec.
      replace (filter BroadcastSpec.included arr) with (@nil Broadcast.QueryParam);
        [reflexivity|].
      symmetry. clear -Hex. induction arr as [|p rest IH]; [reflexivity|].
      simpl in *. apply orb_false_iff in Hex as [Hp Hrest].
      rewrite Hp. now apply IH. }
  rewrite buildURL_JString, Hq.
  assert (Hmark : occurrences "?" q = 0%nat)
    by (eapply all_chars_occurrences; [exact Hsafe | reflexivity]).
  assert (Hhash : occurrences "#" q = 0%nat)
    by (eapply all_chars_occurrences; [exact Hsafe | reflexivity]).
  split; [|split].
  - rewrite !occurrences_append.
    destruct (endpoint =? "") eqn:He;
      [apply String.eqb_eq in He; subst endpoint|];
      destruct (existsb BroadcastSpec.included arr); simpl;
      rewrite ?occurrences_append, ?Hmark; simpl; lia.
  - rewrite !occurrences_append.
    destruct (endpoint =? "") eqn:He;
      [apply String.eqb_eq in He; subst endpoint|];
      destruct (existsb BroadcastSpec.included arr); simpl;
      rewrite ?occurrences_append, ?Hhash; simpl; lia.
  - intros Hex. rewrite Hex. simpl. now rewrite buildURL_JString.
Qed.

End QueryStringProperties.

(** * Further facts: start-up *)

Section StartupProperties.

Variable JSON_parse_endpoints : string -> Result (list string).
Variable JSON_parse_literal : string -> Result (list Broadcast.QueryParam).
Variable JSON_parse_ranged : string -> Result (list Server.QueryParam).
Variable cron_validate : string -> Result unit.
Variable listen_check : string -> Result unit.

(** X4: which error the operator sees.  A missing required variable is
    reported before any JSON is looked at, so the message is the
    missing-variable one whatever the JSON variables hold; with the required
    variables set, a malformed endpoint array is reported with the parser's
    message whatever the parameter variable holds, and a malformed parameter
    array is reported only when the endpoint array parsed. *)
Theorem startup_error_precedence (env : Env) :
  (truthy (CRON_TIMER env) = false \/ truthy (BASE_URL env) = false ->
   Broadcast.main JSON_parse_endpoints JSON_parse_literal cron_validate env
   = ([Stderr ["Missing required environment variables: CRON_TIMER and BASE_URL"];
       ProcessExit 1], None))
  /\ (truthy (CRON_TIMER env) = false \/ truthy (BASE_URL env) = false
      \/ truthy (SERVER_AUTH_TOKEN env) = false ->
      Server.main JSON_parse_endpoints JSON_parse_ranged cron_validate
            listen_check env
      = ([Stderr ["Missing required environment variables"]; ProcessExit 1],
         None))
  /\ (forall message,
        truthy (CRON_TIMER env) = true -> truthy (BASE_URL env) = true ->
        truthy (ENDPOINTS env) = true ->
        JSON_parse_endpoints (toString (ENDPOINTS env)) = Thrown message ->
        Broadcast.main JSON_parse_endpoints JSON_parse_literal cron_validate env
        = ([Stderr ["Error parsing JSON from environment variables:"; message];
            ProcessExit 1], None)
        /\ (truthy (SERVER_AUTH_TOKEN env) = true ->
            Server.main JSON_parse_endpoints JSON_parse_ranged cron_validate
            listen_check env
            = ([Stderr ["Error parsing JSON from environment variables:";
                        message];
                ProcessExit 1], None)))
  /\ (forall endpoints message,
        truthy (CRON_TIMER env) = true -> truthy (BASE_URL env) = true ->
        parse_or_empty JSON_parse_endpoints (ENDPOINTS env) = Returned endpoints ->
        truthy (QUERY_PARAMS env) = true ->
        JSON_parse_literal (toString (QUERY_PARAMS env)) = Thrown message ->
        Broadcast.main JSON_parse_endpoints JSON_parse_literal cron_validate env
        = ([Stderr ["Error parsing JSON from environment variables:"; message];
            ProcessExit 1], None)).
Proof.
  split; [|split; [|split]].
  - intros H. unfold Broadcast.main.
    destruct H as [-> | ->]; simpl; [reflexivity|].
    now rewrite orb_true_r.
  - intros H. unfold Server.main.
    destruct H as [-> | [-> | ->]]; simpl; rewrite ?orb_true_r; reflexivity.
  - intros message Hc Hb He Hp. split.
    + unfold Broadcast.main, Broadcast.parse_env, parse_or_empty.
      now rewrite Hc, Hb, He, Hp.
    + intros Hs. unfold Server.main, Server.parse_env, parse_or_empty.
      now rewrite Hc, Hb, Hs, He, Hp.
  - intros endpoints message Hc Hb He Hq Hp.
    unfold Broadcast.main, Broadcast.parse_env.
    rewrite Hc, Hb, He. unfold parse_or_empty. now rewrite Hq, Hp.
Qed.

(** X5: what a process that did start can rely on.  When the top level
    hands a configuration to the callbacks, the schedule expression and the
    base URL in it are non-empty, the scheduler was registered with that
    expression and nothing was written to the error stream; in the server
    script the inbound secret is non-empty as well and the server listens
    on [PORT], which is ["3000"] unless the variable is set and non-empty. *)
Theorem started_configuration_is_complete (env : Env) :
  (forall cfg,
     snd (Broadcast.main JSON_parse_endpoints JSON_parse_literal
            cron_validate env) = Some cfg ->
     Broadcast.cronTimer cfg <> "" /\ Broadcast.baseURL cfg <> ""
     /\ Broadcast.cronSecret cfg = CRON_SECRET env
     /\ fst (Broadcast.main JSON_parse_endpoints JSON_parse_literal
               cron_validate env)
        = [CronScheduled (Broadcast.cronTimer cfg)])
  /\ (forall cfg,
        snd (Server.main JSON_parse_endpoints JSON_parse_ranged
               cron_validate listen_check env) = Some cfg ->
        Server.cronTimer cfg <> "" /\ Server.baseURL cfg <> ""
        /\ Server.serverAuthToken cfg <> ""
        /\ Server.clientAuthToken cfg = CLIENT_AUTH_TOKEN env
        /\ Server.PORT cfg
           = (if truthy (ENV_PORT env) then toString (ENV_PORT env) else "3000")
        /\ Server.PORT cfg <> ""
        /\ fst (Server.main JSON_parse_endpoints JSON_parse_ranged
                  cron_validate listen_check env)
           = [CronScheduled (Server.cronTimer cfg);
              ServerListening (Server.PORT cfg)]).
Proof.
  assert (Hne : forall v, truthy v = true -> toString v <> "").
  { intros [|s] H; [discriminate|]. now apply truthy_string_true. }
  split.
  - intros cfg. unfold Broadcast.main.
    destruct (truthy (CRON_TIMER env)) eqn:Hc; [|discriminate].
    destruct (truthy (BASE_URL env)) eqn:Hb; [|discriminate].
    simpl. destruct (Broadcast.parse_env _ _ env) as [[e q]|m]; [|discriminate].
    destruct (cron_validate (toString (CRON_TIMER env))) as [u|m];
      [|discriminate].
    simpl. intros [= <-]. simpl. auto.
  - intros cfg. unfold Server.main.
    destruct (truthy (CRON_TIMER env)) eqn:Hc; [|discriminate].
    destruct (truthy (BASE_URL env)) eqn:Hb; [|discriminate].
    destruct (truthy (SERVER_AUTH_TOKEN env)) eqn:Hs; [|discriminate].
    simpl. destruct (Server.parse_env _ _ env) as [[e q]|m]; [|discriminate].
    destruct (cron_validate (toString (CRON_TIMER env))) as [u|m];
      [|discriminate].
    destruct (listen_check _) as [u'|m']; [|discriminate].
    simpl. intros [= <-]. simpl. repeat split; auto.
    destruct (truthy (ENV_PORT env)) eqn:Hp; [now apply Hne | discriminate].
Qed.

End StartupProperties.

Lemma startup_error_precedence_witness :
  Broadcast.main Sample.parse_empty Sample.parse_empty Sample.cron_validate
    (mkEnv JUndefined (JString "https://h") JUndefined JUndefined JUndefined
           (JString "[{") (JString "[{") JUndefined)
  = ([Stderr ["Missing required environment variables: CRON_TIMER and BASE_URL"];
      ProcessExit 1], None)
  /\ Server.main Sample.parse_empty Sample.parse_empty Sample.cron_validate
       Sample.listen_check
       (mkEnv (JString "*/5 * * * *") (JString "https://h") JUndefined
              (JString "") JUndefined JUndefined JUndefined JUndefined)
     = ([Stderr ["Missing required environment variables"]; ProcessExit 1],
        None)
  /\ Broadcast.main Sample.parse_empty Sample.parse_empty Sample.cron_validate
       (mkEnv (JString "*/5 * * * *") (JString "https://h") JUndefined
              JUndefined JUndefined (JString "[{") (JString "[}") JUndefined)
     = ([Stderr ["Error parsing JSON from environment variables:";
                 "Unexpected token"];
         ProcessExit 1], None)
  /\ Broadcast.main Sample.parse_empty Sample.parse_empty Sample.cron_validate
       (mkEnv (JString "*/5 * * * *") (JString "https://h") JUndefined
              JUndefined JUndefined (JString "[]") (JString "[}") JUndefined)
     = ([Stderr ["Error parsing JSON from environment variables:";
                 "Unexpected token"];
         ProcessExit 1], None).
Proof.
  split; [|split; [|split]].
  - apply (startup_error_precedence Sample.parse_empty Sample.parse_empty
             (@Sample.parse_empty Server.QueryParam) Sample.cron_validate
             Sample.listen_check).
    left. reflexivity.
  - apply (startup_error_precedence Sample.parse_empty
             (@Sample.parse_empty Broadcast.QueryParam) Sample.parse_empty
             Sample.cron_validate Sample.listen_check).
    right. right. reflexivity.
  - apply (startup_error_precedence Sample.parse_empty Sample.parse_empty
             (@Sample.parse_empty Server.QueryParam) Sample.cron_validate
             Sample.listen_check);
      reflexivity.
  - apply (startup_error_precedence Sample.parse_empty Sample.parse_empty
             (@Sample.parse_empty Server.QueryParam) Sample.cron_validate
             Sample.listen_check)
      with (endpoints := []);
      reflexivity.
Defined.

Lemma started_configuration_is_complete_witness :
  Server.serverAuthToken
    (Server.mkConfig "8080" "*/5 * * * *" "https://h" "letmein" JUndefined [] [])
  <> ""
  /\ Broadcast.baseURL
       (Broadcast.mkConfig "*/5 * * * *" "https://h" JUndefined [] [])
     <> "".
Proof.
  split.
  - apply (started_configuration_is_complete Sample.parse_empty
             (@Sample.parse_empty Broadcast.QueryParam) Sample.parse_empty
             Sample.cron_validate Sample.listen_check
             (mkEnv (JString "*/5 * * * *") (JString "https://h") JUndefined
                    (JString "letmein") JUndefined JUndefined JUndefined
                    (JString "8080"))).
    reflexivity.
  - apply (started_configuration_is_complete Sample.parse_empty
             Sample.parse_empty (@Sample.parse_empty Server.QueryParam)
             Sample.cron_validate Sample.listen_check Sample.env).
    reflexivity.
Defined.

(** * Further facts: the control surface *)

Section ControlSurfaceProperties.

Import Server ServerSpec.

Lemma length_slice (n : nat) (s : string) :
  String.length (slice n s) = (String.length s - n)%nat.
Proof.
  revert s. induction n as [|n IH]; intros s; simpl; [lia|].
  destruct s as [|c s]; simpl; [reflexivity | apply IH].
Qed.

Lemma prefix_length (p s : string) :
  String.prefix p s = true -> (String.length p <= String.length s)%nat.
Proof.
  revert s. induction p as [|c p IH]; intros s; [simpl; lia|].
  destruct s as [|d s]; simpl; [discriminate|].
  destruct (ascii_dec c d); [|discriminate].
  intros H. apply IH in H. lia.
Qed.

Lemma startsWith_Bearer (s : string) : startsWith "Bearer " ("Bearer " ++ s) = true.
Proof. unfold startsWith. simpl. now destruct s. Qed.

Lemma presented_token_Bearer (s : string) :
  presented_token ("Bearer " ++ s) = s.
Proof. unfold presented_token. now rewrite startsWith_Bearer. Qed.

Lemma authenticateRequest_authorised (cfg : Config) (req : IncomingRequest)
    (next : JS HttpResponse) (w : World) :
  authorised cfg req = true -> authenticateRequest cfg req next w = next w.
Proof.
  unfold authorised. rewrite andb_true_iff. intros [Ht He].
  rewrite authenticateRequest_cases, Ht, He. reflexivity.
Qed.

Lemma authenticateRequest_unauthorised (cfg : Config) (req : IncomingRequest)
    (next : JS HttpResponse) (w : World) :
  authorised cfg req = false ->
  exists resp,
    authenticateRequest cfg req next w = (Returned resp, w)
    /\ (statusCode resp = 401 \/ statusCode resp = 403).
Proof.
  unfold authorised. rewrite authenticateRequest_cases.
  destruct (truthy (authorization req)); simpl.
  - intros ->. simpl. eexists. split; [reflexivity | now right].
  - intros _. eexists. split; [reflexivity | now left].
Qed.

Lemma Server_main_secret (pe : string -> Result (list string))
    (pq : string -> Result (list QueryParam))
    (cv lc : string -> Result unit) (env : Env) (cfg : Config) :
  snd (main pe pq cv lc env) = Some cfg -> serverAuthToken cfg <> "".
Proof.
  unfold main.
  destruct (truthy (CRON_TIMER env)); [|discriminate].
  destruct (truthy (BASE_URL env)); [|discriminate].
  destruct (SERVER_AUTH_TOKEN env) as [|s] eqn:Hs; [discriminate|].
  simpl. destruct (truthy_string s) eqn:Ht; [|discriminate].
  simpl. destruct (parse_env pe pq env) as [[e q]|m]; [|discriminate].
  destruct (cv (toString (CRON_TIMER env))) as [u|m]; [|discriminate].
  destruct (lc _) as [u'|m']; [|discriminate].
  simpl. intros [= <-]. simpl. now apply truthy_string_true.
Qed.

(** X6: a server that started never lets an empty token through.  Whatever
    the environment it started from, a request to a protected route whose
    header is empty or is the bare scheme ["Bearer "] is answered 401 or
    403, and the handler behind the check is not run. *)
Theorem started_server_rejects_empty_token
    (pe : string -> Result (list string))
    (pq : string -> Result (list QueryParam))
    (cv lc : string -> Result unit) (env : Env) (cfg : Config)
    (req : IncomingRequest) (next : JS HttpResponse) (h : string) (w : World) :
  snd (main pe pq cv lc env) = Some cfg ->
  authorization req = JString h ->
  presented_token h = "" ->
  exists resp,
    authenticateRequest cfg req next w = (Returned resp, w)
    /\ (statusCode resp = 401 \/ statusCode resp = 403).
Proof.
  intros Hmain Hauth Htoken.
  apply authenticateRequest_unauthorised.
  unfold authorised. rewrite Hauth. simpl. rewrite Htoken.
  apply Server_main_secret in Hmain.
  apply not_eq_sym, String.eqb_neq in Hmain. rewrite Hmain.
  apply andb_false_r.
Qed.

Lemma started_server_rejects_empty_token_witness :
  exists resp,
    authenticateRequest
      (mkConfig "3000" "*/5 * * * *" "https://h" "letmein" JUndefined [] [])
      (mkIncomingRequest POST_trigger (JString "Bearer ") BodyAccepted)
      (trigger_handler
         (mkConfig "3000" "*/5 * * * *" "https://h" "letmein" JUndefined [] []))
      Sample.world
    = (Returned resp, Sample.world)
    /\ (statusCode resp = 401 \/ statusCode resp = 403).
Proof.
  apply (started_server_rejects_empty_token Sample.parse_empty
           Sample.parse_empty Sample.cron_validate Sample.listen_check
           (mkEnv (JString "*/5 * * * *") (JString "https://h") JUndefined
                  (JString "letmein") JUndefined JUndefined JUndefined
                  JUndefined)
           _ _ _ "Bearer "); reflexivity.
Defined.

(** X7: the secret may be presented with the ["Bearer "] scheme or bare.
    With the scheme it is always accepted; bare it is accepted unless the
    secret itself begins with ["Bearer "], in which case the prefix is taken
    off the secret and the request is answered 403. *)
Theorem secret_accepted_bearer_or_raw (cfg : Config) (req : IncomingRequest)
    (next : JS HttpResponse) (w : World) :
  serverAuthToken cfg <> "" ->
  (authorization req = JString ("Bearer " ++ serverAuthToken cfg) ->
   authenticateRequest cfg req next w = next w)
  /\ (authorization req = JString (serverAuthToken cfg) ->
      startsWith "Bearer " (serverAuthToken cfg) = false ->
      authenticateRequest cfg req next w = next w)
  /\ (authorization req = JString (serverAuthToken cfg) ->
      startsWith "Bearer " (serverAuthToken cfg) = true ->
      authenticateRequest cfg req next w
      = (Returned (mkHttpResponse 403
                     (JsonObject [("error", JsonString "Invalid token")])),
         w)).
Proof.
  intros Hne. split; [|split].
  - intros Hauth.
    apply (authenticateRequest_passes cfg req next
             ("Bearer " ++ serverAuthToken cfg));
      [assumption | discriminate | apply presented_token_Bearer].
  - intros Hauth Hraw.
    apply (authenticateRequest_passes cfg req next (serverAuthToken cfg));
      [assumption | assumption |].
    unfold presented_token. now rewrite Hraw.
  - intros Hauth Hpre. rewrite authenticateRequest_cases, Hauth. simpl.
    apply truthy_string_true in Hne. rewrite Hne. simpl.
    unfold presented_token. rewrite Hpre.
    assert (Hdiff : slice 7 (serverAuthToken cfg) <> serverAuthToken cfg).
    { intros E. apply (f_equal String.length) in E.
      rewrite length_slice in E.
      apply prefix_length in Hpre. simpl in Hpre. lia. }
    apply String.eqb_neq in Hdiff. now rewrite Hdiff.
Qed.

Lemma secret_accepted_bearer_or_raw_witness :
  authenticateRequest Sample.server_config
    (mkIncomingRequest GET_status (JString "Bearer letmein") BodyAccepted)
    (status_handler Sample.server_config) Sample.world
  = status_handler Sample.server_config Sample.world
  /\ authenticateRequest Sample.server_config
       (mkIncomingRequest GET_status (JString "letmein") BodyAccepted)
       (status_handler Sample.server_config) Sample.world
     = status_handler Sample.server_config Sample.world
  /\ authenticateRequest
       (mkConfig "3000" "*/5 * * * *" "https://h" "Bearer abc" JUndefined [] [])
       (mkIncomingRequest GET_status (JString "Bearer abc") BodyAccepted)
       (status_handler
          (mkConfig "3000" "*/5 * * * *" "https://h" "Bearer abc" JUndefined
             [] []))
       Sample.world
     = (Returned (mkHttpResponse 403
                    (JsonObject [("error", JsonString "Invalid token")])),
        Sample.world).
Proof.
  split; [|split].
  - destruct (secret_accepted_bearer_or_raw Sample.server_config
                (mkIncomingRequest GET_status (JString "Bearer letmein")
                   BodyAccepted)
                (status_handler Sample.server_config) Sample.world)
      as (H & _ & _); [discriminate|].
    apply H. reflexivity.
  - destruct (secret_accepted_bearer_or_raw Sample.server_config
                (mkIncomingRequest GET_status (JString "letmein") BodyAccepted)
                (status_handler Sample.server_config) Sample.world)
      as (_ & H & _); [discriminate|].
    apply H; reflexivity.
  - destruct (secret_accepted_bearer_or_raw
                (mkConfig "3000" "*/5 * * * *" "https://h" "Bearer abc"
                   JUndefined [] [])
                (mkIncomingRequest GET_status (JString "Bearer abc")
                   BodyAccepted)
                (status_handler
                   (mkConfig "3000" "*/5 * * * *" "https://h" "Bearer abc"
                      JUndefined [] []))
                Sample.world)
      as (_ & _ & H); [discriminate|].
    apply H; reflexivity.
Defined.

(** X8: the credential the dispatcher sends is one the control surface
    accepts.  The [Authorization] header of an outbound request is set
    exactly when the outbound credential is non-empty, its value always
    begins with ["Bearer "] once (a credential that already has the scheme
    is sent as it is), and a server whose inbound secret is that credential
    without the scheme lets a request with this header through. *)
Theorem outbound_credential_round_trip (client server : Config)
    (req : IncomingRequest) (next : JS HttpResponse) (w : World) :
  (truthy (clientAuthToken client) = false ->
   header_lookup "Authorization" (createRequestHeaders client) = None)
  /\ (forall t,
        clientAuthToken client = JString t -> t <> "" ->
        exists v,
          header_lookup "Authorization" (createRequestHeaders client) = Some v
          /\ startsWith "Bearer " v = true
          /\ presented_token v = presented_token t
          /\ (startsWith "Bearer " t = true -> v = t)
          /\ (serverAuthToken server = presented_token t ->
              authorization req = JString v ->
              authenticateRequest server req next w = next w)).
Proof.
  split.
  - intros H. unfold createRequestHeaders. now rewrite H.
  - intros t Ht Hne. unfold createRequestHeaders. rewrite Ht. simpl.
    apply truthy_string_true in Hne as Htruthy. rewrite Htruthy.
    destruct (startsWith "Bearer " t) eqn:Hpre.
    + exists t. repeat split; try assumption; try reflexivity.
      intros Hsecret Hauth.
      apply (authenticateRequest_passes server req next t); auto.
    + assert (Hbare : presented_token t = t)
        by (unfold presented_token; now rewrite Hpre).
      exists ("Bearer " ++ t).
      split; [reflexivity|]. split; [apply startsWith_Bearer|].
      split; [now rewrite presented_token_Bearer|]. split; [discriminate|].
      intros Hsecret Hauth.
      apply (authenticateRequest_passes server req next ("Bearer " ++ t));
        [assumption | discriminate |].
      now rewrite Hsecret, presented_token_Bearer.
Qed.

Lemma outbound_credential_round_trip_witness :
  header_lookup "Authorization" (createRequestHeaders Sample.server_config)
  = None
  /\ exists v,
       header_lookup "Authorization"
         (createRequestHeaders
            (mkConfig "3000" "*/5 * * * *" "https://h" "x" (JString "letmein")
               [] []))
       = Some v
       /\ authenticateRequest Sample.server_config
            (mkIncomingRequest GET_status (JString v) BodyAccepted)
            (status_handler Sample.server_config) Sample.world
          = status_handler Sample.server_config Sample.world.
Proof.
  split.
  - apply (outbound_credential_round_trip Sample.server_config
             Sample.server_config
             (mkIncomingRequest GET_status JUndefined BodyAccepted)
             (status_handler Sample.server_config) Sample.world).
    reflexivity.
  - destruct (outbound_credential_round_trip
                (mkConfig "3000" "*/5 * * * *" "https://h" "x"
                   (JString "letmein") [] [])
                Sample.server_config
                (mkIncomingRequest GET_status (JString "Bearer letmein")
                   BodyAccepted)
                (status_handler Sample.server_config) Sample.world)
      as [_ H].
    destruct (H "letmein" eq_refl ltac:(discriminate))
      as (v & Hv & _ & _ & _ & Hpass).
    exists v. split; [exact Hv|].
    vm_compute in Hv. injection Hv as <-.
    apply Hpass; reflexivity.
Defined.

(** X9: [GET /status] tells the truth about the outbound credential: the
    [hasClientAuth] it reports is [true] exactly when the request a
    dispatch sends carries an [Authorization] header. *)
Theorem status_agrees_with_outbound_header (cfg : Config) (w w0 : World) :
  exists rq outcome w' resp fields b,
    executeCronJob cfg w = (Returned outcome, w')
    /\ calls w' = (calls w ++ [rq])%list
    /\ fst (status_handler cfg w0) = Returned resp
    /\ body resp = JsonObject fields
    /\ json_field "hasClientAuth" fields = Some (JsonBool b)
    /\ (b = true
        <-> exists v, header_lookup "Authorization" (rq_headers rq) = Some v).
Proof.
  destruct (executeCronJob_spec cfg w) as (endpoint & k & Hrun & _).
  cbv zeta in Hrun.
  eexists _, _, _, _, _, _. split; [exact Hrun|].
  split; [reflexivity|]. split; [reflexivity|]. split; [reflexivity|].
  split; [reflexivity|].
  simpl. unfold createRequestHeaders.
  destruct (truthy (clientAuthToken cfg)); simpl; split.
  - intros _. eexists. reflexivity.
  - reflexivity.
  - discriminate.
  - intros [v Hv]. discriminate.
Qed.

(** X10: only an authorised [POST /trigger] reaches the dispatcher.  Such a
    request, its body let through by the JSON parser, issues exactly one
    outbound call; every other request whose body is let through, whatever
    its route and header, leaves the world as it was: no call, no console
    line, no sample drawn.  A request whose body the parser refuses, on any
    route and with any header, changes nothing but the console, where
    Express writes the error unless its [env] setting is ["test"]. *)
Theorem only_authorised_trigger_dispatches (cfg : Config)
    (env_setting : string) (req : IncomingRequest) (w : World) :
  match json_body req with
  | BodyAccepted =>
      if is_trigger (route req) && authorised cfg req
      then exists rq,
             calls (snd (app cfg env_setting req w)) = (calls w ++ [rq])%list
      else snd (app cfg env_setting req w) = w
  | BodyRefused status stack =>
      snd (app cfg env_setting req w)
      = if env_setting =? "test" then w
        else with_lines [ConsoleError [stack]] w
  end.
Proof.
  destruct (json_body req) as [|status stack] eqn:Hbody.
  - rewrite app_accepted by assumption. unfold routes, send.
    destruct (route req) eqn:Hroute; simpl; try reflexivity.
    + destruct (authorised cfg req) eqn:Hauth.
      * unfold bind at 1.
        rewrite authenticateRequest_authorised by assumption.
        destruct (executeCronJob_spec cfg w) as (endpoint & k & Hrun & _).
        cbv zeta in Hrun. unfold trigger_handler, bind. rewrite Hrun.
        eexists. reflexivity.
      * unfold bind.
        destruct (authenticateRequest_unauthorised cfg req
                    (trigger_handler cfg) w Hauth) as (resp & -> & _).
        reflexivity.
    + destruct (authorised cfg req) eqn:Hauth.
      * unfold bind at 1.
        rewrite authenticateRequest_authorised by assumption. reflexivity.
      * unfold bind.
        destruct (authenticateRequest_unauthorised cfg req
                    (status_handler cfg) w Hauth) as (resp & -> & _).
        reflexivity.
  - now rewrite (app_refused cfg env_setting req status stack w Hbody).
Qed.

(** X11: a manual trigger runs the very dispatch the scheduler runs.  An
    authorised [POST /trigger] whose body the JSON parser lets through
    leaves the world as a scheduler tick from the same world does and
    answers 200 with that tick's outcome as [result], also when the call
    failed; [result] has an [error] field exactly when the outcome has
    one. *)
Theorem trigger_runs_scheduler_dispatch (cfg : Config) (env_setting : string)
    (req : IncomingRequest) (w : World) :
  json_body req = BodyAccepted ->
  route req = POST_trigger -> authorised cfg req = true ->
  exists outcome w' fields,
    cron_tick cfg w = (Returned outcome, w')
    /\ app cfg env_setting req w
       = (Returned
            (JsonAnswer
               (mkHttpResponse 200
                  (JsonObject
                     [("message", JsonString "Cron job triggered manually");
                      ("result", JsonObject fields);
                      ("timestamp", JsonString (clock w))]))),
          w')
    /\ json_field "success" fields = Some (JsonBool (success outcome))
    /\ json_field "url" fields = Some (JsonString (url outcome))
    /\ json_field "status" fields = Some (JsonNumber (status outcome))
    /\ json_field "error" fields
       = match error outcome with
         | JUndefined => None
         | JString message => Some (JsonString message)
         end.
Proof.
  intros Hbody Hroute Hauth.
  destruct (executeCronJob_spec cfg w) as (endpoint & k & Hrun & _).
  cbv zeta in Hrun.
  eexists _, _, _. split; [exact Hrun|].
  rewrite app_accepted by assumption. unfold routes. rewrite Hroute.
  unfold send, bind at 1.
  rewrite authenticateRequest_authorised by assumption.
  unfold trigger_handler, bind. rewrite Hrun.
  split; [reflexivity|].
  destruct (outcome_of _) as [s u st [|m]]; simpl; repeat split; reflexivity.
Qed.

Lemma trigger_runs_scheduler_dispatch_witness :
  exists outcome w' fields,
    cron_tick Sample.server_config Sample.offline = (Returned outcome, w')
    /\ app Sample.server_config "production"
         (mkIncomingRequest POST_trigger (JString "letmein") BodyAccepted)
         Sample.offline
       = (Returned
            (JsonAnswer
               (mkHttpResponse 200
                  (JsonObject
                     [("message", JsonString "Cron job triggered manually");
                      ("result", JsonObject fields);
                      ("timestamp", JsonString (clock Sample.offline))]))),
          w')
    /\ json_field "success" fields = Some (JsonBool (success outcome))
    /\ json_field "url" fields = Some (JsonString (url outcome))
    /\ json_field "status" fields = Some (JsonNumber (status outcome))
    /\ json_field "error" fields
       = match error outcome with
         | JUndefined => None
         | JString message => Some (JsonString message)
         end.
Proof.
  apply trigger_runs_scheduler_dispatch; reflexivity.
Defined.

End ControlSurfaceProperties.

(** * Further facts: the cycle of [src/index.js] *)

Section BroadcastProperties.

Import Broadcast BroadcastSpec.

(** X12: what a tick puts on the wire.  Whatever the order in which calls
    settle, a tick issues one [GET] per configured endpoint, in the order of
    the array, each to [baseURL/endpoint] followed by the same query string
    and with the same headers; the URL begins with the base URL, the
    [X-Cron-Secret] header is there exactly when the secret is non-empty,
    and no random sample is drawn. *)
Theorem tick_requests (cfg : Config) (arrivals : list nat) (w : World) :
  let w' := snd (cron_callback cfg arrivals w) in
  calls w'
  = (calls w
       ++ map (fun endpoint =>
                 mkRequest
                   (buildURL (baseURL cfg) (JString endpoint)
                      (buildQueryParams (Some (queryParams cfg))))
                   "GET" (createRequestHeaders cfg))
              (endpoints cfg))%list
  /\ Forall (fun endpoint =>
               String.prefix (baseURL cfg)
                 (buildURL (baseURL cfg) (JString endpoint)
                    (buildQueryParams (Some (queryParams cfg))))
               = true)
            (endpoints cfg)
  /\ header_lookup "X-Cron-Secret" (createRequestHeaders cfg)
     = (if truthy (cronSecret cfg) then Some (toString (cronSecret cfg))
        else None)
  /\ header_lookup "Content-Type" (createRequestHeaders cfg)
     = Some "application/json"
  /\ header_lookup "User-Agent" (createRequestHeaders cfg)
     = Some "CronJob/1.0.0"
  /\ drawn w' = drawn w.
Proof.
  intros w'. subst w'.
  assert (Hrun : calls (snd (cron_callback cfg arrivals w))
                 = (calls w ++ map (request_for cfg) (endpoints cfg))%list
                 /\ drawn (snd (cron_callback cfg arrivals w)) = drawn w).
  { destruct (endpoints cfg) as [|e rest] eqn:E.
    - unfold cron_callback. rewrite E. simpl. now rewrite app_nil_r.
    - assert (Hne : endpoints cfg <> []) by (rewrite E; discriminate).
      pose proof (cron_callback_spec cfg arrivals w Hne) as H.
      cbv zeta in H. rewrite H.
      destruct (allSettled _); simpl; rewrite E; split; reflexivity. }
  destruct Hrun as [Hcalls Hdrawn].
  split; [exact Hcalls|]. split; [|split; [|split; [|split]]].
  - apply Forall_forall. intros endpoint _.
    rewrite buildURL_JString. apply prefix_append.
  - unfold createRequestHeaders.
    destruct (truthy (cronSecret cfg)); reflexivity.
  - unfold createRequestHeaders.
    destruct (truthy (cronSecret cfg)); reflexivity.
  - unfold createRequestHeaders.
    destruct (truthy (cronSecret cfg)); reflexivity.
  - exact Hdrawn.
Qed.

Lemma mark_comm (tasks : list Task) :
  forall i j, mark i (mark j tasks) = mark j (mark i tasks).
Proof.
  induction tasks as [|t rest IH]; intros [|i] [|j]; simpl;
    try reflexivity.
  now rewrite IH.
Qed.

Lemma line_at_mark_other (tasks : list Task) (i j : nat) :
  i <> j -> line_at j (mark i tasks) = line_at j tasks.
Proof.
  intros H. unfold line_at. now rewrite nth_error_mark_other.
Qed.

Lemma lines_all_mark_absent (later : list nat) :
  forall (tasks : list Task) (i : nat),
    ~ In i later -> lines_all later (mark i tasks) = lines_all later tasks.
Proof.
  induction later as [|j later IH]; intros tasks i Hnin; simpl;
    [reflexivity|].
  rewrite line_at_mark_other by (intros ->; apply Hnin; now left).
  rewrite mark_comm, IH; [reflexivity|].
  intros H. apply Hnin. now right.
Qed.

(** With no call arriving twice, every arrival writes the line of its own
    task. *)
Lemma lines_all_NoDup (arrivals : list nat) :
  forall tasks, NoDup arrivals ->
                lines_all arrivals tasks
                = flat_map (fun i => line_at i tasks) arrivals.
Proof.
  induction arrivals as [|i later IH]; intros tasks Hnd; simpl;
    [reflexivity|].
  inversion Hnd as [|? ? Hnin Hlater]; subst.
  now rewrite lines_all_mark_absent, IH.
Qed.

Lemma line_at_awaiting (tasks : list Task) (default : LogLine) :
  Forall (fun t => is_settled t = false) tasks ->
  forall i, (i < List.length tasks)%nat ->
            line_at i tasks = [nth i (pending_lines tasks) default].
Proof.
  induction 1 as [|t rest Ht _ IH]; intros i Hi; [simpl in Hi; lia|].
  destruct t as [e [r|p]]; [|discriminate].
  destruct i as [|i]; [reflexivity|].
  simpl in Hi. unfold line_at in *. simpl.
  apply IH. lia.
Qed.

(** X13: outcomes are written in the order the calls settle, not in the
    order of the endpoint array.  When every call of a cycle settles once,
    the console holds, after the opening lines and the announcements, the
    outcome line of the call that settled first, then of the second, and so
    on, and then the closing line. *)
Theorem outcomes_logged_in_arrival_order (cfg : Config) (arrivals : list nat)
    (w : World) :
  endpoints cfg <> [] ->
  NoDup arrivals ->
  (forall i, In i arrivals <-> (i < List.length (endpoints cfg))%nat) ->
  console (snd (cron_callback cfg arrivals w))
  = (console w
       ++ opening_lines cfg
       ++ map (announcement cfg) (endpoints cfg)
       ++ map (fun i =>
                 nth i (outcomes cfg (network w) (List.length (calls w))
                          (endpoints cfg))
                     (closing_line cfg))
              arrivals
       ++ [closing_line cfg])%list.
Proof.
  intros Hne Hnd Hcover.
  pose (tasks := issued cfg (network w) (List.length (calls w)) (endpoints cfg)).
  assert (Hlen : List.length tasks = List.length (endpoints cfg))
    by apply issued_length.
  pose proof (cron_callback_spec cfg arrivals w Hne) as Hrun.
  cbv zeta in Hrun. fold tasks in Hrun.
  assert (Hall : Forall (fun t => is_settled t = true)
                        (mark_all arrivals tasks)).
  { apply Forall_nth_error_iff. intros j t Hj.
    apply mark_all_settles with (arrivals := arrivals) (tasks := tasks)
                                (j := j); [|assumption].
    apply Hcover. rewrite <- Hlen, <- (length_mark_all arrivals).
    apply nth_error_Some. congruence. }
  rewrite (allSettled_all _ Hall) in Hrun
    by (apply mark_all_unrejected, issued_unrejected).
  rewrite Hrun. cbn [snd console with_lines with_calls].
  rewrite <- !List.app_assoc. do 3 apply f_equal.
  apply (f_equal (fun l => (l ++ [closing_line cfg])%list)).
  rewrite lines_all_NoDup by assumption.
  clear Hrun Hall Hnd.
  assert (Hin : forall i, In i arrivals -> (i < List.length tasks)%nat)
    by (intros i Hi; rewrite Hlen; now apply Hcover).
  clear Hcover. induction arrivals as [|i later IH]; [reflexivity|].
  simpl.
  rewrite (line_at_awaiting tasks (closing_line cfg))
    by (try apply issued_awaiting; apply Hin; now left).
  simpl. f_equal. apply IH. intros j Hj. apply Hin. now right.
Qed.

Lemma outcomes_logged_in_arrival_order_witness :
  console (snd (cron_callback Sample.broadcast_config [1; 2; 0]%nat Sample.world))
  = [ConsoleLog ["Starting cron job - calling 3 endpoint(s)"];
     ConsoleLog ["Using 4 query parameter(s)"];
     ConsoleLog ["Making request to: https://h/a?x=5&q%20r=a%26b"];
     ConsoleLog ["Making request to: https://h/b?x=5&q%20r=a%26b"];
     ConsoleLog ["Making request to: https://h/c?x=5&q%20r=a%26b"];
     ConsoleError ["Error making request to b:"; "fetch failed"];
     ConsoleLog ["https://h/c?x=5&q%20r=a%26b - 200 OK"];
     ConsoleLog ["https://h/a?x=5&q%20r=a%26b - 200 OK"];
     ConsoleLog ["Cron job completed - called 3 endpoint(s)"]].
Proof.
  rewrite (outcomes_logged_in_arrival_order Sample.broadcast_config
             [1; 2; 0]%nat Sample.world).
  - reflexivity.
  - discriminate.
  - repeat constructor; simpl; intuition discriminate.
  - intros i. simpl. split.
    + intros [<-|[<-|[<-|[]]]]; lia.
    + intros Hi. destruct i as [|[|[|i]]]; auto; lia.
Defined.

End BroadcastProperties.

(** * Further facts: ranges outside the contract *)

Section RandomProperties.

(** The product of a sample and a range below one rounds below one. *)
Lemma floor_mul_small (r n : Q) :
  unit_double (Finite r) = true -> is_double n = true ->
  (0 <= n)%Q -> (n < 1)%Q ->
  floor_mul (Finite r) (Finite n) = Finite (inject_Z 0).
Proof.
  intros U D N0 N1. cbn [unit_double] in U.
  apply andb_true_iff in U. destruct U as [U _].
  apply andb_true_iff in U. destruct U as [U0 U1].
  apply Qle_bool_iff in U0. apply negb_true_iff in U1.
  assert (R1 : (r < 1)%Q).
  { apply Qnot_le_lt. intro C. apply Qle_bool_iff in C. congruence. }
  unfold floor_mul, Number_mul, Math_floor.
  destruct (Qcompare_spec (r * n) 0) as [Z0 | Neg | Pos].
  - unfold round64. apply Qeq_alt in Z0. rewrite Z0. reflexivity.
  - nra.
  - assert (Pn : (0 < n)%Q) by nra.
    assert (Le : (r * n <= n)%Q) by nra.
    pose proof (rounded_le_double (r * n) n Pos Le D) as Up.
    pose proof (rounded_nonneg (r * n) ltac:(lra)) as Lo.
    rewrite round64_positive by exact Pos.
    rewrite round_positive_finite.
    + f_equal. f_equal. apply Z.le_antisymm.
      * assert (Qfloor (Qred (rounded (r * n))) < 1)%Z; [|lia].
        rewrite Zlt_Qlt. change (inject_Z 1) with 1%Q.
        apply Qle_lt_trans with (Qred (rounded (r * n))); [apply Qfloor_le|].
        rewrite Qred_correct. lra.
      * change 0%Z with (Qfloor 0). apply Qfloor_resp_le.
        rewrite Qred_correct. exact Lo.
    + apply Qle_lt_trans with (1 := Up). apply Qlt_trans with (1 := N1).
      reflexivity.
Qed.

Lemma value_for_small (r range : Number) :
  unit_double r = true -> RandomSpec.small_range range ->
  RandomSpec.value_for r range = Finite 1.
Proof.
  intros Hr (n & -> & D & N0 & N1).
  destruct (unit_double_finite r Hr) as [q ->].
  unfold RandomSpec.value_for.
  rewrite (floor_mul_small q n Hr D N0 N1). reflexivity.
Qed.

Lemma value_for_infinite (r : Number) (s : bool) :
  unit_double r = true ->
  RandomSpec.value_for r (Infinity s)
  = if truthy_number r then Infinity s else NaN.
Proof.
  intros Hr. destruct (unit_double_finite r Hr) as [q ->].
  cbn [unit_double] in Hr.
  apply andb_true_iff in Hr. destruct Hr as [U _].
  apply andb_true_iff in U. destruct U as [U0 _].
  apply Qle_bool_iff in U0.
  unfold RandomSpec.value_for, floor_mul, Number_mul, truthy_number.
  destruct (Qcompare_spec q 0) as [Z0 | Neg | Pos].
  - apply Qeq_eq_bool in Z0. now rewrite Z0.
  - lra.
  - assert (E : Qeq_bool q 0 = false).
    { destruct (Qeq_bool q 0) eqn:E; [|reflexivity].
      apply Qeq_bool_eq in E. lra. }
    rewrite E. reflexivity.
Qed.

(** X14: ranges the contract leaves out.  For a range that is a double
    below one (zero included) the value is always 1; for an infinite range
    it is that infinity, or [NaN] when the sample is 0; for the range [NaN]
    it is [NaN].  So the minimal script, which has no guard, sends
    [key=1&], and the server script [key=1] unless the range is zero, in
    which case it skips the parameter and draws no sample, as it does for
    [NaN]. *)
Theorem random_parameter_improper_range (key : string) (range : Number)
    (w : World) :
  uniform_samples w ->
  let r := random w (drawn w) in
  (RandomSpec.small_range range ->
   RandomSpec.value_for r range = Finite 1
   /\ Minimal.getRandomQueryParams [Minimal.mkQueryParam key range] w
      = (Returned (key ++ "=1&"), advance 1 w)
   /\ (key <> "" -> truthy_number range = true ->
       Server.getRandomQueryParams (Some [Server.mkQueryParam key range]) w
       = (Returned (encodeURIComponent key ++ "=1"), advance 1 w)))
  /\ (truthy_number range = false ->
      Server.getRandomQueryParams (Some [Server.mkQueryParam key range]) w
      = (Returned "", w))
  /\ RandomSpec.value_for r NaN = NaN
  /\ truthy_number NaN = false
  /\ (forall s,
        RandomSpec.value_for r (Infinity s)
        = (if truthy_number r then Infinity s else NaN)
        /\ truthy_number (Infinity s) = true).
Proof.
  intros Hw r. split; [|split; [|split; [|split]]].
  - intros Hsmall.
    pose proof (value_for_small r range (Hw (drawn w)) Hsmall) as Hv.
    split; [exact Hv|]. split.
    + unfold Minimal.getRandomQueryParams. rewrite Minimal_loop_spec.
      cbn [MinimalSpec.sampled map List.length String.concat].
      unfold MinimalSpec.raw_pair. cbn [fst snd Minimal.key Minimal.range].
      fold r. rewrite Hv. reflexivity.
    + intros Hk Ht. rewrite Server_getRandomQueryParams_spec.
      cbn [ServerSpec.sampled]. unfold ServerSpec.included.
      cbn [Server.key Server.range].
      apply truthy_string_true in Hk. rewrite Hk, Ht.
      cbn [andb map List.length join String.concat].
      unfold ServerSpec.pair_of, encoded_pair.
      cbn [fst snd Server.key Server.range]. fold r. rewrite Hv.
      reflexivity.
  - intros Hf. rewrite Server_getRandomQueryParams_spec.
    cbn [ServerSpec.sampled]. unfold ServerSpec.included.
    cbn [Server.key Server.range]. rewrite Hf, andb_false_r.
    cbn [map List.length join String.concat]. now rewrite advance_0.
  - unfold RandomSpec.value_for, floor_mul.
    destruct r as [| |q]; reflexivity.
  - reflexivity.
  - intros s. split; [|reflexivity].
    apply value_for_infinite. apply Hw.
Qed.

Lemma random_parameter_improper_range_witness :
  Minimal.getRandomQueryParams
    [Minimal.mkQueryParam "x" (round64 (1 # 4))] Sample.world
  = (Returned "x=1&", advance 1 Sample.world)
  /\ Server.getRandomQueryParams
       (Some [Server.mkQueryParam "x" (Number_of_Z 0)]) Sample.world
     = (Returned "", Sample.world)
  /\ RandomSpec.value_for (random Sample.world (drawn Sample.world))
       (Infinity false)
     = Infinity false.
Proof.
  destruct (random_parameter_improper_range "x" (round64 (1 # 4)) Sample.world
              sample_world_uniform) as (Hsmall & _ & _ & _ & Hinf).
  destruct (random_parameter_improper_range "x" (Number_of_Z 0) Sample.world
              sample_world_uniform) as (_ & Hzero & _).
  split; [|split].
  - apply Hsmall. exists (1 # 4).
    split; [reflexivity|]. split; [reflexivity|].
    split; [discriminate | reflexivity].
  - apply Hzero. reflexivity.
  - destruct (Hinf false) as [H _]. exact H.
Defined.

End RandomProperties.

(** * Further facts: the two random scripts side by side *)

Section PrinterFacts.

Lemma all_chars_zeros (n : nat) : all_chars uriUnescaped (zeros n) = true.
Proof. induction n as [|n IH]; [reflexivity | exact IH]. Qed.

Lemma all_chars_substring (test : ascii -> bool) (s : string) :
  all_chars test s = true ->
  forall n m, all_chars test (substring n m s) = true.
Proof.
  induction s as [|c s IH]; intros H n m.
  - destruct n, m; reflexivity.
  - simpl in H. apply andb_true_iff in H. destruct H as [Hc Hs].
    destruct n as [|n]; [destruct m as [|m]|]; simpl; [reflexivity | |].
    + rewrite Hc. apply (IH Hs 0%nat m).
    + apply (IH Hs n m).
Qed.

Lemma all_chars_uint (d : Decimal.uint) :
  all_chars uriUnescaped (NilEmpty.string_of_uint d) = true.
Proof. induction d; simpl; assumption || reflexivity. Qed.

Lemma all_chars_decimal (z : Z) :
  (0 <= z)%Z -> all_chars uriUnescaped (decimal z) = true.
Proof.
  intros H. unfold decimal.
  destruct z as [|p|p]; [reflexivity | | lia].
  simpl. apply all_chars_uint.
Qed.

(** The plain layouts of [format_decimal] hold digits and a point only. *)
Lemma all_chars_format_decimal (sd : string) (n : Z) :
  all_chars uriUnescaped sd = true -> (0 < n <= 21)%Z ->
  all_chars uriUnescaped (format_decimal sd n) = true.
Proof.
  intros Hsd [H0 H21]. unfold format_decimal.
  assert (E0 : (0 <? n)%Z = true) by (apply Z.ltb_lt; lia).
  assert (E21 : (n <=? 21)%Z = true) by (apply Z.leb_le; lia).
  rewrite E0, E21, andb_true_r. cbn [andb].
  destruct (Z.of_nat (String.length sd) <=? n)%Z.
  - now rewrite all_chars_append, Hsd, all_chars_zeros.
  - rewrite !all_chars_append, !all_chars_substring by assumption.
    reflexivity.
Qed.

Lemma shortest_decimal_range (fuel : nat) :
  forall (k : Z) (x : Q) (c : Z),
    (0 <= x / 10 ^ (c + 1 - k))%Q ->
    (forall k', (0 <= x / 10 ^ (c + 1 - k'))%Q) ->
    (0 <= fst (shortest_decimal fuel k x c))%Z
    /\ (snd (shortest_decimal fuel k x c) = c + 1
        \/ snd (shortest_decimal fuel k x c) = c + 2)%Z.
Proof.
  induction fuel as [|fuel IH]; intros k x c Hk Hall.
  - cbn [shortest_decimal fst snd]. split; [|now left].
    change 0%Z with (Qfloor 0). now apply Qfloor_resp_le.
  - assert (Hlo : (0 <= Qfloor (x / 10 ^ (c + 1 - k)))%Z).
    { change 0%Z with (Qfloor 0). now apply Qfloor_resp_le. }
    assert (Hup : (0 <= fst (if (Qfloor (x / 10 ^ (c + 1 - k)) + 1 =? 10 ^ k)%Z
                           then (1%Z, (c + 2)%Z)
                           else ((Qfloor (x / 10 ^ (c + 1 - k)) + 1)%Z,
                                 (c + 1)%Z)))%Z
                  /\ (snd (if (Qfloor (x / 10 ^ (c + 1 - k)) + 1 =? 10 ^ k)%Z
                           then (1%Z, (c + 2)%Z)
                           else ((Qfloor (x / 10 ^ (c + 1 - k)) + 1)%Z,
                                 (c + 1)%Z)) = c + 1
                      \/ snd (if (Qfloor (x / 10 ^ (c + 1 - k)) + 1 =? 10 ^ k)%Z
                              then (1%Z, (c + 2)%Z)
                              else ((Qfloor (x / 10 ^ (c + 1 - k)) + 1)%Z,
                                    (c + 1)%Z)) = c + 2)%Z).
    { destruct (_ =? _)%Z; cbn [fst snd]; split; auto; lia. }
    cbn [shortest_decimal].
    destruct (rounds_to x _ _), (rounds_to x _ _).
    + destruct (_ ?= _)%Q; [destruct (Z.even _)| |];
        try exact Hup; cbn [fst snd]; split; auto.
    + cbn [fst snd]. split; auto.
    + exact Hup.
    + apply IH; [apply Hall | exact Hall].
Qed.

Lemma ten_pos (k : Z) : (0 < 10 ^ k)%Q.
Proof. apply Qpower_0_lt. reflexivity. Qed.

Lemma two_le_ten (n : Z) : (0 <= n)%Z -> (2 ^ n <= 10 ^ n)%Q.
Proof.
  intros H. rewrite <- (Zpower_Qpower 2 n), <- (Zpower_Qpower 10 n) by exact H.
  rewrite <- Zle_Qle. apply Z.pow_le_mono_l. lia.
Qed.

Lemma ten_le_two (n : Z) : (n <= 0)%Z -> (10 ^ n <= 2 ^ n)%Q.
Proof.
  intros H. pose proof (two_le_ten (- n) ltac:(lia)) as L.
  assert (E2 : (2 ^ n * 2 ^ (- n) == 1)%Q).
  { rewrite <- two_plus. replace (n + - n)%Z with 0%Z by lia. reflexivity. }
  assert (E10 : (10 ^ n * 10 ^ (- n) == 1)%Q).
  { rewrite <- Qpower_plus by discriminate.
    replace (n + - n)%Z with 0%Z by lia. reflexivity. }
  pose proof (two_pos n) as P2. pose proof (two_pos (- n)) as P2'.
  pose proof (ten_pos n) as P10. pose proof (ten_pos (- n)) as P10'.
  set (a := (2 ^ n)%Q) in *. set (a' := (2 ^ (- n))%Q) in *.
  set (b := (10 ^ n)%Q) in *. set (b' := (10 ^ (- n))%Q) in *.
  apply Qnot_lt_le. intro C. nra.
Qed.

Lemma log10_up_spec (a : Q) (fuel : nat) :
  forall c : Z,
    (10 ^ c <= a)%Q -> (a < 10 ^ (c + Z.of_nat fuel + 1))%Q ->
    (10 ^ log10_up fuel c a <= a)%Q /\ (a < 10 ^ (log10_up fuel c a + 1))%Q.
Proof.
  induction fuel as [|fuel IH]; intros c Lo Up.
  - cbn [log10_up]. split; [exact Lo|].
    replace (c + Z.of_nat 0 + 1)%Z with (c + 1)%Z in Up by lia. exact Up.
  - cbn [log10_up]. destruct (Qle_bool (10 ^ (c + 1)) a) eqn:E.
    + apply IH; [now apply Qle_bool_iff|].
      replace (c + 1 + Z.of_nat fuel + 1)%Z
        with (c + Z.of_nat (S fuel) + 1)%Z by lia.
      exact Up.
    + split; [exact Lo|]. apply Qnot_le_lt. intro C.
      apply Qle_bool_iff in C. congruence.
Qed.

Lemma log10_down_spec (a : Q) (fuel : nat) :
  forall c : Z,
    (a < 10 ^ (c + 1))%Q -> (10 ^ (c - Z.of_nat fuel) <= a)%Q ->
    (10 ^ log10_down fuel c a <= a)%Q
    /\ (a < 10 ^ (log10_down fuel c a + 1))%Q.
Proof.
  induction fuel as [|fuel IH]; intros c Up Lo.
  - cbn [log10_down]. split; [|exact Up].
    replace (c - Z.of_nat 0)%Z with c in Lo by lia. exact Lo.
  - cbn [log10_down]. destruct (Qle_bool (10 ^ c) a) eqn:E.
    + split; [now apply Qle_bool_iff | exact Up].
    + apply IH.
      * replace (c - 1 + 1)%Z with c by lia. apply Qnot_le_lt. intro C.
        apply Qle_bool_iff in C. congruence.
      * replace (c - 1 - Z.of_nat fuel)%Z
          with (c - Z.of_nat (S fuel))%Z by lia.
        exact Lo.
Qed.

(** [Qlog10] is the decimal exponent. *)
Lemma Qlog10_spec (a : Q) :
  (0 < a)%Q -> (10 ^ Qlog10 a <= a)%Q /\ (a < 10 ^ (Qlog10 a + 1))%Q.
Proof.
  intros P. destruct (Qlog2_spec a P) as [Lo Up]. unfold Qlog10.
  destruct (Qle_bool 1 a) eqn:E.
  - apply Qle_bool_iff in E.
    assert (L0 : (0 <= Qlog2 a)%Z).
    { assert (C : (2 ^ 0 < 2 ^ (Qlog2 a + 1))%Q)
        by (change (2 ^ 0)%Q with 1%Q; lra).
      apply (Qpower_lt_compat_l_inv 2 0 (Qlog2 a + 1)) in C;
        [lia | reflexivity]. }
    apply log10_up_spec; [exact E|].
    rewrite Z2Nat.id by exact L0.
    apply Qlt_le_trans with (1 := Up). cbn [Z.add].
    apply two_le_ten. lia.
  - assert (A1 : (a < 1)%Q).
    { apply Qnot_le_lt. intro C. apply Qle_bool_iff in C. congruence. }
    assert (L0 : (Qlog2 a < 0)%Z).
    { assert (C : (2 ^ Qlog2 a < 2 ^ 0)%Q)
        by (change (2 ^ 0)%Q with 1%Q; lra).
      apply (Qpower_lt_compat_l_inv 2 (Qlog2 a) 0) in C;
        [exact C | reflexivity]. }
    apply log10_down_spec; [exact A1|].
    rewrite Z2Nat.id by lia.
    apply Qle_trans with (2 := Lo).
    apply Qle_trans with (10 ^ Qlog2 a)%Q.
    + apply Qpower_le_compat_l; [lia | discriminate].
    + apply ten_le_two. lia.
Qed.

Lemma Qlog10_whole (q : Q) :
  (1 <= q)%Q -> (q <= 2 ^ 53)%Q -> (0 <= Qlog10 q <= 16)%Z.
Proof.
  intros H1 H2. assert (P : (0 < q)%Q) by lra.
  destruct (Qlog10_spec q P) as [Lo Up]. split.
  - assert (C : (10 ^ 0 < 10 ^ (Qlog10 q + 1))%Q)
      by (change (10 ^ 0)%Q with 1%Q; lra).
    apply (Qpower_lt_compat_l_inv 10 0 (Qlog10 q + 1)) in C;
      [lia | reflexivity].
  - assert (C : (10 ^ Qlog10 q < 10 ^ 17)%Q).
    { apply Qle_lt_trans with (1 := Lo). apply Qle_lt_trans with (1 := H2).
      reflexivity. }
    apply (Qpower_lt_compat_l_inv 10 (Qlog10 q) 17) in C;
      [lia | reflexivity].
Qed.

(** A whole number from one up to [2^53] is printed with characters
    [encodeURIComponent] leaves alone. *)
Lemma Number_toString_whole (k : Z) :
  (1 <= k <= 2 ^ 53)%Z ->
  all_chars uriUnescaped (Number_toString (Finite (inject_Z k))) = true.
Proof.
  intros [H1 H2]. unfold Number_toString.
  assert (P : (0 < inject_Z k)%Q) by (apply inject_pos; lia).
  apply Qgt_alt in P as G. rewrite G. unfold positive_toString.
  assert (Q1 : (1 <= inject_Z k)%Q).
  { change 1%Q with (inject_Z 1). rewrite <- Zle_Qle. exact H1. }
  assert (Q2 : (inject_Z k <= 2 ^ 53)%Q).
  { rewrite <- (two_inject 53) by lia. rewrite <- Zle_Qle. exact H2. }
  pose proof (Qlog10_whole (inject_Z k) Q1 Q2) as HC.
  assert (Hall : forall k',
             (0 <= inject_Z k / 10 ^ (Qlog10 (inject_Z k) + 1 - k'))%Q).
  { intros k'. apply Qlt_le_weak. apply Qlt_shift_div_l.
    - apply Qpower_0_lt. reflexivity.
    - rewrite Qmult_0_l. exact P. }
  destruct (shortest_decimal_range 17 1 (inject_Z k) (Qlog10 (inject_Z k))
              (Hall 1%Z) Hall) as [Hs Hn].
  destruct (shortest_decimal 17 1 (inject_Z k) (Qlog10 (inject_Z k)))
    as [s n]. cbn [fst snd] in Hs, Hn.
  apply all_chars_format_decimal; [now apply all_chars_decimal | lia].
Qed.

End PrinterFacts.

Section MinimalProperties.

Import Minimal MinimalSpec.

Lemma encodeURIComponent_unescaped (s : string) :
  all_chars uriUnescaped s = true -> encodeURIComponent s = s.
Proof.
  induction s as [|c s IH]; simpl; [reflexivity|].
  rewrite andb_true_iff. intros [Hc Hs]. now rewrite Hc, (IH Hs).
Qed.

Lemma concat_terminated (parts : list string) :
  parts <> [] ->
  String.concat "" (map (fun p => p ++ "&") parts) = join "&" parts ++ "&".
Proof.
  induction parts as [|p rest IH]; [congruence|]. intros _.
  destruct rest as [|q rest]; [simpl; reflexivity|].
  rewrite join_cons2. cbn [map]. rewrite concat_empty_cons.
  cbn [map] in IH. rewrite IH by discriminate.
  now rewrite !append_assoc.
Qed.

(** X15: the minimal script's callback, as a whole.  It draws the endpoint,
    then one sample per parameter, and sends one [GET] without headers to
    [baseURL/endpoint?query]: the ["?"] is there also when there is no
    parameter, and the path is [/undefined] when the array is empty.  It has
    no [catch]: a call the transport rejects makes the callback throw with
    nothing written to the console, an answered call writes one line.  With
    the endpoint array missing it throws before any call goes out. *)
Theorem minimal_callback_behaviour (cfg : Config) (w : World) :
  (forall arr,
     endpoints cfg = Some arr ->
     let endpoint :=
       array_get arr (floor_mul (random w (drawn w))
                                (Number_of_Z (Z.of_nat (List.length arr)))) in
     let query :=
       String.concat ""
         (map raw_pair (sampled (queryParams cfg) (random w) (S (drawn w)))) in
     let rq := request_for cfg endpoint query in
     let w1 := with_calls [rq]
                 (advance (S (List.length (queryParams cfg))) w) in
     cron_callback cfg w
     = match network w (List.length (calls w)) rq with
       | Responded response =>
           (Returned tt,
            with_lines
              [ConsoleLog [response_url response ++ " - "
                             ++ Number_toString
                                  (Number_of_Z (response_status response))]]
              w1)
       | Rejected message => (Thrown message, w1)
       end
     /\ (arr = [] -> endpoint = JUndefined)
     /\ (queryParams cfg = [] -> query = ""))
  /\ (endpoints cfg = None ->
      exists message, cron_callback cfg w = (Thrown message, advance 1 w)).
Proof.
  split.
  - intros arr E endpoint query rq w1. split; [|split].
    + unfold cron_callback. unfold bind at 1.
      unfold getRandomEndpoint, bind at 1.
      rewrite Math_random_spec, E. unfold ret.
      unfold bind at 1. unfold getRandomQueryParams.
      rewrite Minimal_loop_spec.
      change (random (advance 1 w)) with (random w).
      change (drawn (advance 1 w)) with (drawn w + 1)%nat.
      rewrite Nat.add_1_r. simpl String.append at 1.
      fold endpoint. fold query.
      change (mkRequest _ "GET" []) with rq.
      unfold bind at 1. unfold fetch, bind at 1. rewrite fetch_issue_spec.
      cbn [network calls advance].
      destruct (network w (List.length (calls w)) rq) as [response|message];
        unfold await, ret, throw; rewrite ?console_log_spec;
        (apply f_equal2; [reflexivity|]);
        unfold w1, with_lines, with_calls, advance;
        cbn [random drawn network calls console clock];
        f_equal; lia.
    + intros ->. subst endpoint. apply array_get_nil.
    + intros Hq. subst query. now rewrite Hq.
  - intros E. eexists. unfold cron_callback, bind, getRandomEndpoint, bind.
    rewrite Math_random_spec, E. reflexivity.
Qed.

Lemma minimal_callback_behaviour_witness :
  cron_callback
    (mkConfig (JString "*/5 * * * *") (JString "https://h") (Some []) [])
    Sample.offline
  = (Thrown "fetch failed",
     with_calls [mkRequest "https://h/undefined?" "GET" []]
                (advance 1 Sample.offline))
  /\ exists message,
       cron_callback
         (mkConfig (JString "*/5 * * * *") (JString "https://h") None [])
         Sample.world
       = (Thrown message, advance 1 Sample.world).
Proof.
  split.
  - destruct (minimal_callback_behaviour
                (mkConfig (JString "*/5 * * * *") (JString "https://h")
                   (Some []) [])
                Sample.offline) as [H _].
    destruct (H [] eq_refl) as [Hrun _]. exact Hrun.
  - destruct (minimal_callback_behaviour
                (mkConfig (JString "*/5 * * * *") (JString "https://h")
                   None [])
                Sample.world) as [_ H].
    apply H. reflexivity.
Defined.

Lemma safe_range_of_Z (n : Z) :
  (1 <= n <= 2 ^ 53)%Z -> RandomSpec.safe_range (Number_of_Z n).
Proof.
  intros H. destruct (proper_range_of_Z n H) as (q & E & D & L).
  exists q. repeat split; try assumption.
  rewrite Number_of_Z_exact in E by lia. injection E as <-.
  rewrite <- (two_inject 53) by lia. rewrite <- Zle_Qle. lia.
Qed.

Lemma safe_range_truthy (range : Number) :
  RandomSpec.safe_range range -> truthy_number range = true.
Proof.
  intros (n & -> & _ & L & _). simpl. apply negb_true_iff.
  destruct (Qeq_bool n 0) eqn:E; [|reflexivity].
  apply Qeq_bool_eq in E. lra.
Qed.

(** For a range up to [2^53] the value is a whole number up to [2^53]. *)
Lemma safe_value (r range : Number) :
  unit_double r = true -> RandomSpec.safe_range range ->
  exists k : Z,
    RandomSpec.value_for r range = Finite (inject_Z k) /\ (1 <= k <= 2 ^ 53)%Z.
Proof.
  intros Hr (n & -> & D & L & U).
  destruct (value_for_bounds r (Finite n) Hr) as (k & n' & Hv & [= <-] & Hk).
  { now exists n. }
  exists k. split; [exact Hv|]. split; [lia|].
  apply Z.le_trans with (Qceiling n); [lia|].
  rewrite <- (Qceiling_Z (2 ^ 53)). apply Qceiling_resp_le.
  rewrite two_inject by lia. exact U.
Qed.

Lemma sampled_as_server (arr : list QueryParam) (rand : nat -> Number) :
  (forall param, In param arr ->
                 key param <> "" /\ truthy_number (range param) = true) ->
  forall k,
    ServerSpec.sampled (map as_server arr) rand k
    = map (fun pv => (as_server (fst pv), snd pv)) (sampled arr rand k).
Proof.
  induction arr as [|param rest IH]; intros H k; simpl; [reflexivity|].
  destruct (H param (or_introl eq_refl)) as [Hk Hr].
  unfold ServerSpec.included. simpl.
  apply truthy_string_true in Hk. rewrite Hk, Hr. simpl.
  rewrite IH; [reflexivity|]. intros p Hp. apply H. now right.
Qed.

Lemma sampled_safe (arr : list QueryParam) (rand : nat -> Number) :
  (forall i, unit_double (rand i) = true) ->
  (forall param, In param arr -> RandomSpec.safe_range (range param)) ->
  forall k pv,
    In pv (sampled arr rand k) ->
    encodeURIComponent (Number_toString (snd pv)) = Number_toString (snd pv).
Proof.
  intros Hrand.
  induction arr as [|param rest IH]; intros Hrange k pv; simpl; [tauto|].
  intros [<-|Hin].
  - simpl. destruct (safe_value (rand k) (range param) (Hrand k))
      as (z & -> & Hz); [apply Hrange; now left|].
    apply encodeURIComponent_unescaped. now apply Number_toString_whole.
  - apply (IH (fun p Hp => Hrange p (or_intror Hp)) (S k) pv Hin).
Qed.

(** X16: how the two random scripts' query strings relate.  For a
    non-empty parameter array whose keys are non-empty and made of
    characters [encodeURIComponent] leaves alone and whose ranges are
    doubles from 1 to [2^53], and samples that are doubles in [[0,1)], both
    scripts draw the same values from the same samples, and the minimal
    script's query string is the server script's followed by one ["&"]. *)
Theorem minimal_query_is_server_query_terminated (arr : list QueryParam)
    (w : World) :
  arr <> [] ->
  uniform_samples w ->
  (forall param, In param arr ->
                 key param <> ""
                 /\ all_chars uriUnescaped (key param) = true
                 /\ RandomSpec.safe_range (range param)) ->
  exists query,
    Server.getRandomQueryParams (Some (map as_server arr)) w
    = (Returned query, advance (List.length arr) w)
    /\ getRandomQueryParams arr w
       = (Returned (query ++ "&"), advance (List.length arr) w).
Proof.
  intros Hne Hw H.
  assert (H' : forall param, In param arr ->
                 key param <> "" /\ truthy_number (range param) = true).
  { intros p Hp. destruct (H p Hp) as (? & _ & Hs).
    split; [assumption | now apply safe_range_truthy]. }
  assert (Hsafe : forall param, In param arr ->
                    RandomSpec.safe_range (range param)).
  { intros p Hp. now destruct (H p Hp) as (_ & _ & Hs). }
  eexists. split.
  - rewrite Server_getRandomQueryParams_spec.
    rewrite (sampled_as_server arr (random w) H'), !length_map.
    rewrite <- (Minimal_sampled_params arr (random w) (drawn w)) at 3.
    rewrite length_map. reflexivity.
  - unfold getRandomQueryParams. rewrite Minimal_loop_spec. simpl.
    f_equal. f_equal. rewrite map_map.
    assert (Hpairs : map raw_pair (sampled arr (random w) (drawn w))
                     = map (fun p => p ++ "&")
                         (map (fun pv =>
                                 ServerSpec.pair_of (as_server (fst pv), snd pv))
                              (sampled arr (random w) (drawn w)))).
    { rewrite map_map. apply map_ext_in. intros [param v] Hin.
      assert (Hp : In param arr).
      { rewrite <- (Minimal_sampled_params arr (random w) (drawn w)).
        change param with (fst (param, v)). now apply in_map. }
      destruct (H param Hp) as (_ & Hchars & _).
      pose proof (sampled_safe arr (random w) Hw Hsafe (drawn w) (param, v) Hin)
        as Hv.
      unfold raw_pair, ServerSpec.pair_of, encoded_pair.
      cbn [fst snd as_server Server.key] in *.
      rewrite (encodeURIComponent_unescaped _ Hchars), Hv, !append_assoc.
      reflexivity. }
    rewrite Hpairs. apply concat_terminated.
    destruct arr; [congruence | discriminate].
Qed.

Lemma minimal_query_is_server_query_terminated_witness :
  exists query,
    Server.getRandomQueryParams
      (Some (map as_server [mkQueryParam "x" (Number_of_Z 10);
                            mkQueryParam "y" (Number_of_Z 1)]))
      Sample.world
    = (Returned query, advance 2 Sample.world)
    /\ getRandomQueryParams [mkQueryParam "x" (Number_of_Z 10);
                             mkQueryParam "y" (Number_of_Z 1)]
         Sample.world
       = (Returned (query ++ "&"), advance 2 Sample.world).
Proof.
  apply (minimal_query_is_server_query_terminated
           [mkQueryParam "x" (Number_of_Z 10);
            mkQueryParam "y" (Number_of_Z 1)] Sample.world).
  - discriminate.
  - exact sample_world_uniform.
  - simpl. intros param [<-|[<-|[]]]; simpl;
      (split; [discriminate|]; split; [reflexivity|]);
      apply safe_range_of_Z; (split; [lia | discriminate]).
Defined.

End MinimalProperties.

(** * Further facts: one run of the server's dispatcher *)

Section ServerRunProperties.

Import Server ServerSpec.

(** A run of [executeCronJob], given what [getRandomEndpoint] did. *)
Lemma executeCronJob_after (cfg : Config) (endpoint : JSValue) (k : nat)
    (w : World) :
  getRandomEndpoint (Some (endpoints cfg)) w
  = (Returned endpoint, advance k w) ->
  let vs := sampled (queryParams cfg) (random w) (drawn w + k) in
  let rq := request_for cfg endpoint (join "&" (map pair_of vs)) in
  let r := network w (List.length (calls w)) rq in
  executeCronJob cfg w
  = (Returned (outcome_of r),
     with_calls [rq]
       (with_lines (run_lines rq r) (advance (k + List.length vs) w))).
Proof.
  intros He vs rq r.
  unfold executeCronJob, try_catch.
  unfold bind at 1. rewrite He.
  unfold bind at 1. rewrite Server_getRandomQueryParams_spec.
  change (random (advance k w)) with (random w).
  change (drawn (advance k w)) with (drawn w + k)%nat.
  fold vs.
  unfold bind at 1. rewrite console_log_spec.
  unfold bind at 1. unfold fetch, bind at 1. rewrite fetch_issue_spec.
  cbn [network calls with_lines advance].
  fold (request_for cfg endpoint (join "&" (map pair_of vs))). fold rq.
  fold r.
  destruct r as [response|message]; unfold await, ret, throw, bind;
    rewrite ?console_log_spec, ?console_error_spec;
    (apply f_equal2; [reflexivity|]);
    unfold with_lines, with_calls, advance, run_lines;
    cbn [random drawn network calls console clock];
    f_equal; rewrite <- ?List.app_assoc, ?Nat.add_assoc; reflexivity.
Qed.

(** X17: what one run of [executeCronJob] uses up and leaves behind.  It
    draws one sample for the endpoint unless the endpoint array is empty,
    then one for each parameter with a non-empty key and a non-zero range;
    it writes exactly two console lines, the announcement and the outcome;
    its one request is a [GET] with the headers of [createRequestHeaders]
    whose URL begins with the base URL; and it leaves the random source,
    the transport and the clock as they were. *)
Theorem executeCronJob_footprint (cfg : Config) (w : World) :
  let w' := snd (executeCronJob cfg w) in
  drawn w'
  = (drawn w
     + (if (Z.of_nat (List.length (endpoints cfg)) =? 0)%Z then 0 else 1)
     + List.length (filter included (queryParams cfg)))%nat
  /\ (exists announcement outcome,
        console w' = (console w ++ [announcement; outcome])%list)
  /\ (exists rq,
        calls w' = (calls w ++ [rq])%list
        /\ rq_method rq = "GET"
        /\ rq_headers rq = createRequestHeaders cfg
        /\ String.prefix (baseURL cfg) (rq_url rq) = true)
  /\ random w' = random w /\ network w' = network w /\ clock w' = clock w.
Proof.
  intros w'. subst w'.
  assert (Hurl : forall endpoint q,
             String.prefix (baseURL cfg) (buildURL (baseURL cfg) endpoint q)
             = true).
  { intros endpoint q. unfold buildURL.
    destruct (truthy endpoint), (truthy_string q);
      rewrite ?append_assoc; try apply prefix_append.
    rewrite <- (append_nil_r (baseURL cfg)) at 2. apply prefix_append. }
  assert (He : exists endpoint,
             getRandomEndpoint (Some (endpoints cfg)) w
             = (Returned endpoint,
                advance (if (Z.of_nat (List.length (endpoints cfg)) =? 0)%Z
                         then 0 else 1) w)).
  { unfold getRandomEndpoint.
    destruct (Z.of_nat (List.length (endpoints cfg)) =? 0)%Z.
    - eexists. unfold ret. now rewrite advance_0.
    - eexists. unfold bind. rewrite Math_random_spec. reflexivity. }
  destruct He as [endpoint He].
  set (k := if (Z.of_nat (List.length (endpoints cfg)) =? 0)%Z
            then 0%nat else 1%nat) in *.
  rewrite (executeCronJob_after cfg endpoint k w He).
  cbn [snd drawn console calls random network clock with_calls with_lines
       advance].
  rewrite <- (Server_sampled_params (queryParams cfg) (random w)
                (drawn w + k)), length_map.
  split; [lia|]. split; [eexists _, _; reflexivity|].
  split; [|repeat split].
  eexists. split; [reflexivity|]. repeat split. apply Hurl.
Qed.

End ServerRunProperties.

(** * Further facts: how query strings compose *)

Section QueryComposition.

Lemma request_url_question_marks_witness :
  buildURL "https://h" (JString "e")
    (Broadcast.buildQueryParams
       (Some [Broadcast.mkQueryParam "" (Broadcast.PString "v");
              Broadcast.mkQueryParam "k" Broadcast.PNull]))
  = buildURL "https://h" (JString "e") "".
Proof.
  destruct (request_url_question_marks "https://h" "e"
              [Broadcast.mkQueryParam "" (Broadcast.PString "v");
               Broadcast.mkQueryParam "k" Broadcast.PNull]) as (_ & _ & H).
  apply H. reflexivity.
Defined.

Lemma filter_filter {A} (f : A -> bool) (l : list A) :
  filter f (filter f l) = filter f l.
Proof.
  induction l as [|x l IH]; simpl; [reflexivity|].
  destruct (f x) eqn:E; simpl; [now rewrite E, IH | exact IH].
Qed.

Lemma Server_sampled_filter (arr : list Server.QueryParam) (rand : nat -> Number) :
  forall k,
    ServerSpec.sampled (filter ServerSpec.included arr) rand k
    = ServerSpec.sampled arr rand k.
Proof.
  induction arr as [|param rest IH]; intros k; simpl; [reflexivity|].
  destruct (ServerSpec.included param) eqn:E; simpl;
    [now rewrite E, IH | apply IH].
Qed.

(** X18: a parameter that is not let through is as good as absent.
    Removing from the array the parameters [buildQueryParams] skips (empty
    key, value [undefined] or [null]) changes nothing; removing those the
    server's [getRandomQueryParams] skips (empty key, falsy range, that is
    0 or [NaN]) changes
    neither the query string nor the samples drawn, so the values of the
    other parameters stay the same. *)
Theorem skipped_parameters_are_invisible :
  (forall arr : list Broadcast.QueryParam,
     Broadcast.buildQueryParams
       (Some (filter (fun param =>
                        negb (Broadcast.key param =? "")
                        && match Broadcast.value param with
                           | Broadcast.PUndefined | Broadcast.PNull => false
                           | _ => true
                           end) arr))
     = Broadcast.buildQueryParams (Some arr))
  /\ (forall (arr : list Server.QueryParam) (w : World),
        Server.getRandomQueryParams
          (Some (filter (fun param =>
                           negb (Server.key param =? "")
                           && truthy_number (Server.range param)) arr)) w
        = Server.getRandomQueryParams (Some arr) w).
Proof.
  split.
  - intros arr.
    change (fun param : Broadcast.QueryParam => _)
      with BroadcastSpec.included.
    now rewrite !buildQueryParams_spec, filter_filter.
  - intros arr w.
    change (fun param : Server.QueryParam => _) with ServerSpec.included.
    now rewrite !Server_getRandomQueryParams_spec, Server_sampled_filter.
Qed.

Lemma join_app (sep : string) (l1 l2 : list string) :
  l1 <> [] -> l2 <> [] ->
  join sep (l1 ++ l2) = join sep l1 ++ sep ++ join sep l2.
Proof.
  intros H1 H2. induction l1 as [|x l1 IH]; [congruence|].
  destruct l1 as [|y l1].
  - destruct l2 as [|z l2]; [congruence | reflexivity].
  - change ((x :: y :: l1) ++ l2)%list with (x :: y :: (l1 ++ l2))%list.
    rewrite !join_cons2.
    change (y :: (l1 ++ l2))%list with ((y :: l1) ++ l2)%list.
    rewrite IH by discriminate. now rewrite !append_assoc.
Qed.

Lemma literal_query_empty_iff (arr : list Broadcast.QueryParam) :
  Broadcast.buildQueryParams (Some arr) = ""
  <-> filter BroadcastSpec.included arr = [].
Proof.
  destruct (literal_query_string_facts arr) as [_ Hcount]. split.
  - intros E. rewrite E in Hcount. simpl in Hcount.
    now destruct (filter BroadcastSpec.included arr).
  - intros E. now rewrite buildQueryParams_spec, E.
Qed.

(** X19: query strings compose.  The query string of two parameter arrays
    put one after the other is the two query strings joined by one ["&"],
    or just the one that is not empty, or empty when both are: no ["&"] is
    ever put at an end or doubled. *)
Theorem query_string_of_concatenation (arr1 arr2 : list Broadcast.QueryParam) :
  let q1 := Broadcast.buildQueryParams (Some arr1) in
  let q2 := Broadcast.buildQueryParams (Some arr2) in
  Broadcast.buildQueryParams (Some (arr1 ++ arr2)%list)
  = if q1 =? "" then q2
    else if q2 =? "" then q1
         else q1 ++ "&" ++ q2.
Proof.
  cbv zeta.
  destruct (Broadcast.buildQueryParams (Some arr1) =? "") eqn:E1.
  - apply String.eqb_eq, literal_query_empty_iff in E1.
    now rewrite !buildQueryParams_spec, filter_app, E1.
  - destruct (Broadcast.buildQueryParams (Some arr2) =? "") eqn:E2.
    + apply String.eqb_eq, literal_query_empty_iff in E2.
      now rewrite !buildQueryParams_spec, filter_app, E2, app_nil_r.
    + apply String.eqb_neq in E1, E2.
      rewrite literal_query_empty_iff in E1, E2.
      rewrite !buildQueryParams_spec, filter_app, map_app.
      apply join_app.
      * destruct (filter BroadcastSpec.included arr1);
          [congruence | discriminate].
      * destruct (filter BroadcastSpec.included arr2);
          [congruence | discriminate].
Qed.

End QueryComposition.
